(** * MAVLink router: routing, de-duplication, controller and extensions

    A shallow embedding of the parts of the router that the specification
    makes promises about, with the promises stated and proved (or refuted)
    against the embedding.

    - [DedupModel]     : src/dedup.cpp
    - [MainloopModel]  : src/mainloop.cpp  (request_exit, loop, route_msg,
                         the group-linking pass of add_endpoints)
    - [RpcModel]       : src/rpc-mechanisms/RpcController.cpp
    - [ExtensionModel] : src/mavlink-extensions/ExtensionManager.cpp *)

From Stdlib Require Import ZArith Lia.
From Stdlib Require Import Strings.Byte.
From stdpp Require Import gmap strings list fin_maps sorting.

Local Open Scope Z_scope.

(** Unsigned 32-bit wrap-around, as C++ [uint32_t] arithmetic has it. *)
Definition u32 (z : Z) : Z := z mod 2 ^ 32.

(** A [std::map<std::string, V>] is a [gmap string V]; a [for] over it visits
    the entries in the order of their keys. *)
Definition key_le {V : Type} (a b : string * V) : Prop :=
  String.leb a.1 b.1 = true.

Global Instance key_le_dec {V : Type} (a b : string * V) :
  Decision (key_le a b).
Proof. unfold key_le. apply _. Defined.

Definition map_items {V : Type} (m : gmap string V) : list (string * V) :=
  merge_sort key_le (map_to_list m).

(* ===================================================================== *)
(** * De-duplication cache (src/dedup.cpp)                                 *)
(* ===================================================================== *)

Module DedupModel.

Definition payload := list byte.

(** [Dedup::PacketStatus] *)
Inductive PacketStatus := NEW_PACKET_OR_TIMED_OUT | ALREADY_EXISTS_IN_BUFFER.

Global Instance PacketStatus_eq_dec : EqDecision PacketStatus.
Proof. solve_decision. Defined.

(** [class DedupImpl]: the FIFO of (insertion time, hash) pairs and the set
    of hashes.  [time_t] is [uint32_t] and [hash_t] is [uint64_t]; both are
    carried as [Z]. *)
Record DedupImpl := mkImpl {
  _time_hash_queue : list (Z * Z);
  _packet_hash_set : gset Z
}.

(** [class Dedup]: the period and the owned implementation ([std::unique_ptr],
    empty after a move). *)
Record Dedup := mkDedup {
  _dedup_period_ms : Z;
  _impl : option DedupImpl
}.

Definition new_Dedup (dedup_period_ms : Z) : Dedup :=
  mkDedup dedup_period_ms (Some (mkImpl [] ∅)).

(** [Dedup::set_dedup_period(uint32_t)]: the argument is narrowed to 32 bits
    at the call. *)
Definition set_dedup_period (d : Dedup) (dedup_period_ms : Z) : Dedup :=
  mkDedup (u32 dedup_period_ms) (_impl d).

Section WithHash.

(** [std::hash<std::string>] is a library function; the model is parametric
    in it. *)
Variable std_hash : payload → Z.

(** The clean-up loop of [DedupImpl::check_packet]:
    [while (!queue.empty() && timestamp > queue.front().first + period)].
    The sum is computed in [uint32_t]. *)
Fixpoint expire (timestamp period : Z) (q : list (Z * Z)) (s : gset Z)
  : list (Z * Z) * gset Z :=
  match q with
  | [] => ([], s)
  | (t0, h) :: q' =>
      if u32 (t0 + period) <? timestamp
      then expire timestamp period q' (s ∖ {[h]})
      else (q, s)
  end.

(** [DedupImpl::check_packet].  [now] is the number of milliseconds elapsed
    since [_start_time]; it is narrowed to [time_t]. *)
Definition impl_check_packet (d : DedupImpl) (now : Z) (buffer : payload)
    (dedup_period_ms : Z) : bool * DedupImpl :=
  let timestamp := u32 now in
  let '(q, s) := expire timestamp dedup_period_ms
                   (_time_hash_queue d) (_packet_hash_set d) in
  let hash := std_hash buffer in
  if decide (hash ∈ s)
  then (false, mkImpl q s)
  else (true, mkImpl (q ++ [(timestamp, hash)]) ({[hash]} ∪ s)).

(** [Dedup::check_packet] *)
Definition check_packet (d : Dedup) (now : Z) (buffer : payload)
  : PacketStatus * Dedup :=
  if _dedup_period_ms d =? 0 then (NEW_PACKET_OR_TIMED_OUT, d)
  else
    let period_ms := _dedup_period_ms d in
    match _impl d with
    | None => (NEW_PACKET_OR_TIMED_OUT, d)
    | Some i =>
        let '(fresh, i') := impl_check_packet i now buffer period_ms in
        (if fresh then NEW_PACKET_OR_TIMED_OUT else ALREADY_EXISTS_IN_BUFFER,
         mkDedup (_dedup_period_ms d) (Some i'))
    end.

(** A sequence of checks on one cache, oldest first; the statuses come back
    in the same order. *)
Fixpoint run (d : Dedup) (cs : list (Z * payload))
  : list PacketStatus * Dedup :=
  match cs with
  | [] => ([], d)
  | (t, p) :: cs' =>
      let '(st, d1) := check_packet d t p in
      let '(sts, d2) := run d1 cs' in
      (st :: sts, d2)
  end.

(** The checks of a trace that inserted, i.e. that were answered
    [NEW_PACKET_OR_TIMED_OUT], with their times. *)
Fixpoint inserted (cs : list (Z * payload)) (sts : list PacketStatus)
  : list (Z * payload) :=
  match cs, sts with
  | c :: cs', NEW_PACKET_OR_TIMED_OUT :: sts' => c :: inserted cs' sts'
  | _ :: cs', _ :: sts' => inserted cs' sts'
  | _, _ => []
  end.

(** The clock does not go backwards and stays inside [time_t]. *)
Fixpoint clock_ok (lo : Z) (ts : list Z) : Prop :=
  match ts with
  | [] => True
  | t :: ts' => lo ≤ t < 2 ^ 32 ∧ clock_ok t ts'
  end.

(** As [clock_ok], and additionally no [time + period] leaves [time_t]. *)
Fixpoint clock_ok_nowrap (period lo : Z) (ts : list Z) : Prop :=
  match ts with
  | [] => True
  | t :: ts' => lo ≤ t ∧ t + period < 2 ^ 32 ∧ clock_ok_nowrap period t ts'
  end.

(** The window as the specification words it: an identical payload was
    inserted in the half-open interval (t - period, t]. *)
Definition inserted_in_half_open_window (period : Z)
    (ins : list (Z * payload)) (t : Z) (p : payload) : Prop :=
  ∃ t0, (t0, p) ∈ ins ∧ t - period < t0 ≤ t.

(** The window the code implements: a payload with the same hash was
    inserted in the closed interval [t - period, t]. *)
Definition inserted_in_closed_window (period : Z)
    (ins : list (Z * payload)) (t : Z) (p : payload) : Prop :=
  ∃ t0 p0, (t0, p0) ∈ ins ∧ std_hash p0 = std_hash p ∧ t - period ≤ t0 ≤ t.

(** "A check of payload [p] at time [t], after the checks [cs] on a fresh
    cache, is answered [ALREADY_EXISTS_IN_BUFFER] exactly when the window [W]
    holds an insertion of [p]". *)
Definition window_claim
    (W : Z → list (Z * payload) → Z → payload → Prop)
    (period : Z) (cs : list (Z * payload)) (t : Z) (p : payload) : Prop :=
  let r := run (new_Dedup period) cs in
  (check_packet r.2 t p).1 = ALREADY_EXISTS_IN_BUFFER ↔
  W period (inserted cs r.1) t p.

(** "Payload [p] is inserted at [t0], after the checks [cs0] on a fresh
    cache; the checks [cs1] follow, those of [p] (of a payload with its hash)
    no later than [t0 + period]; [p] is checked again at [t], later than
    [t0 + period].  Then, for every period > 0, the checks of [p] in [cs1]
    are answered Duplicate and the one at [t] is answered New".  Nothing is
    assumed of the times themselves. *)
Definition late_check_is_new (period : Z) (cs0 : list (Z * payload))
    (t0 : Z) (p : payload) (cs1 : list (Z * payload)) (t : Z) : Prop :=
  0 < period →
  (∀ c, c ∈ cs1 → std_hash c.2 = std_hash p → c.1 ≤ t0 + period) →
  t0 + period < t →
  let d0 := (run (new_Dedup period) cs0).2 in
  let r1 := check_packet d0 t0 p in
  r1.1 = NEW_PACKET_OR_TIMED_OUT →
  let r2 := run r1.2 cs1 in
  (∀ k c, cs1 !! k = Some c → std_hash c.2 = std_hash p →
          r2.1 !! k = Some ALREADY_EXISTS_IN_BUFFER) ∧
  (check_packet r2.2 t p).1 = NEW_PACKET_OR_TIMED_OUT.

(** ** Invariants of the cache *)

(** The set mirrors the queue, and no hash is queued twice. *)
Definition queue_wf (q : list (Z * Z)) (s : gset Z) : Prop :=
  s = list_to_set (q.*2) ∧ NoDup (q.*2).

(** The queue is in insertion-time order, no entry older than [lo]. *)
Fixpoint sorted_from (lo : Z) (q : list (Z * Z)) : Prop :=
  match q with
  | [] => True
  | e :: q' => lo ≤ e.1 ∧ sorted_from e.1 q'
  end.

Definition hashed (ins : list (Z * payload)) : list (Z * Z) :=
  (λ c, (c.1, std_hash c.2)) <$> ins.

(** After a check at time [T] of a cache whose insertions so far were [ins],
    the queue holds exactly the insertions that time [T] did not expire. *)
Definition impl_inv (period T : Z) (ins : list (Z * payload))
    (d : DedupImpl) : Prop :=
  queue_wf (_time_hash_queue d) (_packet_hash_set d) ∧
  sorted_from 0 (_time_hash_queue d) ∧
  (∀ e, e ∈ _time_hash_queue d ↔ e ∈ hashed ins ∧ T ≤ e.1 + period) ∧
  Forall (λ c, 0 ≤ c.1 ≤ T ∧ c.1 + period < 2 ^ 32) ins ∧
  0 ≤ T.

(** Without any assumption on wrap-around: the queue is well formed and no
    entry is younger than the last check, at time [T]. *)
Definition impl_wf (T : Z) (d : DedupImpl) : Prop :=
  queue_wf (_time_hash_queue d) (_packet_hash_set d) ∧
  sorted_from 0 (_time_hash_queue d) ∧
  Forall (λ e, e.1 ≤ T) (_time_hash_queue d).

(** Hash [h] went in at time [t0]: either its entry is still queued, or it
    has been dropped, which takes a check later than [t0 + period]. *)
Definition tracked (period t0 h T : Z) (d : DedupImpl) : Prop :=
  impl_wf T d ∧
  (((t0, h) ∈ _time_hash_queue d) ∨
   ((h ∉ _packet_hash_set d) ∧ t0 + period < T)).

End WithHash.

(** A concrete hash for running examples (FNV-1a over 64 bits). *)
Definition sample_hash (p : payload) : Z :=
  fold_left (λ h b, (Z.lxor h (Z.of_N (Byte.to_N b)) * 1099511628211)
                      mod 2 ^ 64)
            p 14695981039346656037.

Definition payload_a : payload := [Byte.x01].
Definition payload_b : payload := [Byte.x02].

End DedupModel.

(* ===================================================================== *)
(** * Configuration values (config.h, as used by the sources)             *)
(* ===================================================================== *)

Module Config.

Inductive UdpMode := Client | Server.

Record UartEndpointConfig := mkUartConfig {
  uart_name : string;
  uart_device : string;
  uart_baudrates : list Z;
  uart_flowcontrol : bool;
  uart_group : string
}.

Record UdpEndpointConfig := mkUdpConfig {
  udp_name : string;
  udp_address : string;
  udp_port : Z;
  udp_mode : UdpMode;
  udp_group : string
}.

Record TcpEndpointConfig := mkTcpConfig {
  tcp_name : string;
  tcp_address : string;
  tcp_port_of : Z;
  tcp_retry_timeout : Z;
  tcp_group : string
}.

Record Configuration := mkConfiguration {
  tcp_port : Z;
  report_msg_statistics : bool;
  uart_configs : list UartEndpointConfig;
  udp_configs : list UdpEndpointConfig;
  tcp_configs : list TcpEndpointConfig;
  dedup_period_ms : Z;
  sniffer_sysid : Z
}.

(** [Configuration{}] *)
Definition empty_Configuration : Configuration :=
  mkConfiguration 0 false [] [] [] 0 0.

End Config.

(* ===================================================================== *)
(** * Router instance (src/mainloop.cpp, src/mainloop.h)                   *)
(* ===================================================================== *)

Module MainloopModel.
Import Config.

Definition EAGAIN : Z := 11.
Definition EPIPE : Z := 32.
Definition EBUSY : Z := 16.
Definition EINVAL : Z := 22.
Definition EXIT_FAILURE : Z := 1.

(** [struct buffer]: the payload and the parsed header of the current
    message. *)
Record buffer := mkBuffer {
  buf_data : list byte;
  msg_id : Z;
  target_sysid : Z;
  target_compid : Z;
  src_sysid : Z;
  src_compid : Z
}.

Inductive EndpointType :=
  ENDPOINT_TYPE_UART | ENDPOINT_TYPE_UDP | ENDPOINT_TYPE_TCP | ENDPOINT_TYPE_LOG.

(** [Endpoint::AcceptState] *)
Inductive AcceptState := Accepted | Filtered | Rejected.

Global Instance AcceptState_eq_dec : EqDecision AcceptState.
Proof. solve_decision. Defined.

(** What the router reads and writes of an [Endpoint].  The router's vector
    [g_endpoints] owns the endpoints; an endpoint is identified by its
    position in that vector, and so are its group members. *)
Record Endpoint := mkEndpoint {
  ep_type : EndpointType;
  ep_name : string;
  ep_fd : Z;
  ep_group_name : string;
  ep_group_members : list nat;
  ep_valid : bool;          (* is_valid() *)
  ep_retry : bool           (* TcpEndpoint::should_retry_connection() *)
}.

Definition get_group_name (e : Endpoint) : string := ep_group_name e.

(** Modelled from the spec: [Endpoint::link_group_member] is declared in
    endpoint.h, which is not among the sources; a group links endpoints, and
    peer links are kept as a list of the linked endpoints. *)
Definition link_group_member (e : Endpoint) (other : nat) : Endpoint :=
  mkEndpoint (ep_type e) (ep_name e) (ep_fd e) (ep_group_name e)
             (ep_group_members e ++ [other]) (ep_valid e) (ep_retry e).

(** [struct Timeout], as far as the loop handles it. *)
Record Timeout := mkTimeout {
  timeout_fd : Z;
  remove_me : bool
}.

(** [class Mainloop] *)
Record Mainloop := mkMainloop {
  epollfd : Z;
  should_process_tcp_hangups : bool;
  _should_exit : bool;
  g_endpoints : list Endpoint;
  g_tcp_fd : Z;
  _timeouts : list Timeout;
  _msg_dedup : DedupModel.Dedup;
  msg_to_unknown : Z;
  _retcode : Z;
  _tracked_fds : gmap Z string
}.

(** The state [Mainloop::create_extension_instance] leaves a fresh instance
    in. *)
Definition new_Mainloop : Mainloop :=
  mkMainloop (-1) false false [] (-1) [] (DedupModel.new_Dedup 0) 0 (-1) ∅.

(** The static [Mainloop Mainloop::_instance{}] as the program starts with
    it: the in-class initialisers, and zero for [_retcode], which has none
    and which only [open] and [teardown] set. *)
Definition _instance : Mainloop :=
  mkMainloop (-1) false false [] (-1) [] (DedupModel.new_Dedup 0) 0 0 ∅.

(** [Mainloop::request_exit] *)
Definition request_exit (retcode : Z) (m : Mainloop) : Mainloop :=
  mkMainloop (epollfd m) (should_process_tcp_hangups m) true (g_endpoints m)
             (g_tcp_fd m) (_timeouts m) (_msg_dedup m) (msg_to_unknown m)
             retcode (_tracked_fds m).

(** [Mainloop::track_fd] *)
Definition track_fd (fd : Z) (description : string) (m : Mainloop) : Mainloop :=
  if fd <? 0 then m
  else mkMainloop (epollfd m) (should_process_tcp_hangups m) (_should_exit m)
         (g_endpoints m) (g_tcp_fd m) (_timeouts m) (_msg_dedup m)
         (msg_to_unknown m) (_retcode m) (<[fd := description]> (_tracked_fds m)).

Definition set_endpoints (eps : list Endpoint) (m : Mainloop) : Mainloop :=
  mkMainloop (epollfd m) (should_process_tcp_hangups m) (_should_exit m)
         eps (g_tcp_fd m) (_timeouts m) (_msg_dedup m)
         (msg_to_unknown m) (_retcode m) (_tracked_fds m).

Definition set_hangups (b : bool) (m : Mainloop) : Mainloop :=
  mkMainloop (epollfd m) b (_should_exit m)
         (g_endpoints m) (g_tcp_fd m) (_timeouts m) (_msg_dedup m)
         (msg_to_unknown m) (_retcode m) (_tracked_fds m).

Definition set_msg_to_unknown (n : Z) (m : Mainloop) : Mainloop :=
  mkMainloop (epollfd m) (should_process_tcp_hangups m) (_should_exit m)
         (g_endpoints m) (g_tcp_fd m) (_timeouts m) (_msg_dedup m)
         n (_retcode m) (_tracked_fds m).

Definition set_timeouts (ts : list Timeout) (m : Mainloop) : Mainloop :=
  mkMainloop (epollfd m) (should_process_tcp_hangups m) (_should_exit m)
         (g_endpoints m) (g_tcp_fd m) ts (_msg_dedup m)
         (msg_to_unknown m) (_retcode m) (_tracked_fds m).

(** ** The process: the static singleton and the heap instances *)

(** Addresses of [Mainloop] objects.  [instance_addr] is [&Mainloop::_instance],
    the static singleton of the primary router. *)
Definition addr := nat.
Definition instance_addr : addr := 0%nat.

Definition heap := gmap addr Mainloop.

(** [this->request_exit(retcode)] in a process whose instances are [h]. *)
Definition request_exit_at (this : addr) (retcode : Z) (h : gmap addr Mainloop)
  : gmap addr Mainloop :=
  alter (request_exit retcode) this h.

(** [Mainloop::create_extension_instance]: [new Mainloop()] yields an address
    no live object has. *)
Definition create_extension_instance (h : gmap addr Mainloop)
  : addr * gmap addr Mainloop :=
  let a := fresh (dom h) in (a, <[a := new_Mainloop]> h).

Definition set_tcp_fd (fd : Z) (m : Mainloop) : Mainloop :=
  mkMainloop (epollfd m) (should_process_tcp_hangups m) (_should_exit m)
         (g_endpoints m) fd (_timeouts m) (_msg_dedup m)
         (msg_to_unknown m) (_retcode m) (_tracked_fds m).

Definition set_dedup (d : DedupModel.Dedup) (m : Mainloop) : Mainloop :=
  mkMainloop (epollfd m) (should_process_tcp_hangups m) (_should_exit m)
         (g_endpoints m) (g_tcp_fd m) (_timeouts m) d
         (msg_to_unknown m) (_retcode m) (_tracked_fds m).

(** [Mainloop::untrack_fd] *)
Definition untrack_fd (fd : Z) (m : Mainloop) : Mainloop :=
  if fd <? 0 then m
  else mkMainloop (epollfd m) (should_process_tcp_hangups m) (_should_exit m)
         (g_endpoints m) (g_tcp_fd m) (_timeouts m) (_msg_dedup m)
         (msg_to_unknown m) (_retcode m) (delete fd (_tracked_fds m)).

(** ** Routing *)

Definition EPOLLIN : Z := 1.
Definition EPOLLOUT : Z := 4.

(** What the router asks of the outside while routing: a write submitted to
    the endpoint at a position of [g_endpoints], or a change of the events an
    fd is polled for. *)
Inductive action :=
  | WriteMsg (i : nat)
  | ModFd (fd : Z) (events : Z).

Definition written (acts : list action) : list nat :=
  omap (λ a, match a with WriteMsg i => Some i | ModFd _ _ => None end) acts.

Record route_state := mkRouteState {
  rs_unknown : bool;
  rs_hangups : bool;
  rs_log : list action
}.

Section Routing.

(** [Endpoint::accept_msg] and [Endpoint::write_msg] are virtual functions
    of the endpoint classes (endpoint.cpp, not among the sources); the router
    is parametric in them. *)
Variable accept_msg : Endpoint → buffer → AcceptState.
Variable endpoint_write_msg : Endpoint → buffer → Z.

(** [Mainloop::write_msg] *)
Definition write_msg (i : nat) (e : Endpoint) (buf : buffer)
  : Z * list action :=
  let r := endpoint_write_msg e buf in
  (r, WriteMsg i ::
      (if r =? - EAGAIN then [ModFd (ep_fd e) (Z.lor EPOLLIN EPOLLOUT)]
       else [])).

(** The body of the [for] loop of [Mainloop::route_msg], for the endpoint
    [e] at position [i]. *)
Definition route_one (buf : buffer) (i : nat) (e : Endpoint)
    (st : route_state) : route_state :=
  match accept_msg e buf with
  | Accepted =>
      let '(r, acts) := write_msg i e buf in
      mkRouteState false
        (if r =? - EPIPE then true else rs_hangups st)
        (rs_log st ++ acts)
  | Filtered => mkRouteState false (rs_hangups st) (rs_log st)
  | Rejected => st
  end.

Fixpoint route_loop (buf : buffer) (i : nat) (eps : list Endpoint)
    (st : route_state) : route_state :=
  match eps with
  | [] => st
  | e :: eps' => route_loop buf (S i) eps' (route_one buf i e st)
  end.

(** [Mainloop::route_msg] *)
Definition route_msg (m : Mainloop) (buf : buffer) : Mainloop * list action :=
  let st := route_loop buf 0 (g_endpoints m)
              (mkRouteState true (should_process_tcp_hangups m) []) in
  let m1 := set_hangups (rs_hangups st) m in
  let m2 := if rs_unknown st
            then set_msg_to_unknown (u32 (msg_to_unknown m1 + 1)) m1
            else m1 in
  (m2, rs_log st).

(** The positions, from [i] on, of the endpoints that accept [buf]. *)
Fixpoint accepting_from (buf : buffer) (i : nat) (eps : list Endpoint)
  : list nat :=
  match eps with
  | [] => []
  | e :: eps' =>
      (if decide (accept_msg e buf = Accepted) then [i] else [])
      ++ accepting_from buf (S i) eps'
  end.

(** The counter as the specification words it: plus one exactly when no
    endpoint accepted, whatever was filtered. *)
Definition unknown_counts_not_accepted (m : Mainloop) (buf : buffer) : Prop :=
  msg_to_unknown (route_msg m buf).1 =
  if forallb (λ e, bool_decide (accept_msg e buf ≠ Accepted)) (g_endpoints m)
  then msg_to_unknown m + 1 else msg_to_unknown m.

(** The counter as the code keeps it: plus one, in 32 bits, exactly when
    every endpoint rejected. *)
Definition unknown_counts_all_rejected (m : Mainloop) (buf : buffer) : Prop :=
  msg_to_unknown (route_msg m buf).1 =
  if forallb (λ e, bool_decide (accept_msg e buf = Rejected)) (g_endpoints m)
  then u32 (msg_to_unknown m + 1) else msg_to_unknown m.

(** ** The event loop *)

(** One readiness event, with what the pollable behind it does when called
    (the pollables are endpoints and timeouts; their code is not among the
    sources). *)
Record event := mkEvent {
  ev_listener : bool;            (* data.ptr == &g_tcp_fd *)
  ev_in : bool;                  (* EPOLLIN *)
  ev_out : bool;                 (* EPOLLOUT *)
  ev_err : bool;                 (* EPOLLERR *)
  ev_accepted : option Endpoint; (* result of TcpEndpoint::accept *)
  ev_pollable : option nat;      (* the endpoint polled, if it is one *)
  ev_frames : list buffer;       (* frames handle_read hands to route_msg *)
  ev_rd : Z;                     (* result of handle_read *)
  ev_valid : bool;               (* is_valid() after the read *)
  ev_critical : bool;            (* is_critical() *)
  ev_uart : bool                 (* a UartEndpoint *)
}.

(** The endpoint at position [i] reports [is_valid() == b] from now on. *)
Definition set_valid (i : option nat) (b : bool) (m : Mainloop) : Mainloop :=
  match i with
  | Some i =>
      set_endpoints
        (alter (λ e, mkEndpoint (ep_type e) (ep_name e) (ep_fd e)
                       (ep_group_name e) (ep_group_members e) b (ep_retry e))
               i (g_endpoints m)) m
  | None => m
  end.

(** What one [epoll_wait] returns. *)
Inductive epoll_result :=
  | WaitEINTR                       (* r < 0, errno == EINTR *)
  | WaitFailed                      (* r < 0, another errno *)
  | WaitTimeout                     (* r == 0 *)
  | WaitEvents (evs : list event).  (* r > 0 *)

(** [Mainloop::handle_tcp_connection] *)
Definition handle_tcp_connection (accepted : option Endpoint) (m : Mainloop)
  : Mainloop :=
  match accepted with
  | Some tcp => set_endpoints (g_endpoints m ++ [tcp]) m
  | None => m
  end.

(** The body of [for (i = 0; i < r; i++)] in [Mainloop::loop]. *)
Definition handle_event (m : Mainloop) (ev : event) : Mainloop :=
  if ev_listener ev then handle_tcp_connection (ev_accepted ev) m
  else
    let m1 :=
      if ev_in ev then
        let m' := foldl (λ acc buf, (route_msg acc buf).1) m (ev_frames ev) in
        let m' := set_valid (ev_pollable ev) (ev_valid ev) m' in
        if (ev_rd ev <? 0) && negb (ev_valid ev)
        then set_hangups true m' else m'
      else m in
    (* EPOLLOUT only changes the polled events of the fd *)
    if ev_err ev then
      if ev_critical ev then request_exit EXIT_FAILURE m1
      else if ev_uart ev then m1
      else set_hangups true m1
    else m1.

(** [Mainloop::process_tcp_hangups] *)
Definition process_tcp_hangups (m : Mainloop) : Mainloop :=
  let keep (e : Endpoint) : bool :=
    negb (negb (ep_valid e) &&
          match ep_type e with
          | ENDPOINT_TYPE_TCP => negb (ep_retry e)
          | _ => false
          end) in
  set_hangups false (set_endpoints (filter (λ e, keep e = true) (g_endpoints m)) m).

(** [Mainloop::_del_timeouts] *)
Definition _del_timeouts (m : Mainloop) : Mainloop :=
  let gone := filter (λ t, remove_me t = true) (_timeouts m) in
  let kept := filter (λ t, remove_me t = false) (_timeouts m) in
  foldl (λ acc t, untrack_fd (timeout_fd t) acc) (set_timeouts kept m) gone.

Definition end_of_iteration (m : Mainloop) : Mainloop :=
  _del_timeouts
    (if should_process_tcp_hangups m then process_tcp_hangups m else m).

(** The [while (!_should_exit)] loop of [Mainloop::loop], run against what
    the successive [epoll_wait] calls return.  [None]: the calls listed did
    not bring the loop to its exit. *)
Fixpoint loop_while (script : list epoll_result) (m : Mainloop)
  : option Mainloop :=
  if _should_exit m then Some m
  else
    match script with
    | [] => None
    | r :: script' =>
        match r with
        | WaitEINTR | WaitTimeout => loop_while script' m
        | WaitFailed => loop_while script' (end_of_iteration m)
        | WaitEvents evs =>
            loop_while script' (end_of_iteration (foldl handle_event m evs))
        end
    end.

(** [Mainloop::add_timeout]; [fd] is what [timerfd_create] returned. *)
Definition add_timeout (fd : Z) (m : Mainloop) : Mainloop :=
  if fd <? 0 then m
  else track_fd fd "TIMEOUT"
         (set_timeouts (mkTimeout fd false :: _timeouts m) m).

(** [Mainloop::loop]: the value returned and the instance as it is left. *)
Definition loop (timer_fd : Z) (script : list epoll_result) (m : Mainloop)
  : option (Z * Mainloop) :=
  if epollfd m <? 0 then Some (- EINVAL, m)
  else
    match loop_while script (add_timeout timer_fd m) with
    | None => None
    | Some m' => Some (_retcode m', set_timeouts [] (set_endpoints [] m'))
    end.

End Routing.

(** ** Populating the router: [Mainloop::add_endpoints] *)

(** The group-linking pass, for the endpoint [e] at position [i]:
    [for (auto other : g_endpoints)
       if (other != e && e->get_group_name() == e->get_group_name())
         e->link_group_member(other);] *)
Definition link_one (n : nat) (i : nat) (e : Endpoint) : Endpoint :=
  if String.eqb (get_group_name e) "" then e
  else
    foldl (λ e' other,
             if negb (Nat.eqb other i) &&
                String.eqb (get_group_name e') (get_group_name e')
             then link_group_member e' other else e')
          e (seq 0 n).

Definition link_groups (eps : list Endpoint) : list Endpoint :=
  imap (link_one (length eps)) eps.

(** [e] is linked to [o]: [o] is among the group members of [e]. *)
Definition linked (eps : list Endpoint) (e o : nat) : Prop :=
  ∃ ep, eps !! e = Some ep ∧ o ∈ ep_group_members ep.

(** Modelled from the spec: [TcpEndpoint::should_retry_connection] is in
    endpoint.cpp, which is not among the sources; a retry timeout of 0 means
    "do not retry, let the router prune me". *)
Definition tcp_should_retry (c : TcpEndpointConfig) : bool :=
  negb (tcp_retry_timeout c =? 0).

Section AddEndpoints.

(** [UartEndpoint::setup], [UdpEndpoint::setup] and [TcpEndpoint::setup]:
    [None] when setup fails, otherwise the fd the endpoint is left with
    (negative when it is kept for reconnection).  [tcp_open] is what opening
    the TCP server returns. *)
Variable uart_setup : UartEndpointConfig → option Z.
Variable udp_setup : UdpEndpointConfig → option Z.
Variable tcp_setup : TcpEndpointConfig → option Z.
Variable tcp_open : Z → Z.

Fixpoint add_all {C : Type} (setup : C → option Z)
    (mk : C → Z → Endpoint) (description : C → string)
    (confs : list C) (m : Mainloop) : bool * Mainloop :=
  match confs with
  | [] => (true, m)
  | conf :: rest =>
      match setup conf with
      | None => (false, m)
      | Some fd =>
          let m1 := set_endpoints (g_endpoints m ++ [mk conf fd]) m in
          let m2 := if 0 <=? fd then track_fd fd (description conf) m1
                    else m1 in
          add_all setup mk description rest m2
      end
  end.

(** [Mainloop::add_endpoints].  The log endpoints, created after the group
    pass, and the statistics timeout are left out. *)
Definition add_endpoints (m : Mainloop) (config : Configuration)
  : bool * Mainloop :=
  let '(ok1, m1) :=
    add_all uart_setup
      (λ c fd, mkEndpoint ENDPOINT_TYPE_UART (uart_name c) fd (uart_group c)
                          [] true false)
      (λ c, "UART:" +:+ uart_name c) (uart_configs config) m in
  if negb ok1 then (false, m1) else
  let '(ok2, m2) :=
    add_all udp_setup
      (λ c fd, mkEndpoint ENDPOINT_TYPE_UDP (udp_name c) fd (udp_group c)
                          [] true false)
      (λ c, "UDP:" +:+ udp_name c) (udp_configs config) m1 in
  if negb ok2 then (false, m2) else
  let '(ok3, m3) :=
    add_all tcp_setup
      (λ c fd, mkEndpoint ENDPOINT_TYPE_TCP (tcp_name c) fd (tcp_group c)
                          [] true (tcp_should_retry c))
      (λ c, "TCP:" +:+ tcp_name c) (tcp_configs config) m2 in
  if negb ok3 then (false, m3) else
  let m4 := set_endpoints (link_groups (g_endpoints m3)) m3 in
  let m5 := if tcp_port config =? 0 then m4
            else let fd := tcp_open (tcp_port config) in
                 track_fd fd "TCP_SERVER" (set_tcp_fd fd m4) in
  let m6 := if 0 <? dedup_period_ms config
            then set_dedup (DedupModel.set_dedup_period (_msg_dedup m5)
                              (dedup_period_ms config)) m5
            else m5 in
  (true, m6).

End AddEndpoints.

End MainloopModel.

(* ===================================================================== *)
(** * Thread manager (ThreadManager.hpp, not among the sources)            *)
(* ===================================================================== *)

Module ThreadMgr.

Inductive ThreadState := Created | Running | Paused | Stopping | Stopped | Error.

Record ThreadInfo := mkThreadInfo {
  th_state : ThreadState;
  th_alive : bool;
  th_stop_requested : bool;
  th_attachment : option string
}.

(** Modelled from the spec: the thread manager supervises worker threads
    under stable numeric ids; every operation on an id it does not know
    signals a not-found error ([None] below stands for the exception). *)
Record ThreadManager := mkThreadManager {
  threads : gmap nat ThreadInfo;
  next_id : nat
}.

Definition empty_ThreadManager : ThreadManager := mkThreadManager ∅ 1.

(** Modelled from the spec: [create_thread] spawns a thread and returns a
    stable numeric id. *)
Definition createThread (tm : ThreadManager) : nat * ThreadManager :=
  (next_id tm,
   mkThreadManager
     (<[next_id tm := mkThreadInfo Running true false None]> (threads tm))
     (S (next_id tm))).

(** Modelled from the spec: [register_thread] associates a thread with an
    attachment string. *)
Definition registerThread (id : nat) (attachment : string)
    (tm : ThreadManager) : ThreadManager :=
  mkThreadManager
    (alter (λ t, mkThreadInfo (th_state t) (th_alive t) (th_stop_requested t)
                   (Some attachment)) id (threads tm))
    (next_id tm).

(** Modelled from the spec: [get_state] and [is_alive]. *)
Definition getThreadState (id : nat) (tm : ThreadManager)
  : option ThreadState := th_state <$> threads tm !! id.

Definition isThreadAlive (id : nat) (tm : ThreadManager) : option bool :=
  th_alive <$> threads tm !! id.

(** Modelled from the spec: [stop_thread] is cooperative, it sets a
    per-thread stop flag that the worker polls. *)
Definition stopThread (id : nat) (tm : ThreadManager)
  : option ThreadManager :=
  match threads tm !! id with
  | None => None
  | Some t =>
      Some (mkThreadManager
              (<[id := mkThreadInfo Stopping (th_alive t) true
                         (th_attachment t)]> (threads tm))
              (next_id tm))
  end.

(** Modelled from the spec: [pause_thread] and [resume_thread] set and clear
    a cooperative suspension flag. *)
Definition pauseThread (id : nat) (tm : ThreadManager)
  : option ThreadManager :=
  match threads tm !! id with
  | None => None
  | Some t =>
      Some (mkThreadManager
              (<[id := mkThreadInfo Paused (th_alive t) (th_stop_requested t)
                         (th_attachment t)]> (threads tm))
              (next_id tm))
  end.

Definition resumeThread (id : nat) (tm : ThreadManager)
  : option ThreadManager :=
  match threads tm !! id with
  | None => None
  | Some t =>
      Some (mkThreadManager
              (<[id := mkThreadInfo Running (th_alive t) (th_stop_requested t)
                         (th_attachment t)]> (threads tm))
              (next_id tm))
  end.

(** Modelled from the spec: [join_thread] is a bounded join, true iff the
    thread terminated within the deadline; [terminates id ms] says whether
    thread [id] does. *)
Definition joinThread (terminates : nat → Z → bool) (id : nat) (ms : Z)
    (tm : ThreadManager) : option (bool * ThreadManager) :=
  match threads tm !! id with
  | None => None
  | Some t =>
      if negb (th_alive t) || terminates id ms
      then Some (true,
                 mkThreadManager
                   (<[id := mkThreadInfo Stopped false (th_stop_requested t)
                              (th_attachment t)]> (threads tm))
                   (next_id tm))
      else Some (false, tm)
  end.

(** Modelled from the spec: [unregister_thread] removes the bookkeeping of
    an attachment; an attachment that is not registered is an error. *)
Definition unregisterThread (attachment : string) (tm : ThreadManager)
  : option ThreadManager :=
  let owned := filter (λ kv, th_attachment kv.2 = Some attachment)
                      (threads tm) in
  if decide (owned = ∅) then None
  else Some (mkThreadManager
               (filter (λ kv, th_attachment kv.2 ≠ Some attachment)
                       (threads tm))
               (next_id tm)).

End ThreadMgr.

(* ===================================================================== *)
(** * Controller (src/rpc-mechanisms/RpcController.cpp)                    *)
(* ===================================================================== *)

Module RpcModel.
Import MainloopModel.

Inductive ThreadOperation := START | STOP | PAUSE | RESUME | RESTART | STATUS.

Inductive ThreadTarget := MAINLOOP | HTTP_SERVER | STATISTICS | ALL.

Inductive OperationStatus :=
  SUCCESS | FAILED | THREAD_NOT_FOUND | INVALID_OPERATION | ALREADY_IN_STATE
  | TIMEOUT.

Global Instance OperationStatus_eq_dec : EqDecision OperationStatus.
Proof. solve_decision. Defined.

Record ThreadStateInfo := mkThreadStateInfo {
  threadName : string;
  threadId : nat;
  state : ThreadMgr.ThreadState;
  isAlive : bool;
  attachmentId : string
}.

(** [struct RpcResponse]; the message text is left out. *)
Record RpcResponse := mkRpcResponse {
  status : OperationStatus;
  threadStates : gmap string ThreadStateInfo
}.

(** The restart callbacks the program registers: the one of main.cpp, for
    the primary router thread. *)
Inductive callback := MainloopRestart.

(** What the controller asks of the thread manager and of the router, in
    the order asked. *)
Inductive call :=
  | StopThread (id : nat)
  | JoinThread (id : nat) (ms : Z)
  | PauseThread (id : nat)
  | ResumeThread (id : nat)
  | UnregisterThread (attachment : string)
  | CreateThread (id : nat)
  | RegisterThread (id : nat) (attachment : string)
  | RequestExit (this : addr) (retcode : Z)
  | RestartCallback (name : string).

Global Instance call_eq_dec : EqDecision call.
Proof. solve_decision. Defined.

(** The controller's three maps, the thread manager it refers to, the router
    instances of the process, and the calls made so far. *)
Record World := mkWorld {
  threadRegistry_ : gmap string nat;
  threadAttachments_ : gmap string string;
  restartCallbacks_ : gmap string callback;
  threadManager_ : ThreadMgr.ThreadManager;
  mainloops : gmap addr Mainloop;
  calls : list call
}.

Definition log (c : call) (w : World) : World :=
  mkWorld (threadRegistry_ w) (threadAttachments_ w) (restartCallbacks_ w)
          (threadManager_ w) (mainloops w) (calls w ++ [c]).

Definition set_tm (tm : ThreadMgr.ThreadManager) (w : World) : World :=
  mkWorld (threadRegistry_ w) (threadAttachments_ w) (restartCallbacks_ w)
          tm (mainloops w) (calls w).

(** A thread-manager operation that may throw: [false] for the exception. *)
Definition tm_try (c : call)
    (op : ThreadMgr.ThreadManager → option ThreadMgr.ThreadManager)
    (w : World) : bool * World :=
  let w1 := log c w in
  match op (threadManager_ w1) with
  | Some tm => (true, set_tm tm w1)
  | None => (false, w1)
  end.

(** [RpcController::registerThread] *)
Definition registerThread (name : string) (id : nat) (attachment : string)
    (w : World) : World :=
  log (RegisterThread id attachment)
    (mkWorld (<[name := id]> (threadRegistry_ w))
             (<[name := attachment]> (threadAttachments_ w))
             (restartCallbacks_ w)
             (ThreadMgr.registerThread id attachment (threadManager_ w))
             (mainloops w) (calls w)).

(** [RpcController::registerRestartCallback] *)
Definition registerRestartCallback (name : string) (cb : callback)
    (w : World) : World :=
  mkWorld (threadRegistry_ w) (threadAttachments_ w)
          (<[name := cb]> (restartCallbacks_ w))
          (threadManager_ w) (mainloops w) (calls w).

(** The callback main.cpp registers for "mainloop": create the thread and
    register it with the controller under the attachment "mainloop". *)
Definition mainloop_restart (w : World) : nat * World :=
  let '(newThreadId, tm) := ThreadMgr.createThread (threadManager_ w) in
  let w1 := log (CreateThread newThreadId) (set_tm tm w) in
  (newThreadId, registerThread "mainloop" newThreadId "mainloop" w1).

Definition run_callback (name : string) (cb : callback) (w : World)
  : nat * World :=
  match cb with
  | MainloopRestart => mainloop_restart (log (RestartCallback name) w)
  end.

(** [RpcController::getThreadStateInfo] *)
Definition getThreadStateInfo (name : string) (w : World) : ThreadStateInfo :=
  match threadRegistry_ w !! name with
  | None => mkThreadStateInfo name 0 ThreadMgr.Created false ""
  | Some id =>
      let '(st, alive) :=
        match ThreadMgr.getThreadState id (threadManager_ w),
              ThreadMgr.isThreadAlive id (threadManager_ w) with
        | Some st, Some alive => (st, alive)
        | _, _ => (ThreadMgr.Error, false)
        end in
      mkThreadStateInfo name id st alive
        (default "" (threadAttachments_ w !! name))
  end.

(** [RpcController::getThreadStatus] *)
Definition getThreadStatus (name : string) (w : World) : RpcResponse :=
  match threadRegistry_ w !! name with
  | None => mkRpcResponse THREAD_NOT_FOUND ∅
  | Some _ => mkRpcResponse SUCCESS {[ name := getThreadStateInfo name w ]}
  end.

Section Controller.

(** Whether a thread terminates within a deadline, and the calling thread's
    [_thread_local_instance] ([None] on every thread but an extension's). *)
Variable terminates : nat → Z → bool.
Variable thread_local_instance : option addr.

(** [Mainloop::instance()] as the calling thread resolves it. *)
Definition instance : addr :=
  match thread_local_instance with
  | Some a => a
  | None => instance_addr
  end.

Definition call_request_exit (retcode : Z) (w : World) : World :=
  let w1 := log (RequestExit instance retcode) w in
  mkWorld (threadRegistry_ w1) (threadAttachments_ w1) (restartCallbacks_ w1)
          (threadManager_ w1)
          (request_exit_at instance retcode (mainloops w1)) (calls w1).

Definition call_joinThread (id : nat) (ms : Z) (w : World)
  : option bool * World :=
  let w1 := log (JoinThread id ms) w in
  match ThreadMgr.joinThread terminates id ms (threadManager_ w1) with
  | Some (b, tm) => (Some b, set_tm tm w1)
  | None => (None, w1)
  end.

(** The loop of the branch [threadName == "ALL"] of STOP. *)
Fixpoint stop_registered (reg : list (string * nat)) (w : World)
  : bool * World :=
  match reg with
  | [] => (true, w)
  | (name, currentThreadId) :: rest =>
      if String.eqb name "mainloop"
      then stop_registered rest (call_request_exit 0 w)
      else if negb (String.eqb name "http_server")
      then
        let '(ok, w1) := tm_try (StopThread currentThreadId)
                           (ThreadMgr.stopThread currentThreadId) w in
        if ok then stop_registered rest w1 else (false, w1)
      else stop_registered rest w
  end.

(** After the [switch]: the thread's state is added to a response that is
    SUCCESS or ALREADY_IN_STATE. *)
Definition with_state (name : string) (st : OperationStatus) (w : World)
  : RpcResponse * World :=
  (mkRpcResponse st
     (if bool_decide (st = SUCCESS ∨ st = ALREADY_IN_STATE)
      then {[ name := getThreadStateInfo name w ]} else ∅), w).

(** The [catch (ThreadManagerException)] of the [try] around the [switch]. *)
Definition failed (w : World) : RpcResponse * World :=
  (mkRpcResponse FAILED ∅, w).

(** [RpcController::executeOperationOnThread] *)
Definition executeOperationOnThread (name : string) (operation : ThreadOperation)
    (w : World) : RpcResponse * World :=
  match threadRegistry_ w !! name with
  | None =>
      match operation, restartCallbacks_ w !! name with
      | START, Some restartCallback =>
          let '(_, w1) := run_callback name restartCallback w in
          (mkRpcResponse SUCCESS {[ name := getThreadStateInfo name w1 ]}, w1)
      | _, _ => (mkRpcResponse THREAD_NOT_FOUND ∅, w)
      end
  | Some threadId =>
      let attachmentId := default "" (threadAttachments_ w !! name) in
      match operation with
      | START =>
          match ThreadMgr.isThreadAlive threadId (threadManager_ w) with
          | None => failed w
          | Some true => with_state name ALREADY_IN_STATE w
          | Some false =>
              match restartCallbacks_ w !! name with
              | None => with_state name FAILED w
              | Some restartCallback =>
                  (* clean up the old thread; exceptions are swallowed *)
                  let '(ok, w1) := tm_try (StopThread threadId)
                                     (ThreadMgr.stopThread threadId) w in
                  let w2 := if ok then (call_joinThread threadId 500 w1).2
                            else w1 in
                  let w3 := if String.eqb attachmentId "" then w2
                            else (tm_try (UnregisterThread attachmentId)
                                    (ThreadMgr.unregisterThread attachmentId)
                                    w2).2 in
                  let w4 := mkWorld (delete name (threadRegistry_ w3))
                                    (delete name (threadAttachments_ w3))
                                    (restartCallbacks_ w3) (threadManager_ w3)
                                    (mainloops w3) (calls w3) in
                  let '(_, w5) := run_callback name restartCallback w4 in
                  with_state name SUCCESS w5
              end
          end
      | STOP =>
          if String.eqb name "mainloop"
          then with_state name SUCCESS (call_request_exit 0 w)
          else if String.eqb name "ALL"
          then
            let '(ok, w1) :=
              stop_registered (map_items (threadRegistry_ w)) w in
            if ok then with_state name SUCCESS w1 else failed w1
          else
            let '(ok, w1) := tm_try (StopThread threadId)
                               (ThreadMgr.stopThread threadId) w in
            if ok then with_state name SUCCESS w1 else failed w1
      | PAUSE =>
          let '(ok, w1) := tm_try (PauseThread threadId)
                             (ThreadMgr.pauseThread threadId) w in
          if ok then with_state name SUCCESS w1 else failed w1
      | RESUME =>
          let '(ok, w1) := tm_try (ResumeThread threadId)
                             (ThreadMgr.resumeThread threadId) w in
          if ok then with_state name SUCCESS w1 else failed w1
      | RESTART =>
          let '(ok, w1) := tm_try (StopThread threadId)
                             (ThreadMgr.stopThread threadId) w in
          if ok then
            match call_joinThread threadId 5000 w1 with
            | (Some true, w2) => with_state name SUCCESS w2
            | (Some false, w2) => with_state name TIMEOUT w2
            | (None, w2) => failed w2
            end
          else failed w1
      | STATUS => (getThreadStatus name w, w)
      end
  end.

(** [RpcController::getThreadNamesForTarget] *)
Definition names_for (name : string) (w : World) : list string :=
  if bool_decide (is_Some (threadRegistry_ w !! name)) then [name]
  else if bool_decide (is_Some (restartCallbacks_ w !! name)) then [name]
  else [].

Definition getThreadNamesForTarget (target : ThreadTarget) (w : World)
  : list string :=
  match target with
  | MAINLOOP => names_for "mainloop" w
  | HTTP_SERVER => names_for "http_server" w
  | STATISTICS => names_for "statistics" w
  | ALL =>
      (map_items (threadRegistry_ w)).*1 ++
      filter (λ name, threadRegistry_ w !! name = None)
             (map_items (restartCallbacks_ w)).*1
  end.

(** The loop of [RpcController::executeRequest] over the target threads. *)
Fixpoint execute_each (names : list string) (operation : ThreadOperation)
    (allSuccess : bool) (states : gmap string ThreadStateInfo) (w : World)
  : bool * gmap string ThreadStateInfo * World :=
  match names with
  | [] => (allSuccess, states, w)
  | name :: rest =>
      let '(threadResponse, w1) := executeOperationOnThread name operation w in
      execute_each rest operation
        (allSuccess && bool_decide (status threadResponse = SUCCESS))
        (threadStates threadResponse ∪ states) w1
  end.

(** [RpcController::executeRequest] *)
Definition executeRequest (operation : ThreadOperation) (target : ThreadTarget)
    (w : World) : RpcResponse * World :=
  let targetThreads := getThreadNamesForTarget target w in
  match targetThreads with
  | [] => (mkRpcResponse THREAD_NOT_FOUND ∅, w)
  | _ =>
      let '(allSuccess, states, w1) :=
        execute_each targetThreads operation true ∅ w in
      (mkRpcResponse (if allSuccess then SUCCESS else FAILED) states, w1)
  end.

(** [RpcController::startThread] and [RpcController::stopThread] *)
Definition startThread (target : ThreadTarget) (w : World)
  : RpcResponse * World := executeRequest START target w.

Definition stopThread (target : ThreadTarget) (w : World)
  : RpcResponse * World := executeRequest STOP target w.

End Controller.

Definition empty_World : World :=
  mkWorld ∅ ∅ ∅ ThreadMgr.empty_ThreadManager ∅ [].

(** "A stop request targeting mainloop, whose restart callback is registered
    but which was never started, returns ThreadNotFound". *)
Definition stop_unstarted_is_not_found (w : World) : Prop :=
  status (stopThread (λ _ _, true) None MAINLOOP w).1 = THREAD_NOT_FOUND.

(** The program after main.cpp registered the restart callback, before any
    start request. *)
Definition world_after_main : World :=
  registerRestartCallback "mainloop" MainloopRestart
    (mkWorld ∅ ∅ ∅ ThreadMgr.empty_ThreadManager
             {[ instance_addr := _instance ]} []).

(** The program with the HTTP server thread and the primary router thread
    both running and registered. *)
Definition world_running : World :=
  let '(id, tm) := ThreadMgr.createThread ThreadMgr.empty_ThreadManager in
  let w := registerThread "http_server" id "http_server"
             (set_tm tm world_after_main) in
  (mainloop_restart w).2.

End RpcModel.

(* ===================================================================== *)
(** * Extension manager (src/mavlink-extensions/ExtensionManager.cpp)      *)
(* ===================================================================== *)

Module ExtensionModel.
Import Config MainloopModel.

Inductive ExtensionType := INTERNAL | TCP | UDP.

Record ExtensionConfig := mkExtensionConfig {
  name : string;
  type : ExtensionType;
  address : string;
  port : Z;
  assigned_extension_point : string;
  extension_thread_config : Configuration
}.

Record ExtensionInfo := mkExtensionInfo {
  info_name : string;
  threadId : nat;
  config : ExtensionConfig;
  isRunning : bool;
  mainloopInstance : option addr
}.

(** What the manager asks of the thread manager, of a router instance, of
    the clock and of the file system, in the order asked. *)
Inductive call :=
  | Sleep (ms : Z)
  | RequestExit (this : addr) (retcode : Z)
  | StopThread (id : nat)
  | JoinThread (id : nat) (ms : Z)
  | UnregisterThread (attachment : string)
  | CreateThread (id : nat)
  | RegisterThread (id : nat) (attachment : string)
  | SaveConfig (path : string)
  | RemoveFile (path : string).

(** [class ExtensionManager], with the thread manager it refers to, the
    router instances of the process, the configuration files written, the
    paths the file system does not let the process open for writing, and the
    calls made so far. *)
Record Manager := mkManager {
  extensions_ : gmap string ExtensionInfo;
  extensionConfDir_ : string;
  globalConfig_ : option Configuration;
  threadManager_ : ThreadMgr.ThreadManager;
  mainloops : gmap addr Mainloop;
  saved : gmap string ExtensionConfig;
  unwritable : gset string;
  calls : list call
}.

Definition set_extensions (exts : gmap string ExtensionInfo) (m : Manager)
  : Manager :=
  mkManager exts (extensionConfDir_ m) (globalConfig_ m) (threadManager_ m)
            (mainloops m) (saved m) (unwritable m) (calls m).

Definition set_tm (tm : ThreadMgr.ThreadManager) (m : Manager) : Manager :=
  mkManager (extensions_ m) (extensionConfDir_ m) (globalConfig_ m) tm
            (mainloops m) (saved m) (unwritable m) (calls m).

Definition set_mainloops (h : gmap addr Mainloop) (m : Manager) : Manager :=
  mkManager (extensions_ m) (extensionConfDir_ m) (globalConfig_ m)
            (threadManager_ m) h (saved m) (unwritable m) (calls m).

Definition set_saved (f : gmap string ExtensionConfig) (m : Manager)
  : Manager :=
  mkManager (extensions_ m) (extensionConfDir_ m) (globalConfig_ m)
            (threadManager_ m) (mainloops m) f (unwritable m) (calls m).

Definition set_unwritable (u : gset string) (m : Manager) : Manager :=
  mkManager (extensions_ m) (extensionConfDir_ m) (globalConfig_ m)
            (threadManager_ m) (mainloops m) (saved m) u (calls m).

Definition log (c : call) (m : Manager) : Manager :=
  mkManager (extensions_ m) (extensionConfDir_ m) (globalConfig_ m)
            (threadManager_ m) (mainloops m) (saved m) (unwritable m)
            (calls m ++ [c]).

(** [ExtensionManager::setGlobalConfig] *)
Definition setGlobalConfig (g : Configuration) (m : Manager) : Manager :=
  mkManager (extensions_ m) (extensionConfDir_ m) (Some g) (threadManager_ m)
            (mainloops m) (saved m) (unwritable m) (calls m).

(** A thread-manager operation inside a [try] whose [catch] only logs. *)
Definition tm_try (c : call)
    (op : ThreadMgr.ThreadManager → option ThreadMgr.ThreadManager)
    (m : Manager) : bool * Manager :=
  let m1 := log c m in
  match op (threadManager_ m1) with
  | Some tm => (true, set_tm tm m1)
  | None => (false, m1)
  end.

(** [hay.find(needle) != std::string::npos] *)
Fixpoint contains (needle hay : string) : bool :=
  String.prefix needle hay ||
  match hay with
  | EmptyString => false
  | String _ hay' => contains needle hay'
  end.

(** The extension points claimed: those of the records present. *)
Definition usedPoints (m : Manager) : gset string :=
  list_to_set
    (filter (λ pt, pt ≠ "")
       ((λ kv, assigned_extension_point (config kv.2))
          <$> map_to_list (extensions_ m))).

(** One of the three search loops of [assignAvailableExtensionPoint]: the
    first name that belongs to the pool and is not in use, or "". *)
Fixpoint first_free (pool : string) (used : gset string) (names : list string)
  : string :=
  match names with
  | [] => ""
  | n :: rest =>
      if contains pool n then
        if decide (n ∈ used) then first_free pool used rest else n
      else first_free pool used rest
  end.

(** [ExtensionManager::assignAvailableExtensionPoint] *)
Definition assignAvailableExtensionPoint (m : Manager)
    (globalConfig : Configuration) (type : ExtensionType) : string :=
  match type with
  | INTERNAL =>
      first_free "internal-router-point" (usedPoints m)
                 (udp_name <$> udp_configs globalConfig)
  | TCP =>
      first_free "tcp-extension-point" (usedPoints m)
                 (tcp_name <$> tcp_configs globalConfig)
  | UDP =>
      first_free "udp-extension-point" (usedPoints m)
                 (udp_name <$> udp_configs globalConfig)
  end.

(** [ExtensionManager::validateExtensionConfig] *)
Definition validateExtensionConfig (c : ExtensionConfig) : bool :=
  negb (String.eqb (name c) "") && negb (String.eqb (address c) "") &&
  negb (port c =? 0).

(** [ExtensionManager::getConfigFilePath] *)
Definition getConfigFilePath (m : Manager) (n : string) : string :=
  extensionConfDir_ m +:+ "/extension_" +:+ n +:+ ".json".

(** [ExtensionManager::saveExtensionConfig]: the value returned, and the
    manager.  [std::ofstream file(filepath)] is the call logged; when the
    file cannot be opened nothing is written and [false] is returned. *)
Definition saveExtensionConfig (n : string) (m : Manager) : bool * Manager :=
  match extensions_ m !! n with
  | None => (false, m)
  | Some info =>
      let filepath := getConfigFilePath m n in
      let m1 := log (SaveConfig filepath) m in
      if decide (filepath ∈ unwritable m1) then (false, m1)
      else (true, set_saved (<[filepath := config info]> (saved m1)) m1)
  end.

(** [ExtensionManager::launchExtensionThread]: the thread is created and
    registered; its body runs on its own (see [thread_publish] and
    [thread_end]). *)
Definition launchExtensionThread (c : ExtensionConfig) (m : Manager)
  : nat * Manager :=
  let '(id, tm) := ThreadMgr.createThread (threadManager_ m) in
  let attachmentId := "extension_" +:+ name c in
  (id,
   log (RegisterThread id attachmentId)
     (set_tm (ThreadMgr.registerThread id attachmentId tm)
        (log (CreateThread id) m))).

(** The body of the extension thread up to the point where it has stored
    its router instance in the record ("this must happen BEFORE entering the
    event loop so stopExtension() can access it"). *)
Definition thread_publish (n : string) (m : Manager) : Manager :=
  let '(extensionLoop, h) := create_extension_instance (mainloops m) in
  set_extensions
    (alter (λ info, mkExtensionInfo (info_name info) (threadId info)
                      (config info) (isRunning info) (Some extensionLoop))
           n (extensions_ m))
    (set_mainloops h m).

Definition with_thread_config (c : ExtensionConfig) (pt : string)
    (tc : Configuration) : ExtensionConfig :=
  mkExtensionConfig (name c) (type c) (address c) (port c) pt tc.

(** The router configuration [createExtension] builds for the extension
    thread; [inl] carries the error it returns instead. *)
Definition build_thread_config (g : Configuration) (c : ExtensionConfig)
    (pt : string) (rand : Z) : string + Configuration :=
  let tcp_port := 50000 + rand mod 10000 in
  let udp_client := mkUdpConfig (name c) (address c) (port c) Client "" in
  match type c with
  | INTERNAL =>
      if negb (contains "internal-router-point" pt)
      then inl "INTERNAL type must use internal-router-point"
      else
        match list_find (λ udp, udp_name udp = pt) (udp_configs g) with
        | Some (_, udp) =>
            inr (mkConfiguration tcp_port false []
                   [mkUdpConfig (udp_name udp) (udp_address udp) (udp_port udp)
                                Server (udp_group udp); udp_client]
                   [] 0 0)
        | None => inl "Internal router point not found in configuration"
        end
  | TCP =>
      let server :=
        match list_find (λ tcp, tcp_name tcp = pt) (tcp_configs g) with
        | Some (_, tcp) => [tcp]
        | None => []
        end in
      inr (mkConfiguration tcp_port false [] []
             (server ++ [mkTcpConfig (name c) (address c) (port c) 5000 ""])
             0 0)
  | UDP =>
      let server :=
        match list_find (λ udp, udp_name udp = pt) (udp_configs g) with
        | Some (_, udp) =>
            [mkUdpConfig (udp_name udp) (udp_address udp) (udp_port udp)
                         Server (udp_group udp)]
        | None => []
        end in
      inr (mkConfiguration tcp_port false [] (server ++ [udp_client]) [] 0 0)
  end.

(** [ExtensionManager::createExtension]; [rand] is what [std::rand()]
    returns. *)
Definition createExtension (rand : Z) (c : ExtensionConfig) (m : Manager)
  : string * Manager :=
  if bool_decide (is_Some (extensions_ m !! name c))
  then ("Extension already exists", m)
  else
    match globalConfig_ m with
    | None => ("Global configuration not available", m)
    | Some g =>
        let pt := assignAvailableExtensionPoint m g (type c) in
        if String.eqb pt "" then ("No available extension points", m)
        else if negb (validateExtensionConfig c)
        then ("Invalid extension configuration", m)
        else
          match build_thread_config g c pt rand with
          | inl err => (err, m)
          | inr tc =>
              let modifiedConfig := with_thread_config c pt tc in
              let '(id, m1) := launchExtensionThread modifiedConfig m in
              let info := mkExtensionInfo (name c) id modifiedConfig true None in
              let m2 := set_extensions (<[name c := info]> (extensions_ m1)) m1 in
              ("Success", (saveExtensionConfig (name c) m2).2)
          end
    end.

(** ** Stopping *)

Inductive wait_result :=
  | Found (extensionMainloop : addr)
  | Removed
  | NeverInitialized.

Definition maxRetries : nat := 20.
Arguments maxRetries : simpl never.

Section Stop.

(** Whether a thread terminates within a deadline, and what the other
    threads do to the manager while [stopExtension] sleeps with the mutex
    released: [env k] is applied during the sleep that follows the failed
    attempt number [k]. *)
Variable terminates : nat → Z → bool.
Variable env : nat → Manager → Manager.

(** The loop [while (!extensionMainloop && retries < maxRetries)]; [left] is
    [maxRetries - retries].  Besides the outcome and the manager, the number
    of sleeps made. *)
Fixpoint wait_for_instance (n : string) (left : nat) (retries : nat)
    (m : Manager) : wait_result * Manager * nat :=
  match left with
  | O => (NeverInitialized, m, retries)
  | S left' =>
      match mainloopInstance <$> (extensions_ m !! n) with
      | Some (Some extensionMainloop) => (Found extensionMainloop, m, retries)
      | _ =>
          let m1 := env retries (log (Sleep 50) m) in
          match extensions_ m1 !! n with
          | None => (Removed, m1, S retries)
          | Some _ => wait_for_instance n left' (S retries) m1
          end
      end
  end.

Definition call_joinThread (id : nat) (ms : Z) (m : Manager)
  : option bool * Manager :=
  let m1 := log (JoinThread id ms) m in
  match ThreadMgr.joinThread terminates id ms (threadManager_ m1) with
  | Some (b, tm) => (Some b, set_tm tm m1)
  | None => (None, m1)
  end.

Definition call_request_exit (this : addr) (retcode : Z) (m : Manager)
  : Manager :=
  set_mainloops (request_exit_at this retcode (mainloops m))
                (log (RequestExit this retcode) m).

(** [it->second.isRunning = false; it->second.mainloopInstance = nullptr] *)
Definition mark_stopped (n : string) (m : Manager) : Manager :=
  set_extensions
    (alter (λ info, mkExtensionInfo (info_name info) (threadId info)
                      (config info) false None)
           n (extensions_ m)) m.

(** The forced termination when the instance was never published:
    [stopThread], [joinThread] with 2 s, [unregisterThread], all inside one
    [try]. *)
Definition force_termination (id : nat) (attachmentId : string) (m : Manager)
  : Manager :=
  let '(ok, m1) := tm_try (StopThread id) (ThreadMgr.stopThread id) m in
  if ok then
    match call_joinThread id 2000 m1 with
    | (Some _, m2) =>
        (tm_try (UnregisterThread attachmentId)
                (ThreadMgr.unregisterThread attachmentId) m2).2
    | (None, m2) => m2
    end
  else m1.

(** [ExtensionManager::stopExtension] *)
Definition stopExtension (n : string) (m : Manager) : bool * Manager :=
  match extensions_ m !! n with
  | None => (false, m)
  | Some info =>
      if negb (isRunning info) then (true, m)
      else
        let threadId := threadId info in
        let attachmentId := "extension_" +:+ n in
        match wait_for_instance n maxRetries 0 m with
        | (Removed, m1, _) => (false, m1)
        | (NeverInitialized, m1, _) =>
            (false, mark_stopped n (force_termination threadId attachmentId m1))
        | (Found extensionMainloop, m1, _) =>
            let m2 := call_request_exit extensionMainloop 0 m1 in
            match call_joinThread threadId 5000 m2 with
            | (None, m3) => (false, m3)        (* the outer catch *)
            | (Some _, m3) =>
                let m4 := (tm_try (UnregisterThread attachmentId)
                             (ThreadMgr.unregisterThread attachmentId) m3).2 in
                (true, mark_stopped n m4)
            end
        end
  end.

(** [ExtensionManager::deleteExtension] *)
Definition deleteExtension (n : string) (m : Manager) : bool * Manager :=
  match extensions_ m !! n with
  | None => (false, m)
  | Some info =>
      (* STEP 1; [inl]: the record was removed during the wait *)
      let stopped : Manager + Manager :=
        if negb (isRunning info) then inr m
        else
          let threadId := threadId info in
          let attachmentId := "extension_" +:+ n in
          match wait_for_instance n maxRetries 0 m with
          | (Removed, m1, _) => inl m1
          | (NeverInitialized, m1, _) =>
              inr (mark_stopped n
                     (force_termination threadId attachmentId m1))
          | (Found extensionMainloop, m1, _) =>
              let m2 := call_request_exit extensionMainloop 0 m1 in
              match call_joinThread threadId 5000 m2 with
              | (None, m3) => inr m3
              | (Some _, m3) =>
                  inr (mark_stopped n
                         (tm_try (UnregisterThread attachmentId)
                            (ThreadMgr.unregisterThread attachmentId) m3).2)
              end
          end in
      match stopped with
      | inl m1 => (false, m1)
      | inr m1 =>
          (* STEP 2 and STEP 3 *)
          let path := getConfigFilePath m1 n in
          (true,
           set_extensions (delete n (extensions_ m1))
             (log (RemoveFile path) (set_saved (delete path (saved m1)) m1)))
      end
  end.

End Stop.

(** [ExtensionManager::startExtension] *)
Definition startExtension (n : string) (m : Manager) : bool * Manager :=
  match extensions_ m !! n with
  | None => (false, m)
  | Some info =>
      if isRunning info then (true, m)
      else
        let m1 :=
          if Nat.eqb (threadId info) 0 then m
          else
            let m' := (tm_try (StopThread (threadId info))
                         (ThreadMgr.stopThread (threadId info)) m).2 in
            let m' := (tm_try (UnregisterThread ("extension_" +:+ n))
                         (ThreadMgr.unregisterThread ("extension_" +:+ n))
                         m').2 in
            log (Sleep 200) m' in
        let '(newThreadId, m2) := launchExtensionThread (config info) m1 in
        (true,
         set_extensions
           (alter (λ i, mkExtensionInfo (info_name i) newThreadId (config i)
                          true (mainloopInstance i))
                  n (extensions_ m2)) m2)
  end.

(** ** The life of a manager *)

(** The end of the body of an extension thread, for the thread whose
    router instance is at [extensionLoop]: [open] or [add_endpoints] failed,
    or [loop] returned, and the clean-up runs
    [Mainloop::destroy_extension_instance(extensionLoop)].  The instance is
    freed; the thread's local pointer is set to null, the record of the
    extension is not touched: it keeps [mainloopInstance] and [isRunning].
    The singleton is no extension thread's instance. *)
Definition thread_end (extensionLoop : addr) (m : Manager) : Manager :=
  if decide (extensionLoop = instance_addr) then m
  else set_mainloops (delete extensionLoop (mainloops m)) m.

(** What can happen to the manager in one critical section, or around it:
    a call of the interface, a step of an extension thread (it publishes its
    instance, it ends), a change of which paths the file system lets the
    process open for writing. *)
Inductive atomic_op :=
  | ASetGlobalConfig (g : Configuration)
  | ACreate (rand : Z) (c : ExtensionConfig)
  | AStart (n : string)
  | APublish (n : string)
  | AThreadEnd (extensionLoop : addr)
  | AFilesystem (unwritable : gset string)
  | AStopNow (terminates : nat → Z → bool) (n : string)
  | ADeleteNow (terminates : nat → Z → bool) (n : string).

Definition apply_atomic (m : Manager) (a : atomic_op) : Manager :=
  match a with
  | ASetGlobalConfig g => setGlobalConfig g m
  | ACreate rand c => (createExtension rand c m).2
  | AStart n => (startExtension n m).2
  | APublish n => thread_publish n m
  | AThreadEnd extensionLoop => thread_end extensionLoop m
  | AFilesystem u => set_unwritable u m
  | AStopNow terminates n => (stopExtension terminates (λ _ m, m) n m).2
  | ADeleteNow terminates n => (deleteExtension terminates (λ _ m, m) n m).2
  end.

(** The calls of the interface, a stop or a delete being interleaved with
    what the other threads do while it sleeps. *)
Inductive op :=
  | Atomic (a : atomic_op)
  | OpStop (terminates : nat → Z → bool) (others : nat → list atomic_op)
           (n : string)
  | OpDelete (terminates : nat → Z → bool) (others : nat → list atomic_op)
             (n : string).

Definition interleave (others : nat → list atomic_op) (k : nat) (m : Manager)
  : Manager := foldl apply_atomic m (others k).

Definition apply_op (m : Manager) (o : op) : Manager :=
  match o with
  | Atomic a => apply_atomic m a
  | OpStop terminates others n =>
      (stopExtension terminates (interleave others) n m).2
  | OpDelete terminates others n =>
      (deleteExtension terminates (interleave others) n m).2
  end.

(** The manager as constructed, in a process whose primary router exists. *)
Definition new_Manager : Manager :=
  mkManager ∅ "pkg_src/config" None ThreadMgr.empty_ThreadManager
            {[ instance_addr := _instance ]} ∅ ∅ [].

Definition run (ops : list op) : Manager := foldl apply_op new_Manager ops.

(** ** What the claims speak about *)

(** No two records share an assigned extension point. *)
Definition points_distinct (m : Manager) : Prop :=
  ∀ n1 n2 i1 i2,
    extensions_ m !! n1 = Some i1 → extensions_ m !! n2 = Some i2 →
    n1 ≠ n2 →
    assigned_extension_point (config i1) ≠ assigned_extension_point (config i2).

(** The names of the pool of a type, in the order of the primary router's
    configuration. *)
Definition pool_names (g : Configuration) (t : ExtensionType) : list string :=
  match t with
  | INTERNAL => filter (λ n, contains "internal-router-point" n = true)
                       (udp_name <$> udp_configs g)
  | TCP => filter (λ n, contains "tcp-extension-point" n = true)
                  (tcp_name <$> tcp_configs g)
  | UDP => filter (λ n, contains "udp-extension-point" n = true)
                  (udp_name <$> udp_configs g)
  end.

(** [pt] is the first name of the list that is not in [used]. *)
Definition first_not_in (used : gset string) (names : list string)
    (pt : string) : Prop :=
  ∃ l1 l2, names = l1 ++ pt :: l2 ∧ (pt ∉ used) ∧ Forall (λ n, n ∈ used) l1.

(** The published instances are heap instances, never the singleton. *)
Definition instances_inv (m : Manager) : Prop :=
  instance_addr ∈ dom (mainloops m) ∧
  ∀ n info a,
    extensions_ m !! n = Some info → mainloopInstance info = Some a →
    a ≠ instance_addr.

(** A primary router with two UDP extension points, and a UDP extension
    whose request names a point of its own choosing. *)
Definition sample_global : Configuration :=
  mkConfiguration 5760 false []
    [mkUdpConfig "ground" "0.0.0.0" 14550 Server "";
     mkUdpConfig "udp-extension-point-1" "127.0.0.1" 44100 Client "";
     mkUdpConfig "udp-extension-point-2" "127.0.0.1" 44200 Client ""]
    [] 0 0.

Definition sample_extension (n supplied : string) : ExtensionConfig :=
  mkExtensionConfig n UDP "127.0.0.1" 20000 supplied empty_Configuration.

(** The primary configuration is set and extension "x" is created; while a
    later [stopExtension] sleeps for the third time, the thread of "x"
    publishes its instance. *)
Definition sample_ops : list op :=
  [Atomic (ASetGlobalConfig sample_global);
   Atomic (ACreate 1 (sample_extension "x" "udp-extension-point-2"))].

Definition sample_others (k : nat) : list atomic_op :=
  if Nat.eqb k 2 then [APublish "x"] else [].

(** The primary configuration is set, extension "x" is created and its
    thread publishes its instance, which is at address 1. *)
Definition published_ops : list op :=
  [Atomic (ASetGlobalConfig sample_global);
   Atomic (ACreate 1 (sample_extension "x" ""));
   Atomic (APublish "x")].

(** Later the thread of "x" ends by itself: [open] or [add_endpoints]
    failed, or its loop returned on a critical descriptor error. *)
Definition thread_ended_ops : list op :=
  published_ops ++ [Atomic (AThreadEnd 1%nat)].

(** After that, extension "y" is created and its thread publishes its
    instance, which [new Mainloop()] puts where the instance of "x" was. *)
Definition address_reused_ops : list op :=
  thread_ended_ops ++
  [Atomic (ACreate 2 (sample_extension "y" ""));
   Atomic (APublish "y")].

Definition sample_record : ExtensionInfo :=
  default (mkExtensionInfo "" 0 (sample_extension "" "") false None)
          (extensions_ (run sample_ops) !! "x").

(** What holds of every manager the interface can produce. *)
Definition Inv (m : Manager) : Prop := points_distinct m ∧ instances_inv m.

(** [m'] has the records and the router instances of [m]. *)
Definition same_shape (m m' : Manager) : Prop :=
  extensions_ m' = extensions_ m ∧ dom (mainloops m') = dom (mainloops m).

End ExtensionModel.

(* ===================================================================== *)
(** * Router instance: opening, tearing down, descriptors                  *)
(* ===================================================================== *)

Module LifecycleModel.
Import Config MainloopModel.

Definition set_epollfd (fd : Z) (m : Mainloop) : Mainloop :=
  mkMainloop fd (should_process_tcp_hangups m) (_should_exit m)
         (g_endpoints m) (g_tcp_fd m) (_timeouts m) (_msg_dedup m)
         (msg_to_unknown m) (_retcode m) (_tracked_fds m).

Definition set_retcode (r : Z) (m : Mainloop) : Mainloop :=
  mkMainloop (epollfd m) (should_process_tcp_hangups m) (_should_exit m)
         (g_endpoints m) (g_tcp_fd m) (_timeouts m) (_msg_dedup m)
         (msg_to_unknown m) r (_tracked_fds m).

Definition set_should_exit (b : bool) (m : Mainloop) : Mainloop :=
  mkMainloop (epollfd m) (should_process_tcp_hangups m) b
         (g_endpoints m) (g_tcp_fd m) (_timeouts m) (_msg_dedup m)
         (msg_to_unknown m) (_retcode m) (_tracked_fds m).

Definition set_tracked (t : gmap Z string) (m : Mainloop) : Mainloop :=
  mkMainloop (epollfd m) (should_process_tcp_hangups m) (_should_exit m)
         (g_endpoints m) (g_tcp_fd m) (_timeouts m) (_msg_dedup m)
         (msg_to_unknown m) (_retcode m) t.

(** [Mainloop::open]; [created] is what [epoll_create1] returns.  The value
    returned, and the instance. *)
Definition open (created : Z) (m : Mainloop) : Z * Mainloop :=
  let m1 := set_retcode (-1) m in
  if negb (epollfd m1 =? -1) then (- EBUSY, m1)
  else
    let m2 := set_epollfd created m1 in
    if epollfd m2 =? -1 then (-1, m2)
    else (0, set_retcode 0 (track_fd (epollfd m2) "EPOLL" m2)).

(** An event that makes the loop ask for its own exit: EPOLLERR on a
    pollable, not the TCP listener, that is critical. *)
Definition critical_error (ev : event) : bool :=
  negb (ev_listener ev) && ev_err ev && ev_critical ev.

Definition calm (r : epoll_result) : bool :=
  match r with
  | WaitEvents evs => forallb (λ ev, negb (critical_error ev)) evs
  | _ => true
  end.

(** What decides when [loop] leaves and what it returns. *)
Definition exit_state (m : Mainloop) : bool * Z := (_should_exit m, _retcode m).

(** The changes of polled events asked for while routing. *)
Definition polled (acts : list action) : list (Z * Z) :=
  omap (λ a, match a with ModFd fd events => Some (fd, events)
                        | WriteMsg _ => None end) acts.

(** ** Descriptors *)

(** The descriptors the process has open. [close(fd)] takes [fd] out. *)
Definition close (fd : Z) (os : gset Z) : gset Z := os ∖ {[fd]}.

(** [Mainloop::force_close_all_tracked_fds]: every tracked descriptor that
    [fcntl] still finds open is closed; the map is cleared. *)
Definition force_close_all_tracked_fds (m : Mainloop) (os : gset Z)
  : Mainloop * gset Z :=
  (set_tracked ∅ m,
   foldl (λ os kv, if decide (kv.1 ∈ os) then close kv.1 os else os)
         os (map_to_list (_tracked_fds m))).

(** The first loop of [destroy_extension_instance] for one endpoint:
    untrack and close its descriptor. *)
Definition destroy_endpoint (st : Mainloop * gset Z) (e : Endpoint)
  : Mainloop * gset Z :=
  if 0 <=? ep_fd e
  then (untrack_fd (ep_fd e) st.1, close (ep_fd e) st.2)
  else st.

(** The loop over [_timeouts] shared by [teardown] and
    [destroy_extension_instance]. *)
Definition destroy_timeout (st : Mainloop * gset Z) (t : Timeout)
  : Mainloop * gset Z :=
  if 0 <=? timeout_fd t
  then (untrack_fd (timeout_fd t) st.1, close (timeout_fd t) st.2)
  else st.

Definition close_tcp_server (st : Mainloop * gset Z) : Mainloop * gset Z :=
  if 0 <=? g_tcp_fd st.1
  then (set_tcp_fd (-1) (untrack_fd (g_tcp_fd st.1) st.1),
        close (g_tcp_fd st.1) st.2)
  else st.

(** [Mainloop::destroy_extension_instance], STEP 1 to STEP 6; the instance
    is then deleted.  What is returned is the instance as it is just before
    the [delete], and the descriptors left open. *)
Definition destroy_instance_steps (m : Mainloop) (os : gset Z)
  : Mainloop * gset Z :=
  let st1 := foldl destroy_endpoint (m, os) (g_endpoints m) in
  let st1 := (set_endpoints [] st1.1, st1.2) in
  let st3 := foldl destroy_timeout st1 (_timeouts st1.1) in
  let st3 := (set_timeouts [] st3.1, st3.2) in
  let st4 := close_tcp_server st3 in
  let st5 := if 0 <=? epollfd st4.1
             then (set_epollfd (-1) (untrack_fd (epollfd st4.1) st4.1),
                   close (epollfd st4.1) st4.2)
             else st4 in
  force_close_all_tracked_fds st5.1 st5.2.

(** [Mainloop::destroy_extension_instance] in a process whose instances are
    [h]; a null pointer is only logged. *)
Definition destroy_extension_instance (instance : option addr)
    (h : gmap addr Mainloop) (os : gset Z) : gmap addr Mainloop * gset Z :=
  match instance with
  | None => (h, os)
  | Some a =>
      match h !! a with
      | None => (h, os)
      | Some m => (delete a h, (destroy_instance_steps m os).2)
      end
  end.

(** The descriptors an instance holds: those of its endpoints, of its
    timeouts, of its TCP server and of its epoll instance, and whatever else
    it tracks. *)
Definition endpoint_fds (m : Mainloop) : gset Z :=
  list_to_set (filter (λ fd, 0 ≤ fd) (ep_fd <$> g_endpoints m)).

Definition timeout_fds (m : Mainloop) : gset Z :=
  list_to_set (filter (λ fd, 0 ≤ fd) (timeout_fd <$> _timeouts m)).

Definition server_fds (m : Mainloop) : gset Z :=
  (if 0 <=? g_tcp_fd m then {[g_tcp_fd m]} else ∅) ∪
  (if 0 <=? epollfd m then {[epollfd m]} else ∅).

Definition instance_fds (m : Mainloop) : gset Z :=
  endpoint_fds m ∪ timeout_fds m ∪ server_fds m ∪ dom (_tracked_fds m).

(** [Mainloop::teardown], on the singleton [m]: endpoint descriptors are
    closed (not untracked), the TCP server, the timeouts and the epoll
    descriptor are untracked and closed, and the fields are reset. *)
Definition teardown (m : Mainloop) (os : gset Z) : Mainloop * gset Z :=
  let m0 := set_should_exit false m in
  let os1 := foldl (λ os e, if 0 <=? ep_fd e then close (ep_fd e) os else os)
                   os (g_endpoints m0) in
  let st2 := close_tcp_server (set_endpoints [] m0, os1) in
  let st3 := foldl destroy_timeout st2 (_timeouts st2.1) in
  let st3 := (set_timeouts [] st3.1, st3.2) in
  let st4 := if 0 <=? epollfd st3.1
             then (untrack_fd (epollfd st3.1) st3.1,
                   close (epollfd st3.1) st3.2)
             else st3 in
  (set_hangups false
     (set_retcode (-1) (set_msg_to_unknown 0 (set_epollfd (-1) st4.1))),
   st4.2).

(** [t'] is [t] without the descriptors of [U]. *)
Definition untracked (U : gset Z) (t t' : gmap Z string) : Prop :=
  ∀ k, t' !! k = if decide (k ∈ U) then None else t !! k.

(** ** Removing timeouts *)

(** [Mainloop::del_timeout] for the timeout at position [i]. *)
Definition del_timeout (i : nat) (m : Mainloop) : Mainloop :=
  set_timeouts (alter (λ t, mkTimeout (timeout_fd t) true) i (_timeouts m)) m.

(** The first loop of [Mainloop::_del_timeouts]:
    [while (_timeouts != nullptr && _timeouts->remove_me)]. *)
Fixpoint del_head (ts : list Timeout) (m : Mainloop)
  : list Timeout * Mainloop :=
  match ts with
  | [] => ([], m)
  | t :: next =>
      if remove_me t then del_head next (untrack_fd (timeout_fd t) m)
      else (ts, m)
  end.

(** The second loop, over the timeouts after the first one kept. *)
Fixpoint del_rest (rest : list Timeout) (m : Mainloop)
  : list Timeout * Mainloop :=
  match rest with
  | [] => ([], m)
  | current :: next =>
      if remove_me current
      then del_rest next (untrack_fd (timeout_fd current) m)
      else let '(kept, m') := del_rest next m in (current :: kept, m')
  end.

(** [Mainloop::_del_timeouts] as the two loops over the linked list. *)
Definition _del_timeouts_walk (m : Mainloop) : Mainloop :=
  let '(ts1, m1) := del_head (_timeouts m) m in
  match ts1 with
  | [] => set_timeouts [] m1
  | prev :: rest =>
      let '(kept, m2) := del_rest rest m1 in
      set_timeouts (prev :: kept) m2
  end.

End LifecycleModel.

(* ===================================================================== *)
(** * Controller: queries and conversions (RpcController.cpp)              *)
(* ===================================================================== *)

Module RpcQueries.
Import MainloopModel RpcModel.

(** [::tolower] in the C locale. *)
Definition tolower (c : Ascii.ascii) : Ascii.ascii :=
  let n := Ascii.nat_of_ascii c in
  if ((65 <=? n) && (n <=? 90))%nat then Ascii.ascii_of_nat (n + 32) else c.

(** [std::transform(lower.begin(), lower.end(), lower.begin(), ::tolower)] *)
Fixpoint lower (str : string) : string :=
  match str with
  | EmptyString => EmptyString
  | String c rest => String (tolower c) (lower rest)
  end.

(** [RpcController::threadTargetToString] *)
Definition threadTargetToString (target : ThreadTarget) : string :=
  match target with
  | MAINLOOP => "mainloop"
  | HTTP_SERVER => "http_server"
  | STATISTICS => "statistics"
  | ALL => "all"
  end.

(** [RpcController::stringToThreadTarget] *)
Definition stringToThreadTarget (str : string) : ThreadTarget :=
  let lower := lower str in
  if String.eqb lower "mainloop" then MAINLOOP
  else if String.eqb lower "http_server" then HTTP_SERVER
  else if String.eqb lower "statistics" then STATISTICS
  else if String.eqb lower "all" then ALL
  else ALL.

(** [RpcController::threadOperationToString] *)
Definition threadOperationToString (op : ThreadOperation) : string :=
  match op with
  | START => "start"
  | STOP => "stop"
  | PAUSE => "pause"
  | RESUME => "resume"
  | RESTART => "restart"
  | STATUS => "status"
  end.

(** [RpcController::stringToThreadOperation] *)
Definition stringToThreadOperation (str : string) : ThreadOperation :=
  let lower := lower str in
  if String.eqb lower "start" then START
  else if String.eqb lower "stop" then STOP
  else if String.eqb lower "pause" then PAUSE
  else if String.eqb lower "resume" then RESUME
  else if String.eqb lower "restart" then RESTART
  else if String.eqb lower "status" then STATUS
  else STATUS.

(** [RpcController::getAllThreadStatus] *)
Definition getAllThreadStatus (w : World) : RpcResponse :=
  mkRpcResponse SUCCESS
    (foldl (λ states pair, <[pair.1 := getThreadStateInfo pair.1 w]> states)
           ∅ (map_items (threadRegistry_ w))).

(** The calls that create, register or unregister a thread. *)
Definition creates (c : call) : bool :=
  match c with
  | CreateThread _ | RegisterThread _ _ | UnregisterThread _
  | RestartCallback _ => true
  | _ => false
  end.

(** [w'] has the registrations of [w], and got from [w] to [w'] without
    creating, registering or unregistering a thread. *)
Definition quiet (w w' : World) : Prop :=
  threadRegistry_ w' = threadRegistry_ w ∧
  threadAttachments_ w' = threadAttachments_ w ∧
  restartCallbacks_ w' = restartCallbacks_ w ∧
  ∃ new, calls w' = calls w ++ new ∧ Forall (λ c, creates c = false) new.

End RpcQueries.

(* ===================================================================== *)
(** * Extension manager: conversions and what an operation leaves alone    *)
(* ===================================================================== *)

Module ExtensionQueries.
Import Config MainloopModel ExtensionModel.

(** [MavlinkExtensions::extensionTypeToString] *)
Definition extensionTypeToString (type : ExtensionType) : string :=
  match type with
  | INTERNAL => "internal"
  | TCP => "tcp"
  | UDP => "udp"
  end.

(** [MavlinkExtensions::stringToExtensionType] *)
Definition stringToExtensionType (typeStr : string) : ExtensionType :=
  let lower := RpcQueries.lower typeStr in
  if String.eqb lower "internal" then INTERNAL
  else if String.eqb lower "tcp" then TCP
  else if String.eqb lower "udp" then UDP
  else UDP.

(** [m'] has the records, the files, the directory and the primary
    configuration of [m]. *)
Definition same_records (m m' : Manager) : Prop :=
  extensions_ m' = extensions_ m ∧ saved m' = saved m ∧
  extensionConfDir_ m' = extensionConfDir_ m ∧
  globalConfig_ m' = globalConfig_ m.

(** The messages [createExtension] returns when it turns a request down
    before launching a thread. *)
Definition rejections : list string :=
  ["Extension already exists"; "Global configuration not available";
   "No available extension points"; "Invalid extension configuration"].

End ExtensionQueries.

(* ===================================================================== *)
(** * Command line (src/main.cpp)                                          *)
(* ===================================================================== *)

Module MainModel.
Import Config.

(** The [for] loop of [find_next_udp_port]: at the first configured UDP
    endpoint on [ip] and [port], [port++; break]. *)
Fixpoint find_next_udp_port_loop (ip : string) (port : Z)
    (cs : list UdpEndpointConfig) : Z :=
  match cs with
  | [] => port
  | c :: rest =>
      if String.eqb ip (udp_address c) && (port =? udp_port c)
      then u32 (port + 1)
      else find_next_udp_port_loop ip port rest
  end.

(** [find_next_udp_port] *)
Definition find_next_udp_port (ip : string) (config : Configuration) : Z :=
  find_next_udp_port_loop ip 14550 (udp_configs config).

(** [ip]:[port] is the address of a configured UDP endpoint. *)
Definition taken (ip : string) (port : Z) (config : Configuration) : Prop :=
  ∃ c, c ∈ udp_configs config ∧ udp_address c = ip ∧ udp_port c = port.

(** How the thread function of the primary router ends: [open()] failed,
    [add_endpoints()] failed, or [loop()] returned; each time with the
    instance as the closing [teardown()] leaves it. *)
Inductive thread_end :=
  | OpenFailed (m : MainloopModel.Mainloop)
  | EndpointsFailed (m : MainloopModel.Mainloop)
  | LoopReturned (ret : Z) (m : MainloopModel.Mainloop).

Definition final_instance (e : thread_end) : MainloopModel.Mainloop :=
  match e with
  | OpenFailed m | EndpointsFailed m | LoopReturned _ m => m
  end.

Section MainloopThread.
Import MainloopModel LifecycleModel.

Variable accept_msg : Endpoint → buffer → AcceptState.
Variable endpoint_write_msg : Endpoint → buffer → Z.
Variable uart_setup : UartEndpointConfig → option Z.
Variable udp_setup : UdpEndpointConfig → option Z.
Variable tcp_setup : TcpEndpointConfig → option Z.
Variable tcp_open : Z → Z.

(** [mainloopFunc], the thread function the restart callback of main.cpp
    starts, as far as the router instance goes: [teardown], [init], [open],
    [add_endpoints], [loop], [teardown].  [None]: the loop has not returned
    on the readiness results listed.  [os] is the set of descriptors open
    when the thread starts; what the instance is left as does not depend on
    it. *)
Definition mainloopFunc (created timer_fd : Z) (script : list epoll_result)
    (config : Configuration) (os : gset Z) (m : Mainloop)
  : option thread_end :=
  let m0 := (teardown m os).1 in
  let '(open_result, m1) := open created m0 in
  if open_result <? 0 then Some (OpenFailed (teardown m1 os).1)
  else
    let '(ok, m2) :=
      add_endpoints uart_setup udp_setup tcp_setup tcp_open m1 config in
    if negb ok then Some (EndpointsFailed (teardown m2 os).1)
    else
      match loop accept_msg endpoint_write_msg timer_fd script m2 with
      | None => None
      | Some (ret, m3) => Some (LoopReturned ret (teardown m3 os).1)
      end.

End MainloopThread.

End MainModel.

(* ===================================================================== *)
(** * Properties of the de-duplication cache                               *)
(* ===================================================================== *)

Lemma u32_small (z : Z) : 0 ≤ z < 2 ^ 32 → u32 z = z.
Proof. intros ?. unfold u32. by apply Z.mod_small. Qed.

Section DedupFacts.
Import DedupModel.

Variable std_hash : payload → Z.

Lemma sorted_from_weaken lo lo' q :
  lo' ≤ lo → sorted_from lo q → sorted_from lo' q.
Proof. destruct q as [|e q]; simpl; [done|]. intros ? [? ?]. split; [lia|done]. Qed.

Lemma sorted_from_Forall lo q :
  sorted_from lo q → Forall (λ e, lo ≤ e.1) q.
Proof.
  revert lo. induction q as [|e q IH]; intros lo; simpl; [by constructor|].
  intros [Hlo Hs]. constructor; [done|].
  eapply Forall_impl; [by apply IH|]. simpl. intros; lia.
Qed.

Lemma sorted_from_snoc lo q t h :
  sorted_from lo q → lo ≤ t → Forall (λ e, e.1 ≤ t) q →
  sorted_from lo (q ++ [(t, h)]).
Proof.
  revert lo. induction q as [|e q IH]; intros lo; simpl.
  - intros _ ? _. done.
  - intros [? Hs] ? Hall. inversion Hall; subst. split; [done|].
    apply IH; done.
Qed.

Lemma sorted_from_app_r lo pre q :
  sorted_from lo (pre ++ q) → sorted_from lo q.
Proof.
  revert lo. induction pre as [|e pre IH]; intros lo; simpl; [done|].
  intros [? Hs]. apply IH. by eapply sorted_from_weaken.
Qed.

(** What the clean-up loop does: it drops a prefix of expired entries and
    stops at the first entry that has not expired. *)
Lemma expire_decomp timestamp period q s q' s' :
  queue_wf q s →
  expire timestamp period q s = (q', s') →
  queue_wf q' s' ∧
  ∃ pre, q = pre ++ q' ∧
         Forall (λ e, u32 (e.1 + period) < timestamp) pre ∧
         match q' with
         | [] => True
         | e :: _ => timestamp ≤ u32 (e.1 + period)
         end.
Proof.
  revert s. induction q as [|[t0 h] q IH]; intros s Hwf; simpl.
  - intros [= <- <-]. split; [done|]. by exists [].
  - destruct (Z.ltb_spec (u32 (t0 + period)) timestamp) as [Hlt|Hge].
    + intros Hex. destruct Hwf as [-> Hnd]. simpl in Hnd.
      apply NoDup_cons in Hnd as [Hnotin Hnd].
      apply IH in Hex as [Hwf' (pre & -> & Hpre & Hhd)].
      * split; [done|]. exists ((t0, h) :: pre). split; [done|].
        split; [by constructor|done].
      * split; [|done]. simpl.
        apply set_eq. intros x. rewrite elem_of_difference, elem_of_union,
          elem_of_singleton, !elem_of_list_to_set.
        split; [intros [[->|?] ?]; done|]. intros Hx. split; [by right|].
        intros ->. done.
    + intros [= <- <-]. split; [done|]. exists []. simpl. done.
Qed.

Lemma sorted_from_head_le e q x :
  sorted_from 0 (e :: q) → x ∈ e :: q → e.1 ≤ x.1.
Proof.
  simpl. intros [_ Hs] Hx. apply elem_of_cons in Hx as [->|Hx]; [done|].
  apply sorted_from_Forall in Hs. rewrite Forall_forall in Hs. by apply Hs.
Qed.

Lemma hashed_range period T ins e :
  Forall (λ c : Z * payload, 0 ≤ c.1 ≤ T ∧ c.1 + period < 2 ^ 32) ins →
  e ∈ hashed std_hash ins → 0 ≤ e.1 ≤ T ∧ e.1 + period < 2 ^ 32.
Proof.
  intros Hall He. unfold hashed in He.
  apply list_elem_of_fmap in He as (c & -> & Hc).
  rewrite Forall_forall in Hall. by apply Hall.
Qed.

Lemma elem_of_hashed ins t h :
  (t, h) ∈ hashed std_hash ins ↔ ∃ p, (t, p) ∈ ins ∧ std_hash p = h.
Proof.
  unfold hashed. rewrite list_elem_of_fmap. split.
  - intros ([t' p] & [= -> ->] & Hin). by exists p.
  - intros (p & Hin & <-). by exists (t, p).
Qed.

(** One check, on a clock that neither goes backwards nor wraps. *)
Lemma impl_check_step period T ins d t p r d' :
  0 < period →
  impl_inv std_hash period T ins d →
  T ≤ t → t + period < 2 ^ 32 →
  impl_check_packet std_hash d t p period = (r, d') →
  (r = false ↔ inserted_in_closed_window std_hash period ins t p) ∧
  impl_inv std_hash period t (if r then ins ++ [(t, p)] else ins) d'.
Proof.
  intros Hper (Hwf & Hsort & Hmem & Hrange & HT0) HT Htw.
  assert (Ht0 : 0 ≤ t) by lia.
  unfold impl_check_packet. rewrite (u32_small t) by lia.
  destruct (expire t period _ _) as [q1 s1] eqn:Hex.
  apply expire_decomp in Hex as [Hwf1 (pre & Hq & Hpre & Hhd)]; [|done].
  assert (Hq_range : ∀ e, e ∈ _time_hash_queue d →
                          0 ≤ e.1 ≤ T ∧ e.1 + period < 2 ^ 32).
  { intros e He. apply Hmem in He as [He _]. by eapply hashed_range. }
  assert (Hsort1 : sorted_from 0 q1).
  { rewrite Hq in Hsort. by eapply sorted_from_app_r. }
  assert (Hmem1 : ∀ e, e ∈ q1 ↔ e ∈ hashed std_hash ins ∧ t ≤ e.1 + period).
  { intros e. split.
    - intros He. assert (e ∈ _time_hash_queue d) as Heq.
      { rewrite Hq. apply elem_of_app. by right. }
      split; [by apply Hmem|].
      destruct q1 as [|e1 q1]; [by apply elem_of_nil in He|].
      pose proof (sorted_from_head_le _ _ _ Hsort1 He).
      assert (e1 ∈ _time_hash_queue d) as He1.
      { rewrite Hq. apply elem_of_app. right. by left. }
      apply Hq_range in He1. rewrite u32_small in Hhd by lia. lia.
    - intros [He Halive]. assert (e ∈ _time_hash_queue d) as Heq.
      { apply Hmem. split; [done|]. lia. }
      pose proof (Hq_range _ Heq) as Hr.
      rewrite Hq in Heq. apply elem_of_app in Heq as [Hin|Hin]; [|done].
      rewrite Forall_forall in Hpre. apply Hpre in Hin.
      rewrite u32_small in Hin by lia. lia. }
  assert (Hset : std_hash p ∈ s1 ↔
                 inserted_in_closed_window std_hash period ins t p).
  { destruct Hwf1 as [-> _]. rewrite elem_of_list_to_set, list_elem_of_fmap.
    unfold inserted_in_closed_window. split.
    - intros ([t0 h] & Hh & He). simpl in Hh. subst h.
      apply Hmem1 in He as [He Halive]. simpl in Halive.
      pose proof (hashed_range _ _ _ _ Hrange He) as Hr. simpl in Hr.
      apply elem_of_hashed in He as (p0 & Hin & Hp0).
      exists t0, p0. repeat split; [done|done|lia|lia].
    - intros (t0 & p0 & Hin & Hh & Hlo & Hhi).
      exists (t0, std_hash p). split; [done|]. apply Hmem1. split.
      + apply elem_of_hashed. by exists p0.
      + simpl. lia. }
  destruct (decide (std_hash p ∈ s1)) as [Hin|Hnin]; intros [= <- <-].
  - split; [by rewrite <- Hset|].
    split; [done|]. split; [done|]. split; [done|]. simpl.
    split; [|done].
    eapply Forall_impl; [exact Hrange|]. simpl. intros; lia.
  - split; [split; [done|by rewrite <- Hset]|].
    split; [|split; [|split; [|split; [|done]]]]; simpl.
    + destruct Hwf1 as [-> Hnd]. split.
      * rewrite fmap_app, list_to_set_app_L. simpl.
        rewrite union_empty_r_L. apply union_comm_L.
      * rewrite fmap_app. apply NoDup_app. split; [done|]. split.
        -- intros x Hx Hx'. apply list_elem_of_singleton in Hx'. subst x.
           apply Hnin. by apply elem_of_list_to_set.
        -- apply NoDup_singleton.
    + apply sorted_from_snoc; [done|lia|]. apply Forall_forall.
      intros e He. apply Hmem1 in He as [He _].
      pose proof (hashed_range _ _ _ _ Hrange He). lia.
    + intros e. rewrite elem_of_app, list_elem_of_singleton, Hmem1.
      unfold hashed. rewrite fmap_app, elem_of_app. simpl.
      rewrite list_elem_of_singleton. split.
      * intros [[? ?]| ->]; [by split; [left|]|]. split; [by right|simpl; lia].
      * intros [[?| ->] ?]; [by left|by right].
    + apply Forall_app. split.
      * eapply Forall_impl; [exact Hrange|]. simpl. intros; lia.
      * constructor; [simpl; lia|constructor].
Qed.

Lemma check_packet_unfold period i t p :
  period ≠ 0 →
  check_packet std_hash (mkDedup period (Some i)) t p =
  let '(fresh, i') := impl_check_packet std_hash i t p period in
  (if fresh then NEW_PACKET_OR_TIMED_OUT else ALREADY_EXISTS_IN_BUFFER,
   mkDedup period (Some i')).
Proof.
  intros Hp. unfold check_packet. simpl.
  destruct (Z.eqb_spec period 0); [done|]. done.
Qed.

(** A whole trace followed by one more check, on a clock that neither goes
    backwards nor wraps: the last answer is "already seen" exactly when the
    closed window holds an insertion of the same hash. *)
Lemma check_after_run period T ins i cs t p sts d :
  0 < period →
  impl_inv std_hash period T ins i →
  clock_ok_nowrap period T ((cs ++ [(t, p)]).*1) →
  run std_hash (mkDedup period (Some i)) cs = (sts, d) →
  (check_packet std_hash d t p).1 = ALREADY_EXISTS_IN_BUFFER ↔
  inserted_in_closed_window std_hash period (ins ++ inserted cs sts) t p.
Proof.
  intros Hper. revert T ins i sts d.
  induction cs as [|[t1 p1] cs IH]; intros T ins i sts d Hinv Hclk; simpl.
  - intros [= <- <-]. simpl in Hclk. destruct Hclk as (? & ? & _).
    rewrite check_packet_unfold by lia.
    destruct (impl_check_packet _ _ _ _ _) as [r i'] eqn:Hchk.
    eapply impl_check_step in Hchk as [Hr _]; [|done..].
    rewrite app_nil_r. simpl. rewrite <- Hr. by destruct r.
  - simpl in Hclk. destruct Hclk as (? & ? & Hclk).
    rewrite check_packet_unfold by lia.
    destruct (impl_check_packet _ _ _ _ _) as [r i'] eqn:Hchk.
    eapply impl_check_step in Hchk as [_ Hinv']; [|done..].
    destruct (run _ _ cs) as [sts' d'] eqn:Hrun. intros [= <- <-].
    specialize (IH _ _ _ _ _ Hinv' Hclk Hrun). rewrite IH.
    destruct r; simpl; [by rewrite <- app_assoc|done].
Qed.

(** ** The window is not refreshed by a duplicate *)

Lemma impl_check_wf period T d t p r d' :
  impl_wf T d → T ≤ t → 0 ≤ t < 2 ^ 32 →
  impl_check_packet std_hash d t p period = (r, d') →
  impl_wf t d' ∧ (r = true → (t, std_hash p) ∈ _time_hash_queue d').
Proof.
  intros (Hwf & Hsort & Hle) HT Ht. unfold impl_check_packet.
  rewrite (u32_small t) by lia.
  destruct (expire t period _ _) as [q1 s1] eqn:Hex.
  apply expire_decomp in Hex as [Hwf1 (pre & Hq & _ & _)]; [|done].
  assert (Hsort1 : sorted_from 0 q1).
  { rewrite Hq in Hsort. by eapply sorted_from_app_r. }
  assert (Hle1 : Forall (λ e : Z * Z, e.1 ≤ t) q1).
  { rewrite Hq in Hle. apply Forall_app in Hle as [_ Hle].
    eapply Forall_impl; [exact Hle|]. simpl. intros; lia. }
  destruct (decide (std_hash p ∈ s1)) as [Hin|Hnin]; intros [= <- <-].
  - split; [done|]. done.
  - split.
    + split; [|split]; simpl.
      * destruct Hwf1 as [-> Hnd]. split.
        -- rewrite fmap_app, list_to_set_app_L. simpl.
           rewrite union_empty_r_L. apply union_comm_L.
        -- rewrite fmap_app. apply NoDup_app. split; [done|]. split.
           ++ intros x Hx Hx'. apply list_elem_of_singleton in Hx'. subst x.
              apply Hnin. by apply elem_of_list_to_set.
           ++ apply NoDup_singleton.
      * apply sorted_from_snoc; [done|lia|done].
      * apply Forall_app. split; [done|]. constructor; [simpl; lia|constructor].
    + intros _. simpl. apply elem_of_app. right. by left.
Qed.

Lemma queue_wf_app_hash pre q s h t0 :
  queue_wf (pre ++ q) s → (t0, h) ∈ pre → h ∉ (list_to_set (q.*2) : gset Z).
Proof.
  intros [_ Hnd] Hin. rewrite fmap_app in Hnd.
  apply NoDup_app in Hnd as (_ & Hdisj & _).
  rewrite elem_of_list_to_set. apply Hdisj.
  apply list_elem_of_fmap. by exists (t0, h).
Qed.

(** One check while the entry of [h], inserted at [t0], is being tracked.
    Checks of [h] itself come no later than [t0 + period]. *)
Lemma impl_check_tracked period t0 h T d t p r d' :
  0 < period → 0 ≤ t0 → t0 + period < 2 ^ 32 →
  tracked period t0 h T d → T ≤ t → 0 ≤ t < 2 ^ 32 →
  (std_hash p = h → t ≤ t0 + period) →
  impl_check_packet std_hash d t p period = (r, d') →
  tracked period t0 h t d' ∧ (std_hash p = h → r = false).
Proof.
  intros Hper Ht0 Hnw [Himpl Htr] HT Ht Hp Hchk.
  pose proof (impl_check_wf _ _ _ _ _ _ _ Himpl HT Ht Hchk) as [Hwf' _].
  revert Hchk. unfold impl_check_packet. rewrite (u32_small t) by lia.
  destruct Himpl as (Hwf & Hsort & Hle).
  destruct (expire t period _ _) as [q1 s1] eqn:Hex.
  apply expire_decomp in Hex as [Hwf1 (pre & Hq & Hpre & _)]; [|done].
  assert (Hcase : ((t0, h) ∈ q1 ∧ h ∈ s1) ∨ ((h ∉ s1) ∧ t0 + period < t)).
  { destruct Htr as [Hin|[Hnin Hlt]].
    - rewrite Hq in Hin. apply elem_of_app in Hin as [Hin|Hin].
      + right. split.
        * destruct Hwf1 as [-> _]. rewrite Hq in Hwf.
          by eapply queue_wf_app_hash.
        * rewrite Forall_forall in Hpre. apply Hpre in Hin. simpl in Hin.
          rewrite u32_small in Hin by lia. done.
      + left. split; [done|]. destruct Hwf1 as [-> _].
        apply elem_of_list_to_set, list_elem_of_fmap. by exists (t0, h).
    - right. split; [|lia]. intros Hin. apply Hnin.
      destruct Hwf as [-> _]. destruct Hwf1 as [-> _].
      rewrite Hq, fmap_app, list_to_set_app_L. apply elem_of_union. by right. }
  destruct (decide (std_hash p ∈ s1)) as [Hin|Hnin]; intros [= <- <-].
  - split; [|done]. split; [done|]. simpl.
    destruct Hcase as [[? _]|[? ?]]; [by left|by right].
  - split.
    + split; [done|]. simpl. destruct Hcase as [[? _]|[Hn ?]].
      * left. apply elem_of_app. by left.
      * right. split; [|done]. rewrite elem_of_union, elem_of_singleton.
        intros [->|?]; [|done]. specialize (Hp eq_refl). lia.
    + intros Heq. destruct Hcase as [[_ ?]|[_ ?]].
      * by rewrite Heq in Hnin.
      * specialize (Hp Heq). lia.
Qed.

(** The check of [h] after [t0 + period] finds nothing. *)
Lemma impl_check_expired period t0 h T d t p r d' :
  0 < period → 0 ≤ t0 →
  tracked period t0 h T d → T ≤ t → t < 2 ^ 32 → t0 + period < t →
  std_hash p = h →
  impl_check_packet std_hash d t p period = (r, d') →
  r = true.
Proof.
  intros Hper Ht0 [(Hwf & Hsort & Hle) Htr] HT Ht Hlt Hp.
  unfold impl_check_packet. rewrite (u32_small t) by lia.
  destruct (expire t period _ _) as [q1 s1] eqn:Hex.
  apply expire_decomp in Hex as [Hwf1 (pre & Hq & Hpre & Hhd)]; [|done].
  assert (Hnin : h ∉ s1).
  { destruct Htr as [Hin|[Hnin _]].
    - rewrite Hq in Hin. apply elem_of_app in Hin as [Hin|Hin].
      + destruct Hwf1 as [-> _]. rewrite Hq in Hwf.
        by eapply queue_wf_app_hash.
      + exfalso. rewrite Hq in Hsort. apply sorted_from_app_r in Hsort.
        destruct q1 as [|e1 q1]; [by apply elem_of_nil in Hin|].
        pose proof (sorted_from_head_le _ _ _ Hsort Hin) as Hle1.
        simpl in Hsort, Hle1. destruct Hsort as [? _].
        rewrite u32_small in Hhd by lia. lia.
    - intros Hin. apply Hnin.
      destruct Hwf as [-> _]. destruct Hwf1 as [-> _].
      rewrite Hq, fmap_app, list_to_set_app_L. apply elem_of_union. by right. }
  rewrite Hp. destruct (decide (h ∈ s1)); [done|]. by intros [= <- _].
Qed.

Lemma impl_wf_new : impl_wf 0 (mkImpl [] ∅).
Proof.
  split; [|split]; simpl; [|done|constructor].
  split; [done|constructor].
Qed.

Lemma impl_inv_new period : impl_inv std_hash period 0 [] (mkImpl [] ∅).
Proof.
  split; [|split; [|split; [|split]]]; simpl; [|done| |constructor|done].
  - split; [done|constructor].
  - intros e. split; [intros []%elem_of_nil|intros [[]%elem_of_nil _]].
Qed.

(** A trace keeps the queue well formed; [rest] is what the clock still has
    to go through. *)
Lemma run_wf period T i cs rest sts d :
  period ≠ 0 →
  impl_wf T i → 0 ≤ T →
  clock_ok T (cs.*1 ++ rest) →
  run std_hash (mkDedup period (Some i)) cs = (sts, d) →
  ∃ i' T', d = mkDedup period (Some i') ∧ impl_wf T' i' ∧ 0 ≤ T' ∧
           clock_ok T' rest.
Proof.
  intros Hper. revert T i sts d.
  induction cs as [|[t1 p1] cs IH]; intros T i sts d Hwf HT Hclk; simpl.
  - intros [= <- <-]. by exists i, T.
  - simpl in Hclk. destruct Hclk as [? Hclk].
    rewrite check_packet_unfold by done.
    destruct (impl_check_packet _ _ _ _ _) as [r i1] eqn:Hchk.
    eapply impl_check_wf in Hchk as [Hwf1 _]; [|done|lia|lia].
    destruct (run _ _ cs) as [sts' d'] eqn:Hrun. intros [= <- <-].
    eapply IH; [done| |done|done]. lia.
Qed.

(** A trace of intervening checks, then the late check of the same hash. *)
Lemma run_tracked period t0 h T i cs t p sts d :
  0 < period → 0 ≤ t0 →
  tracked period t0 h T i → 0 ≤ T →
  clock_ok T ((cs ++ [(t, p)]).*1) →
  (∀ c, c ∈ cs → std_hash c.2 = h → c.1 ≤ t0 + period) →
  t0 + period < t → std_hash p = h →
  run std_hash (mkDedup period (Some i)) cs = (sts, d) →
  (∀ k c, cs !! k = Some c → std_hash c.2 = h →
          sts !! k = Some ALREADY_EXISTS_IN_BUFFER) ∧
  (check_packet std_hash d t p).1 = NEW_PACKET_OR_TIMED_OUT.
Proof.
  intros Hper Ht0. revert T i sts d.
  induction cs as [|[t1 p1] cs IH]; intros T i sts d Htr HT Hclk Hcs Hlt Hp;
    simpl.
  - intros [= <- <-]. split; [intros k c; by rewrite lookup_nil|].
    simpl in Hclk. destruct Hclk as [? _].
    rewrite check_packet_unfold by lia.
    destruct (impl_check_packet _ _ _ _ _) as [r i'] eqn:Hchk.
    assert (r = true) as ->; [|done].
    eapply (impl_check_expired period t0 h T i t p); [done|done|done|lia|lia|done|done|done].
  - simpl in Hclk. destruct Hclk as [? Hclk].
    assert (t1 ≤ t ∧ t < 2 ^ 32) as [Ht1 Htmax].
    { clear -Hclk. revert t1 Hclk.
      induction cs as [|[t2 p2] cs IHcs]; intros t1; simpl; [lia|].
      intros [? Hc]. apply IHcs in Hc. lia. }
    rewrite check_packet_unfold by lia.
    destruct (impl_check_packet _ _ _ _ _) as [r i1] eqn:Hchk.
    assert (t0 + period < 2 ^ 32) as Hnw by lia.
    assert (std_hash p1 = h → t1 ≤ t0 + period) as Hp1.
    { intros Hh. apply (Hcs (t1, p1)); [by left|done]. }
    assert (T ≤ t1) as HT1 by lia.
    assert (0 ≤ t1 < 2 ^ 32) as Ht1r by lia.
    pose proof (impl_check_tracked _ _ _ _ _ _ _ _ _
                  Hper Ht0 Hnw Htr HT1 Ht1r Hp1 Hchk) as [Htr1 Hdup].
    destruct (run _ _ cs) as [sts' d'] eqn:Hrun. intros [= <- <-].
    edestruct IH as [Hsts Hfin]; [exact Htr1|lia|done| |done|done|done|].
    { intros c Hc. apply Hcs. by right. }
    split; [|done]. intros [|k] c; simpl.
    + intros [= <-] Hh. simpl in Hh. by rewrite (Hdup Hh).
    + apply Hsts.
Qed.

Lemma not_already st :
  st ≠ ALREADY_EXISTS_IN_BUFFER → st = NEW_PACKET_OR_TIMED_OUT.
Proof. by destruct st. Qed.

Lemma window_claim_closed period cs t p :
  0 < period →
  clock_ok_nowrap period 0 ((cs ++ [(t, p)]).*1) →
  window_claim std_hash (inserted_in_closed_window std_hash) period cs t p.
Proof.
  intros Hper Hclk. unfold window_claim.
  destruct (run _ _ cs) as [sts d] eqn:Hrun. simpl.
  rewrite (check_after_run period 0 [] (mkImpl [] ∅) cs t p sts d);
    [done|done|apply impl_inv_new|done|done].
Qed.

(** Scenario 3 of the specification: period 100 ms, the same payload at
    t = 0, 50 and 200. *)
Lemma dedup_scenario_0_50_200 q :
  (run std_hash (new_Dedup 100) [(0, q); (50, q); (200, q)]).1 =
  [NEW_PACKET_OR_TIMED_OUT; ALREADY_EXISTS_IN_BUFFER; NEW_PACKET_OR_TIMED_OUT].
Proof.
  assert (H1 : window_claim std_hash (inserted_in_closed_window std_hash)
                 100 [] 0 q).
  { apply window_claim_closed; [lia|]. simpl. lia. }
  assert (H2 : window_claim std_hash (inserted_in_closed_window std_hash)
                 100 [(0, q)] 50 q).
  { apply window_claim_closed; [lia|]. simpl. lia. }
  assert (H3 : window_claim std_hash (inserted_in_closed_window std_hash)
                 100 [(0, q); (50, q)] 200 q).
  { apply window_claim_closed; [lia|]. simpl. lia. }
  unfold window_claim in H1, H2, H3. cbn [run fst snd] in *.
  destruct (check_packet std_hash (new_Dedup 100) 0 q) as [st1 d1].
  cbn [fst snd] in *.
  assert (st1 = NEW_PACKET_OR_TIMED_OUT) as ->.
  { apply not_already. rewrite H1. intros (? & ? & []%elem_of_nil & _). }
  destruct (check_packet std_hash d1 50 q) as [st2 d2]. cbn [fst snd] in *.
  assert (st2 = ALREADY_EXISTS_IN_BUFFER) as ->.
  { apply H2. exists 0, q. split; [by left|]. split; [done|lia]. }
  destruct (check_packet std_hash d2 200 q) as [st3 d3]. cbn [fst snd] in *.
  assert (st3 = NEW_PACKET_OR_TIMED_OUT) as ->; [|done].
  apply not_already. rewrite H3. cbn [inserted].
  intros (t0 & p0 & Hin & _ & Hw). apply list_elem_of_singleton in Hin.
  injection Hin as -> _. lia.
Qed.

(** C5 (amended).  For every period > 0, on a clock that does not go
    backwards and on which every check is made at a time [t'] with
    [0 ≤ t'] and [t' + period < 2^32] (so that neither the 32-bit time
    stamps nor the 32-bit sums time stamp + period wrap around), a check of
    payload [p] at time [t] is answered [ALREADY_EXISTS_IN_BUFFER] if and
    only if a payload with the same hash was inserted (checked and found
    new) at some time in the CLOSED interval [t - period, t]; with period =
    100 ms, checks of one payload at t = 0, 50 and 200 are answered New,
    Duplicate, New. *)
Theorem C5_dedup_closed_window period cs t p :
  0 < period →
  clock_ok_nowrap period 0 ((cs ++ [(t, p)]).*1) →
  window_claim std_hash (inserted_in_closed_window std_hash) period cs t p ∧
  (run std_hash (new_Dedup 100) [(0, p); (50, p); (200, p)]).1 =
  [NEW_PACKET_OR_TIMED_OUT; ALREADY_EXISTS_IN_BUFFER; NEW_PACKET_OR_TIMED_OUT].
Proof.
  intros Hper Hclk. split.
  - by apply window_claim_closed.
  - apply dedup_scenario_0_50_200.
Qed.

(** C10 (amended).  A Duplicate answer does not refresh the window, on a
    clock that does not go backwards and whose millisecond count stays below
    2^32.  Payload [p] is inserted at [t0] (its check is answered New);
    whatever checks follow, as long as those of [p] itself fall within
    [t0 + period], they are answered Duplicate, and the check of [p] made
    later than [t0 + period] is answered New. *)
Theorem C10_duplicate_does_not_refresh_window period cs0 t0 p cs1 t :
  clock_ok 0 ((cs0 ++ (t0, p) :: cs1 ++ [(t, p)]).*1) →
  late_check_is_new std_hash period cs0 t0 p cs1 t.
Proof.
  intros Hclk Hper Hcs Hlt d0 r1 Hnew r2.
  rewrite fmap_app, fmap_cons in Hclk. simpl in Hclk.
  destruct (run std_hash (new_Dedup period) cs0) as [sts0 d0'] eqn:Hrun0.
  eapply run_wf in Hrun0 as (i0 & T0 & -> & Hwf0 & HT0 & Hclk0);
    [|lia|apply impl_wf_new|lia|exact Hclk].
  simpl in Hclk0. destruct Hclk0 as [Ht0 Hclk1].
  subst d0 r1 r2. simpl in *. revert Hnew.
  rewrite check_packet_unfold by lia.
  destruct (impl_check_packet _ _ _ _ _) as [r i1] eqn:Hchk. simpl.
  intros Hnew. destruct r; [|done].
  eapply impl_check_wf in Hchk as [Hwf1 Hin]; [|done|lia|lia].
  destruct (run std_hash _ cs1) as [sts1 d2] eqn:Hrun1. simpl.
  eapply (run_tracked period t0 (std_hash p) t0 i1 cs1 t p);
    [done|lia| |lia|done|done|done|done|done].
  split; [done|]. left. by apply Hin.
Qed.

End DedupFacts.

(** Witness of C5: period 100, one insertion at t = 0, a check at t = 100. *)
Lemma C5_dedup_closed_window_witness :
  DedupModel.window_claim DedupModel.sample_hash
    (DedupModel.inserted_in_closed_window DedupModel.sample_hash)
    100 [(0, DedupModel.payload_a)] 100 DedupModel.payload_a.
Proof.
  apply (C5_dedup_closed_window DedupModel.sample_hash
           100 [(0, DedupModel.payload_a)] 100 DedupModel.payload_a).
  - lia.
  - simpl. lia.
Defined.

(** C5 as stated fails: with period 100, a payload inserted at t = 0 is
    still answered Duplicate at t = 100, although no insertion lies in the
    half-open interval (0, 100]. *)
Lemma C5_half_open_window_counterexample :
  ¬ DedupModel.window_claim DedupModel.sample_hash
      DedupModel.inserted_in_half_open_window
      100 [(0, DedupModel.payload_a)] 100 DedupModel.payload_a.
Proof.
  unfold DedupModel.window_claim. intros [Hdup _].
  destruct Hdup as (t0 & Hin & Hlo & _).
  - vm_compute. reflexivity.
  - vm_compute in Hin. apply list_elem_of_singleton in Hin.
    injection Hin as ->. lia.
Qed.

(** The closed window needs the sums time stamp + period not to wrap:
    with period 100, a payload inserted at 2^32 - 10 is expired by the check
    made 5 ms later, because its deadline (2^32 + 90) is computed as 90. *)
Lemma closed_window_needs_unwrapped_deadlines :
  ¬ DedupModel.window_claim DedupModel.sample_hash
      (DedupModel.inserted_in_closed_window DedupModel.sample_hash)
      100 [(2 ^ 32 - 10, DedupModel.payload_a)] (2 ^ 32 - 5)
      DedupModel.payload_a.
Proof.
  unfold DedupModel.window_claim. intros [_ Hdup].
  assert ((DedupModel.check_packet DedupModel.sample_hash
             (DedupModel.run DedupModel.sample_hash (DedupModel.new_Dedup 100)
                [(2 ^ 32 - 10, DedupModel.payload_a)]).2
             (2 ^ 32 - 5) DedupModel.payload_a).1
          = DedupModel.NEW_PACKET_OR_TIMED_OUT) as Hnew
    by (vm_compute; reflexivity).
  rewrite Hdup in Hnew; [discriminate|].
  exists (2 ^ 32 - 10), DedupModel.payload_a.
  split; [vm_compute; by left|]. split; [done|lia].
Qed.

(** C10 as stated fails where the 32-bit millisecond count wraps: with
    period 100, a payload inserted 150 ms before the count reaches 2^32 and
    checked again 160 ms later, 10 ms after the wrap, is still answered
    Duplicate: its time stamp 10 is not later than the deadline 2^32 - 50. *)
Lemma C10_clock_wrap_counterexample :
  ¬ DedupModel.late_check_is_new DedupModel.sample_hash
      100 [] (2 ^ 32 - 150) DedupModel.payload_a [] (2 ^ 32 + 10).
Proof.
  unfold DedupModel.late_check_is_new. intros H.
  destruct H as [_ Hnew].
  - lia.
  - intros c Hc. by apply elem_of_nil in Hc.
  - lia.
  - vm_compute. reflexivity.
  - vm_compute in Hnew. discriminate.
Qed.

(** Witness of C10: inserted at 0, seen again at 50 (Duplicate), an
    unrelated payload at 60, and the same payload again at 200. *)
Lemma C10_duplicate_does_not_refresh_window_witness :
  (DedupModel.run DedupModel.sample_hash
     (DedupModel.check_packet DedupModel.sample_hash
        (DedupModel.new_Dedup 100) 0 DedupModel.payload_a).2
     [(50, DedupModel.payload_a); (60, DedupModel.payload_b)]).1 !! 0%nat
  = Some DedupModel.ALREADY_EXISTS_IN_BUFFER ∧
  (DedupModel.check_packet DedupModel.sample_hash
     (DedupModel.run DedupModel.sample_hash
        (DedupModel.check_packet DedupModel.sample_hash
           (DedupModel.new_Dedup 100) 0 DedupModel.payload_a).2
        [(50, DedupModel.payload_a); (60, DedupModel.payload_b)]).2
     200 DedupModel.payload_a).1 = DedupModel.NEW_PACKET_OR_TIMED_OUT.
Proof.
  pose proof (C10_duplicate_does_not_refresh_window DedupModel.sample_hash
                100 [] 0 DedupModel.payload_a
                [(50, DedupModel.payload_a); (60, DedupModel.payload_b)] 200) as H.
  unfold DedupModel.late_check_is_new in H. simpl in H.
  destruct H as [Hdup Hnew].
  - lia.
  - lia.
  - intros c Hc. apply elem_of_cons in Hc as [->|Hc]; [simpl; lia|].
    apply list_elem_of_singleton in Hc as ->. vm_compute. discriminate.
  - lia.
  - vm_compute. reflexivity.
  - split; [|exact Hnew].
    apply (Hdup 0%nat (50, DedupModel.payload_a)); reflexivity.
Defined.

(* ===================================================================== *)
(** * Properties of routing                                                *)
(* ===================================================================== *)

Section RoutingFacts.
Import MainloopModel.

Variable accept_msg : Endpoint → buffer → AcceptState.
Variable endpoint_write_msg : Endpoint → buffer → Z.

Abbreviation route_loop := (route_loop accept_msg endpoint_write_msg).
Abbreviation route_msg := (route_msg accept_msg endpoint_write_msg).
Abbreviation accepting_from := (accepting_from accept_msg).

Lemma written_app a b : written (a ++ b) = written a ++ written b.
Proof. unfold written. apply omap_app. Qed.

Lemma written_write_msg i e buf :
  written (write_msg endpoint_write_msg i e buf).2 = [i].
Proof.
  unfold write_msg. simpl. by destruct (_ =? _).
Qed.

(** The writes of the loop are those the log began with, then the accepting
    positions in order. *)
Lemma route_loop_written buf i eps st :
  written (rs_log (route_loop buf i eps st)) =
  written (rs_log st) ++ accepting_from buf i eps.
Proof.
  revert i st. induction eps as [|e eps IH]; intros i st; simpl.
  - by rewrite app_nil_r.
  - rewrite IH, app_assoc. f_equal. unfold route_one.
    destruct (decide (accept_msg e buf = Accepted)) as [->|Hne].
    + pose proof (written_write_msg i e buf) as Hw.
      destruct (write_msg _ i e buf) as [r acts]. simpl in *.
      by rewrite written_app, Hw.
    + rewrite app_nil_r. by destruct (accept_msg e buf).
Qed.

Lemma route_loop_unknown buf i eps st :
  rs_unknown (route_loop buf i eps st) =
  rs_unknown st &&
  forallb (λ e, bool_decide (accept_msg e buf = Rejected)) eps.
Proof.
  revert i st. induction eps as [|e eps IH]; intros i st; simpl.
  - by rewrite andb_true_r.
  - rewrite IH. unfold route_one.
    destruct (accept_msg e buf) eqn:Hacc; simpl.
    + unfold write_msg. simpl. by rewrite andb_false_r.
    + by rewrite andb_false_r.
    + done.
Qed.

Lemma elem_of_accepting_from buf i eps j :
  j ∈ accepting_from buf i eps ↔
  (i ≤ j)%nat ∧ ∃ e, eps !! (j - i)%nat = Some e ∧ accept_msg e buf = Accepted.
Proof.
  revert i. induction eps as [|e eps IH]; intros i; simpl.
  - split; [intros []%elem_of_nil|]. intros (_ & e & He & _).
    by rewrite lookup_nil in He.
  - rewrite elem_of_app, IH. split.
    + intros [Hj|(Hle & e' & He' & Hacc)].
      * destruct (decide _) as [Hacc|]; [|by apply elem_of_nil in Hj].
        apply list_elem_of_singleton in Hj as ->. split; [lia|].
        exists e. by rewrite Nat.sub_diag.
      * split; [lia|]. exists e'. split; [|done].
        replace (j - i)%nat with (S (j - S i)) by lia. done.
    + intros (Hle & e' & He' & Hacc).
      destruct (decide (j = i)) as [->|Hne].
      * left. rewrite Nat.sub_diag in He'. simpl in He'.
        injection He' as ->. rewrite decide_True by done. by left.
      * right. split; [lia|]. exists e'. split; [|done].
        replace (j - i)%nat with (S (j - S i)) in He' by lia. done.
Qed.

Lemma accepting_from_lb buf i eps j :
  j ∈ accepting_from buf i eps → (i ≤ j)%nat.
Proof. rewrite elem_of_accepting_from. by intros [? _]. Qed.

Lemma NoDup_accepting_from buf i eps : NoDup (accepting_from buf i eps).
Proof.
  revert i. induction eps as [|e eps IH]; intros i; simpl; [constructor|].
  destruct (decide _); simpl; [|done].
  constructor; [|done]. intros Hin%accepting_from_lb. lia.
Qed.

Lemma length_accepting_from buf i eps :
  length (accepting_from buf i eps) =
  length (filter (λ e, accept_msg e buf = Accepted) eps).
Proof.
  revert i. induction eps as [|e eps IH]; intros i; simpl; [done|].
  rewrite length_app, IH, filter_cons.
  by destruct (decide _).
Qed.

(** C1.  [route_msg] submits a write to exactly the endpoints of the router
    whose [accept_msg] answers Accepted: an endpoint is written to if and
    only if it accepts, nothing outside the endpoint list is written to, no
    endpoint is written to twice, and the number of writes is the number of
    accepts. *)
Theorem C1_route_msg_writes_exactly_accepting (m : Mainloop) (buf : buffer) :
  let ws := written (route_msg m buf).2 in
  (∀ i e, g_endpoints m !! i = Some e →
          (i ∈ ws ↔ accept_msg e buf = Accepted)) ∧
  (∀ i, i ∈ ws → (i < length (g_endpoints m))%nat) ∧
  NoDup ws ∧
  length ws =
  length (filter (λ e, accept_msg e buf = Accepted) (g_endpoints m)).
Proof.
  simpl. unfold MainloopModel.route_msg. simpl.
  rewrite route_loop_written. simpl.
  split; [|split; [|split]].
  - intros i e He. rewrite elem_of_accepting_from, Nat.sub_0_r. split.
    + intros (_ & e' & He' & Hacc). congruence.
    + intros Hacc. split; [lia|]. by exists e.
  - intros i. rewrite elem_of_accepting_from, Nat.sub_0_r.
    intros (_ & e & He & _). by eapply lookup_lt_Some.
  - apply NoDup_accepting_from.
  - apply length_accepting_from.
Qed.

(** C4 (amended).  [route_msg] adds one to [msg_to_unknown] (a 32-bit
    counter) exactly when every endpoint rejected the frame, that is when no
    endpoint answered Accepted and none answered Filtered; the counter is
    unchanged as soon as one endpoint accepted or filtered. *)
Theorem C4_msg_to_unknown_counts_all_rejected (m : Mainloop) (buf : buffer) :
  unknown_counts_all_rejected accept_msg endpoint_write_msg m buf.
Proof.
  unfold unknown_counts_all_rejected, MainloopModel.route_msg. simpl.
  rewrite route_loop_unknown. simpl.
  by destruct (forallb _ _).
Qed.

End RoutingFacts.

(** C4 as stated fails: one endpoint that filters the frame.  No endpoint
    accepted, and the counter stays where it was. *)
Lemma C4_filtered_is_not_unknown_counterexample :
  ¬ MainloopModel.unknown_counts_not_accepted
      (λ _ _, MainloopModel.Filtered) (λ _ _, 0)
      (MainloopModel.set_endpoints
         [MainloopModel.mkEndpoint MainloopModel.ENDPOINT_TYPE_UDP "A" 5 ""
            [] true false]
         MainloopModel.new_Mainloop)
      (MainloopModel.mkBuffer [] 42 0 0 1 1).
Proof. vm_compute. discriminate. Qed.

(* ===================================================================== *)
(** * Properties of the exit protocol                                      *)
(* ===================================================================== *)

Section ExitFacts.
Import MainloopModel.

Variable accept_msg : Endpoint → buffer → AcceptState.
Variable endpoint_write_msg : Endpoint → buffer → Z.

(** Once the flag is set the loop leaves at its next test, whatever the
    readiness calls would still have returned. *)
Lemma loop_while_exit script m :
  _should_exit m = true →
  loop_while accept_msg endpoint_write_msg script m = Some m.
Proof. intros Hexit. destruct script; simpl; by rewrite Hexit. Qed.

Lemma add_timeout_exit fd m :
  _should_exit (add_timeout fd m) = _should_exit m ∧
  _retcode (add_timeout fd m) = _retcode m.
Proof.
  unfold add_timeout, track_fd. destruct (fd <? 0); simpl; done.
Qed.

Lemma loop_after_request_exit retcode timer_fd script m :
  0 ≤ epollfd m →
  fst <$> loop accept_msg endpoint_write_msg timer_fd script
            (request_exit retcode m) = Some retcode.
Proof.
  intros Hopen. unfold loop.
  replace (epollfd (request_exit retcode m) <? 0) with false
    by (symmetry; apply Z.ltb_ge; done).
  pose proof (add_timeout_exit timer_fd (request_exit retcode m)) as [He Hr].
  rewrite loop_while_exit by (by rewrite He).
  simpl. by rewrite Hr.
Qed.

(** C2.  [request_exit(retcode)] called through the instance at [this]
    leaves every other instance of the process as it was, changes nothing of
    the called instance but its exit flag and its stored retcode, and
    [loop()] of the called instance (open, as a router that loops is) then
    returns that retcode. *)
Theorem C2_request_exit_only_its_instance
    (h : gmap addr Mainloop) (this : addr) (m : Mainloop) (retcode : Z) :
  h !! this = Some m →
  let h' := request_exit_at this retcode h in
  (∀ other, other ≠ this → h' !! other = h !! other) ∧
  (∃ m', h' !! this = Some m' ∧
         _should_exit m' = true ∧ _retcode m' = retcode ∧
         epollfd m' = epollfd m ∧
         should_process_tcp_hangups m' = should_process_tcp_hangups m ∧
         g_endpoints m' = g_endpoints m ∧
         g_tcp_fd m' = g_tcp_fd m ∧
         _timeouts m' = _timeouts m ∧
         _msg_dedup m' = _msg_dedup m ∧
         msg_to_unknown m' = msg_to_unknown m ∧
         _tracked_fds m' = _tracked_fds m ∧
         (0 ≤ epollfd m →
          ∀ timer_fd script,
            fst <$> loop accept_msg endpoint_write_msg timer_fd script m'
            = Some retcode)).
Proof.
  intros Hm h'. subst h'. unfold request_exit_at. split.
  - intros other Hne. by rewrite lookup_alter_ne.
  - exists (request_exit retcode m). split.
    + by rewrite lookup_alter_eq, Hm.
    + repeat (split; [done|]). intros Hopen timer_fd script.
      by apply loop_after_request_exit.
Qed.

End ExitFacts.

(** Witness of C2: the primary router at [instance_addr] and one extension
    instance at address 1, both open; the extension is asked to exit. *)
Lemma C2_request_exit_only_its_instance_witness :
  let m := MainloopModel.mkMainloop 3 false false [] (-1) []
             (DedupModel.new_Dedup 0) 0 0 ∅ in
  let h : gmap MainloopModel.addr MainloopModel.Mainloop :=
    <[1%nat := m]> {[ MainloopModel.instance_addr := m ]} in
  MainloopModel.request_exit_at 1%nat 7 h !! MainloopModel.instance_addr
  = Some m.
Proof.
  intros m h.
  destruct (C2_request_exit_only_its_instance
              (λ _ _, MainloopModel.Rejected) (λ _ _, 0) h 1%nat m 7)
    as [Hframe _].
  - reflexivity.
  - rewrite Hframe by done. reflexivity.
Defined.

(* ===================================================================== *)
(** * Properties of the group-linking pass                                 *)
(* ===================================================================== *)

Section GroupFacts.
Import MainloopModel.

Lemma link_fold_members i e l :
  let e' := foldl (λ e' other,
                     if negb (Nat.eqb other i) &&
                        String.eqb (get_group_name e') (get_group_name e')
                     then link_group_member e' other else e') e l in
  ep_group_name e' = ep_group_name e ∧
  ep_group_members e' =
  ep_group_members e ++ filter (λ other, other ≠ i) l.
Proof.
  revert e. induction l as [|o l IH]; intros e; simpl.
  - by rewrite app_nil_r.
  - rewrite String.eqb_refl, andb_true_r.
    destruct (Nat.eqb_spec o i) as [->|Hne]; simpl.
    + destruct (IH e) as [Hg Hm]. rewrite filter_cons_False by (by intros ?).
      done.
    + destruct (IH (link_group_member e o)) as [Hg Hm].
      rewrite filter_cons_True by done. simpl in *.
      split; [done|]. by rewrite Hm, <- app_assoc.
Qed.

(** What the pass does: an endpoint with a non-empty group tag is linked to
    every other endpoint of the router; the tag of the other endpoint is
    never looked at. *)
Lemma link_groups_linked (eps : list Endpoint) (i j : nat) (e : Endpoint) :
  Forall (λ e, ep_group_members e = []) eps →
  eps !! i = Some e →
  linked (link_groups eps) i j ↔
  (j < length eps)%nat ∧ j ≠ i ∧ get_group_name e ≠ "".
Proof.
  intros Hall He. unfold linked, link_groups.
  rewrite list_lookup_imap, He. simpl.
  assert (ep_group_members e = []) as Hnil.
  { rewrite Forall_forall in Hall. apply Hall. by eapply list_elem_of_lookup_2. }
  unfold link_one. split.
  - intros (ep & [= <-] & Hin).
    destruct (String.eqb_spec (get_group_name e) "") as [Heq|Hne].
    + rewrite Hnil in Hin. by apply elem_of_nil in Hin.
    + destruct (link_fold_members i e (seq 0 (length eps))) as [_ Hm].
      rewrite Hm, Hnil in Hin. simpl in Hin.
      apply list_elem_of_filter in Hin as [Hji Hseq].
      apply elem_of_seq in Hseq. split; [lia|]. done.
  - intros (Hlt & Hji & Hne). eexists. split; [done|].
    destruct (String.eqb_spec (get_group_name e) "") as [Heq|_]; [done|].
    destruct (link_fold_members i e (seq 0 (length eps))) as [_ Hm].
    rewrite Hm. apply elem_of_app. right.
    apply list_elem_of_filter. split; [done|]. apply elem_of_seq. lia.
Qed.

End GroupFacts.

(** C9, the code at a failing input.  Two UDP endpoints, [A] with group tag
    "alpha" and [B] with group tag "beta": [add_endpoints] links [A] to [B]
    and [B] to [A] although their tags differ. *)
Theorem C9_add_endpoints_links_across_groups :
  let config :=
    Config.mkConfiguration 0 false []
      [Config.mkUdpConfig "A" "127.0.0.1" 14550 Config.Client "alpha";
       Config.mkUdpConfig "B" "127.0.0.1" 14551 Config.Client "beta"]
      [] 0 0 in
  let r := MainloopModel.add_endpoints
             (λ _, Some 3) (λ c, Some (Config.udp_port c)) (λ _, Some 4)
             (λ _, 5) MainloopModel.new_Mainloop config in
  r.1 = true ∧
  (MainloopModel.ep_group_name <$> MainloopModel.g_endpoints r.2)
  = ["alpha"; "beta"] ∧
  (MainloopModel.ep_group_members <$> MainloopModel.g_endpoints r.2)
  = [[1%nat]; [0%nat]].
Proof. vm_compute. done. Qed.

(* ===================================================================== *)
(** * Properties of the controller                                         *)
(* ===================================================================== *)

Section ControllerFacts.
Import RpcModel.

Variable terminates : nat → Z → bool.
Variable thread_local_instance : option MainloopModel.addr.

Abbreviation executeOperationOnThread :=
  (executeOperationOnThread terminates thread_local_instance).
Abbreviation stopThread := (stopThread terminates thread_local_instance).
Abbreviation startThread := (startThread terminates thread_local_instance).

(** C8 (amended).  With a restart callback registered for mainloop and the
    thread not registered: the stop operation on the thread mainloop answers
    ThreadNotFound, and the stop request, which folds every answer other
    than Success into Failed, returns Failed; neither changes anything.  The
    start request then runs the callback, which creates the thread and
    registers its id under "mainloop", and returns Success with that id. *)
Theorem C8_stop_then_start_unstarted_mainloop (w : World) :
  threadRegistry_ w !! "mainloop" = None →
  restartCallbacks_ w !! "mainloop" = Some MainloopRestart →
  executeOperationOnThread "mainloop" STOP w
  = (mkRpcResponse THREAD_NOT_FOUND ∅, w) ∧
  stopThread MAINLOOP w = (mkRpcResponse FAILED ∅, w) ∧
  let r := startThread MAINLOOP w in
  let id := ThreadMgr.next_id (threadManager_ w) in
  status r.1 = SUCCESS ∧
  threadId <$> (threadStates r.1 !! "mainloop") = Some id ∧
  threadRegistry_ r.2 !! "mainloop" = Some id ∧
  calls r.2 = calls w ++ [RestartCallback "mainloop"; CreateThread id;
                           RegisterThread id "mainloop"].
Proof.
  intros Hreg Hcb.
  assert (Hstop : executeOperationOnThread "mainloop" STOP w
                  = (mkRpcResponse THREAD_NOT_FOUND ∅, w)).
  { unfold RpcModel.executeOperationOnThread. by rewrite Hreg. }
  assert (Hnames : getThreadNamesForTarget MAINLOOP w = ["mainloop"]).
  { unfold getThreadNamesForTarget, names_for.
    rewrite Hreg, Hcb, bool_decide_eq_false_2 by (by intros [? ?]).
    by rewrite bool_decide_eq_true_2 by eauto. }
  split; [done|]. split.
  - unfold RpcModel.stopThread, executeRequest. rewrite Hnames. simpl.
    rewrite Hstop. simpl. by rewrite map_union_empty.
  - unfold RpcModel.startThread, executeRequest. rewrite Hnames. simpl.
    unfold RpcModel.executeOperationOnThread. rewrite Hreg, Hcb. simpl.
    rewrite lookup_insert_eq. simpl. rewrite map_union_empty.
    rewrite lookup_singleton_eq. simpl.
    split; [done|]. split.
    + unfold getThreadStateInfo. simpl. rewrite lookup_insert_eq.
      destruct (ThreadMgr.getThreadState _ _) as [st|]; [|done].
      by destruct (ThreadMgr.isThreadAlive _ _).
    + split; [done|]. by rewrite <- !app_assoc.
Qed.

End ControllerFacts.

(** Witness of C8: the program as main.cpp leaves it. *)
Lemma C8_stop_then_start_unstarted_mainloop_witness :
  RpcModel.status
    (RpcModel.startThread (λ _ _, true) None RpcModel.MAINLOOP
       RpcModel.world_after_main).1 = RpcModel.SUCCESS.
Proof.
  destruct (C8_stop_then_start_unstarted_mainloop (λ _ _, true) None
              RpcModel.world_after_main) as (_ & _ & Hstart & _).
  - reflexivity.
  - reflexivity.
  - exact Hstart.
Defined.

(** C8 as stated fails: the stop request returns Failed, not
    ThreadNotFound. *)
Lemma C8_stop_request_is_failed_counterexample :
  ¬ RpcModel.stop_unstarted_is_not_found RpcModel.world_after_main.
Proof. vm_compute. discriminate. Qed.

(** C3, the code at a failing input.  With the HTTP server thread (id 1)
    and the primary router thread (id 2) registered, a Stop request with
    target ALL issues [stopThread] on the HTTP server thread and sets its
    stop flag. *)
Theorem C3_stop_all_stops_http_server :
  let w := RpcModel.world_running in
  let r := RpcModel.stopThread (λ _ _, true) None RpcModel.ALL w in
  RpcModel.threadRegistry_ w !! "http_server" = Some 1%nat ∧
  RpcModel.StopThread 1 ∈ RpcModel.calls r.2 ∧
  ThreadMgr.th_stop_requested <$>
    (ThreadMgr.threads (RpcModel.threadManager_ r.2) !! 1%nat) = Some true.
Proof.
  intros w r. split; [by vm_compute|]. split; [|by vm_compute].
  assert (Hcalls : RpcModel.calls r.2 =
    RpcModel.calls w ++
    [RpcModel.StopThread 1; RpcModel.RequestExit MainloopModel.instance_addr 0])
    by (vm_compute; reflexivity).
  rewrite Hcalls. apply elem_of_app. right. by left.
Qed.

(* ===================================================================== *)
(** * Properties of the extension manager                                  *)
(* ===================================================================== *)

Section ExtensionFacts.
Import Config MainloopModel ExtensionModel.

(** ** The assignment of extension points *)

Lemma elem_of_usedPoints (m : Manager) (pt : string) :
  pt ∈ usedPoints m ↔
  pt ≠ "" ∧ ∃ n info, extensions_ m !! n = Some info ∧
                      assigned_extension_point (config info) = pt.
Proof.
  unfold usedPoints.
  rewrite elem_of_list_to_set, list_elem_of_filter, list_elem_of_fmap.
  split.
  - intros [Hne ([n info] & -> & Hin)]. split; [done|].
    apply elem_of_map_to_list in Hin. by exists n, info.
  - intros [Hne (n & info & Hin & <-)]. split; [done|].
    exists (n, info). split; [done|]. by apply elem_of_map_to_list.
Qed.

Lemma first_free_spec pool used names :
  contains pool "" = false →
  let pt := first_free pool used names in
  let pool_names := filter (λ n, contains pool n = true) names in
  if String.eqb pt "" then Forall (λ n, n ∈ used) pool_names
  else first_not_in used pool_names pt.
Proof.
  intros Hpool. induction names as [|n names IH]; simpl.
  - constructor.
  - rewrite filter_cons.
    destruct (contains pool n) eqn:Hc; simpl.
    + destruct (decide (n ∈ used)) as [Hin|Hnin].
      * simpl in IH. destruct (String.eqb_spec (first_free pool used names) "").
        -- by constructor.
        -- destruct IH as (l1 & l2 & -> & ? & ?).
           exists (n :: l1), l2. split; [done|]. split; [done|].
           by constructor.
      * destruct (String.eqb_spec n "") as [->|_]; [congruence|].
        exists [], (filter (λ n, contains pool n = true) names).
        split; [done|]. split; [done|]. constructor.
    + exact IH.
Qed.

Lemma assign_spec (m : Manager) (g : Configuration) (t : ExtensionType) :
  let pt := assignAvailableExtensionPoint m g t in
  if String.eqb pt "" then Forall (λ n, n ∈ usedPoints m) (pool_names g t)
  else first_not_in (usedPoints m) (pool_names g t) pt.
Proof.
  unfold assignAvailableExtensionPoint, pool_names.
  destruct t; by apply first_free_spec.
Qed.

(** The point chosen does not depend on what the client supplied. *)
Lemma createExtension_ignores_supplied_point rand c pt tc (m : Manager) :
  createExtension rand (with_thread_config c pt tc) m
  = createExtension rand c m.
Proof. done. Qed.

(** ** What every reachable manager satisfies *)

Lemma same_shape_refl m : same_shape m m.
Proof. done. Qed.

Lemma same_shape_trans m1 m2 m3 :
  same_shape m1 m2 → same_shape m2 m3 → same_shape m1 m3.
Proof. intros [? ?] [? ?]. split; congruence. Qed.

Lemma Inv_same_shape m m' : same_shape m m' → Inv m → Inv m'.
Proof.
  intros [He Hd] [Hp [Hi1 Hi2]]. split; [|split].
  - unfold points_distinct. rewrite He. exact Hp.
  - by rewrite Hd.
  - rewrite He. exact Hi2.
Qed.

Lemma same_shape_log c m : same_shape m (log c m).
Proof. done. Qed.

Lemma same_shape_tm_try c op m : same_shape m (tm_try c op m).2.
Proof. unfold tm_try. by destruct (op _). Qed.

Lemma same_shape_joinThread terminates id ms m :
  same_shape m (call_joinThread terminates id ms m).2.
Proof.
  unfold call_joinThread. by destruct (ThreadMgr.joinThread _ _ _ _) as [[? ?]|].
Qed.

Lemma same_shape_request_exit this retcode m :
  same_shape m (call_request_exit this retcode m).
Proof.
  split; [done|]. simpl. unfold request_exit_at. apply dom_alter_L.
Qed.

Lemma same_shape_force terminates id att m :
  same_shape m (force_termination terminates id att m).
Proof.
  unfold force_termination.
  pose proof (same_shape_tm_try (StopThread id) (ThreadMgr.stopThread id) m)
    as H1.
  destruct (tm_try _ _ m) as [[] m1]; simpl in H1; [|done].
  pose proof (same_shape_joinThread terminates id 2000 m1) as H2.
  destruct (call_joinThread _ _ _ m1) as [[b|] m2]; simpl in H2.
  - eapply same_shape_trans; [done|]. eapply same_shape_trans; [done|].
    apply same_shape_tm_try.
  - by eapply same_shape_trans.
Qed.

(** Records may disappear, lose their instance pointer, or change in what
    is neither their point nor their pointer. *)
Lemma Inv_shrink m exts :
  (∀ n i', exts !! n = Some i' →
     ∃ i, extensions_ m !! n = Some i ∧
          assigned_extension_point (config i')
          = assigned_extension_point (config i) ∧
          (mainloopInstance i' = None ∨
           mainloopInstance i' = mainloopInstance i)) →
  Inv m → Inv (set_extensions exts m).
Proof.
  intros Hsub [Hp [Hi1 Hi2]]. split; [|split]; simpl.
  - intros n1 n2 i1 i2 H1 H2 Hne. simpl in *.
    apply Hsub in H1 as (j1 & Hj1 & -> & _).
    apply Hsub in H2 as (j2 & Hj2 & -> & _).
    by eapply Hp.
  - done.
  - intros n i' a Hn Ha. simpl in *.
    apply Hsub in Hn as (i & Hi & _ & [Hnone|Hsame]); [congruence|].
    rewrite Hsame in Ha. by eapply Hi2.
Qed.

Lemma Inv_mark_stopped n m : Inv m → Inv (mark_stopped n m).
Proof.
  apply Inv_shrink. intros n' i'.
  destruct (decide (n = n')) as [<-|Hne].
  - rewrite lookup_alter_eq. destruct (extensions_ m !! n) as [i|] eqn:Hi;
      simpl; [|done].
    intros [= <-]. exists i. simpl. auto.
  - rewrite lookup_alter_ne by done. intros Hi'. exists i'. auto.
Qed.

Lemma Inv_delete n m :
  Inv m → Inv (set_extensions (delete n (extensions_ m)) m).
Proof.
  apply Inv_shrink. intros n' i' Hi'.
  apply lookup_delete_Some in Hi' as [_ Hi']. exists i'. auto.
Qed.

Lemma Inv_publish n m : Inv m → Inv (thread_publish n m).
Proof.
  intros [Hp [Hi1 Hi2]]. unfold thread_publish, create_extension_instance.
  assert (Hfresh : fresh (dom (mainloops m)) ≠ instance_addr).
  { intros Heq. pose proof (is_fresh (dom (mainloops m))) as Hf.
    rewrite Heq in Hf. done. }
  split; [|split]; simpl.
  - intros n1 n2 i1 i2. simpl.
    intros H1 H2 Hne.
    assert (∀ k i', alter (λ info, mkExtensionInfo (info_name info)
                (threadId info) (config info) (isRunning info)
                (Some (fresh (dom (mainloops m))))) n (extensions_ m) !! k
              = Some i' →
            ∃ i, extensions_ m !! k = Some i ∧ config i' = config i) as Hcfg.
    { intros k i'. destruct (decide (n = k)) as [<-|Hnk].
      - rewrite lookup_alter_eq.
        destruct (extensions_ m !! n) as [i|]; simpl; [|done].
        intros [= <-]. by exists i.
      - rewrite lookup_alter_ne by done. intros ?. by exists i'. }
    apply Hcfg in H1 as (j1 & Hj1 & ->). apply Hcfg in H2 as (j2 & Hj2 & ->).
    by eapply Hp.
  - rewrite dom_insert_L. apply elem_of_union. by right.
  - intros k i' a. simpl. destruct (decide (n = k)) as [<-|Hnk].
    + rewrite lookup_alter_eq.
      destruct (extensions_ m !! n) as [i|]; simpl; [|done].
      intros [= <-]. simpl. by intros [= <-].
    + rewrite lookup_alter_ne by done. apply Hi2.
Qed.

Lemma Inv_launch c m :
  same_shape m (launchExtensionThread c m).2.
Proof.
  unfold launchExtensionThread.
  by destruct (ThreadMgr.createThread _) as [id tm].
Qed.

Lemma Inv_save n m : same_shape m (saveExtensionConfig n m).2.
Proof.
  unfold saveExtensionConfig. destruct (extensions_ m !! n); [|done].
  cbv zeta. by destruct (decide _).
Qed.

(** A record added under a fresh name with a point no record holds. *)
Lemma Inv_insert n info m :
  extensions_ m !! n = None →
  (∀ k i, extensions_ m !! k = Some i →
          assigned_extension_point (config i)
          ≠ assigned_extension_point (config info)) →
  mainloopInstance info = None →
  Inv m → Inv (set_extensions (<[n := info]> (extensions_ m)) m).
Proof.
  intros Hn Hpt Hnone [Hp [Hi1 Hi2]]. split; [|split]; simpl.
  - intros n1 n2 i1 i2. simpl. intros H1 H2 Hne.
    apply lookup_insert_Some in H1 as [[<- <-]|[? H1]];
      apply lookup_insert_Some in H2 as [[<- <-]|[? H2]].
    + done.
    + intros Heq. by eapply Hpt.
    + by eapply Hpt.
    + by eapply Hp.
  - done.
  - intros k i a. simpl. intros Hk Ha.
    apply lookup_insert_Some in Hk as [[<- <-]|[? Hk]]; [congruence|].
    by eapply Hi2.
Qed.

Lemma first_not_in_elem used names pt :
  first_not_in used names pt → pt ∈ names ∧ pt ∉ used.
Proof.
  intros (l1 & l2 & -> & Hnin & _). split; [|done].
  apply elem_of_app. right. by left.
Qed.

Lemma assigned_point_unclaimed (m : Manager) g t k i :
  assignAvailableExtensionPoint m g t ≠ "" →
  extensions_ m !! k = Some i →
  assigned_extension_point (config i) ≠ assignAvailableExtensionPoint m g t.
Proof.
  intros Hne Hk Heq. pose proof (assign_spec m g t) as Hspec. simpl in Hspec.
  destruct (String.eqb_spec (assignAvailableExtensionPoint m g t) "");
    [done|].
  apply first_not_in_elem in Hspec as [_ Hnin]. apply Hnin.
  apply elem_of_usedPoints. split; [done|]. by exists k, i.
Qed.

(** What [createExtension] returns and leaves, case by case. *)
Lemma createExtension_cases rand c (m : Manager) g :
  globalConfig_ m = Some g →
  extensions_ m !! name c = None →
  let pt := assignAvailableExtensionPoint m g (type c) in
  let r := createExtension rand c m in
  (pt = "" ∧ r = ("No available extension points", m)) ∨
  (pt ≠ "" ∧ r.2 = m ∧ r.1 ≠ "Success" ∧
   (validateExtensionConfig c = false ∨
    ∃ err, build_thread_config g c pt rand = inl err)) ∨
  (pt ≠ "" ∧ validateExtensionConfig c = true ∧ r.1 = "Success" ∧
   ∃ tc id m1,
     build_thread_config g c pt rand = inr tc ∧
     same_shape m m1 ∧
     r.2 = (saveExtensionConfig (name c)
              (set_extensions
                 (<[name c := mkExtensionInfo (name c) id
                                 (with_thread_config c pt tc) true None]>
                    (extensions_ m1)) m1)).2).
Proof.
  intros Hg Hn pt r. subst pt r. unfold createExtension.
  rewrite Hn, bool_decide_eq_false_2 by (by intros [? ?]). rewrite Hg.
  destruct (String.eqb_spec (assignAvailableExtensionPoint m g (type c)) "")
    as [Hpt|Hpt]; [by left|].
  right. destruct (validateExtensionConfig c) eqn:Hval; cbn [negb].
  - destruct (build_thread_config _ _ _ _) as [err|tc] eqn:Hb.
    + left. split; [done|]. split; [done|]. split; [|by eauto].
      simpl. revert Hb. unfold build_thread_config.
      destruct (type c); [|done..].
      destruct (negb _); [by intros [= <-]|].
      destruct (list_find _ _) as [[? ?]|]; [done|]. by intros [= <-].
    + right. split; [done|]. split; [done|].
      pose proof (Inv_launch (with_thread_config c
                    (assignAvailableExtensionPoint m g (type c)) tc) m) as Hsh.
      destruct (launchExtensionThread _ m) as [id m1]. cbn [fst snd] in *.
      split; [done|]. exists tc, id, m1. done.
  - left. split; [done|]. split; [done|]. split; [done|]. by left.
Qed.

Lemma Inv_create rand c m : Inv m → Inv (createExtension rand c m).2.
Proof.
  intros HI.
  destruct (extensions_ m !! name c) as [i|] eqn:Hn.
  { unfold createExtension.
    by rewrite Hn, bool_decide_eq_true_2 by eauto. }
  destruct (globalConfig_ m) as [g|] eqn:Hg.
  2:{ unfold createExtension.
      by rewrite Hn, bool_decide_eq_false_2, Hg by (by intros [? ?]). }
  destruct (createExtension_cases rand c m g Hg Hn)
    as [[_ ->]|[(_ & -> & _)|(Hpt & _ & _ & tc & id & m1 & _ & Hsh & ->)]];
    [done|done|].
  eapply Inv_same_shape; [apply Inv_save|].
  pose proof Hsh as [He _].
  apply Inv_insert; simpl.
  - by rewrite He.
  - intros k i. rewrite He. by apply assigned_point_unclaimed.
  - done.
  - by eapply Inv_same_shape.
Qed.

Lemma Inv_start n m : Inv m → Inv (startExtension n m).2.
Proof.
  intros HI. unfold startExtension.
  destruct (extensions_ m !! n) as [info|] eqn:Hn; [|done].
  destruct (isRunning info); [done|].
  set (m1 := if Nat.eqb (threadId info) 0 then m else _).
  assert (same_shape m m1) as Hsh1.
  { subst m1. destruct (Nat.eqb _ _); [done|].
    eapply same_shape_trans; [apply same_shape_tm_try|].
    eapply same_shape_trans; [apply same_shape_tm_try|]. done. }
  pose proof (Inv_launch (config info) m1) as Hsh2.
  destruct (launchExtensionThread (config info) m1) as [id m2].
  simpl in *.
  assert (Inv m2) as HI2.
  { eapply Inv_same_shape; [|exact HI]. by eapply same_shape_trans. }
  revert HI2. apply Inv_shrink. intros n' i'.
  destruct (decide (n = n')) as [<-|Hne].
  - rewrite lookup_alter_eq. destruct (extensions_ m2 !! n) as [i|]; simpl;
      [|done].
    intros [= <-]. exists i. simpl. auto.
  - rewrite lookup_alter_ne by done. intros Hi'. exists i'. auto.
Qed.

Section WithEnv.
Variable terminates : nat → Z → bool.
Variable env : nat → Manager → Manager.
Hypothesis env_Inv : ∀ k m, Inv m → Inv (env k m).

Lemma Inv_wait n left retries m :
  Inv m → Inv (wait_for_instance env n left retries m).1.2.
Proof.
  revert retries m. induction left as [|left IH]; intros retries m HI; simpl;
    [done|].
  destruct (mainloopInstance <$> extensions_ m !! n) as [[a|]|]; [done|..].
  - assert (Inv (env retries (log (Sleep 50) m))) as HI1 by by apply env_Inv.
    destruct (extensions_ (env retries (log (Sleep 50) m)) !! n);
      [by apply IH|done].
  - assert (Inv (env retries (log (Sleep 50) m))) as HI1 by by apply env_Inv.
    destruct (extensions_ (env retries (log (Sleep 50) m)) !! n);
      [by apply IH|done].
Qed.

Lemma Inv_stop n m : Inv m → Inv (stopExtension terminates env n m).2.
Proof.
  intros HI. unfold stopExtension.
  destruct (extensions_ m !! n) as [info|]; [|done].
  destruct (isRunning info); cbn [negb]; [|done].
  pose proof (Inv_wait n maxRetries 0 m HI) as HI1.
  destruct (wait_for_instance env n maxRetries 0 m) as [[res m1] k].
  simpl in HI1. destruct res as [a| |].
  - pose proof (same_shape_request_exit a 0 m1) as Hsh2.
    pose proof (same_shape_joinThread terminates (threadId info) 5000
                  (call_request_exit a 0 m1)) as Hsh3.
    destruct (call_joinThread _ _ _ _) as [[b|] m3]; simpl in *.
    + apply Inv_mark_stopped. eapply Inv_same_shape; [|exact HI1].
      eapply same_shape_trans; [done|].
      eapply same_shape_trans; [done|]. apply same_shape_tm_try.
    + eapply Inv_same_shape; [|exact HI1]. by eapply same_shape_trans.
  - done.
  - simpl. apply Inv_mark_stopped.
    eapply Inv_same_shape; [apply same_shape_force|done].
Qed.

Lemma Inv_deleteExtension n m :
  Inv m → Inv (deleteExtension terminates env n m).2.
Proof.
  intros HI. unfold deleteExtension.
  destruct (extensions_ m !! n) as [info|]; [|done].
  set (stopped := if negb (isRunning info) then _ else _).
  assert (match stopped with inl m1 | inr m1 => Inv m1 end) as Hst.
  { subst stopped. destruct (isRunning info); cbn [negb]; [|done].
    pose proof (Inv_wait n maxRetries 0 m HI) as HI1.
    destruct (wait_for_instance env n maxRetries 0 m) as [[res m1] k].
    simpl in HI1. destruct res as [a| |]; [|done|].
    - pose proof (same_shape_request_exit a 0 m1) as Hsh2.
      pose proof (same_shape_joinThread terminates (threadId info) 5000
                    (call_request_exit a 0 m1)) as Hsh3.
      destruct (call_joinThread _ _ _ _) as [[b|] m3]; simpl in *.
      + apply Inv_mark_stopped. eapply Inv_same_shape; [|exact HI1].
        eapply same_shape_trans; [done|].
        eapply same_shape_trans; [done|]. apply same_shape_tm_try.
      + eapply Inv_same_shape; [|exact HI1]. by eapply same_shape_trans.
    - apply Inv_mark_stopped.
      eapply Inv_same_shape; [apply same_shape_force|done]. }
  destruct stopped as [m1|m1]; simpl; [done|].
  set (m2 := log _ _).
  assert (Inv m2) as HI2 by (eapply Inv_same_shape; [|exact Hst]; done).
  by apply (Inv_delete n m2).
Qed.

End WithEnv.

(** A thread that ends frees its instance, never the singleton; the records
    keep their pointers. *)
Lemma Inv_thread_end a m : Inv m → Inv (thread_end a m).
Proof.
  intros HI. unfold thread_end. destruct (decide (a = instance_addr)); [done|].
  destruct HI as [Hp [Hi1 Hi2]]. split; [exact Hp|]. split; [|exact Hi2].
  cbn [mainloops set_mainloops]. rewrite dom_delete_L.
  apply elem_of_difference. split; [done|].
  intros Hin. apply elem_of_singleton in Hin. by symmetry in Hin.
Qed.

Lemma Inv_atomic m a : Inv m → Inv (apply_atomic m a).
Proof.
  intros HI. destruct a; simpl.
  - eapply Inv_same_shape; [|exact HI]. done.
  - by apply Inv_create.
  - by apply Inv_start.
  - by apply Inv_publish.
  - by apply Inv_thread_end.
  - eapply Inv_same_shape; [|exact HI]. done.
  - by apply Inv_stop.
  - by apply Inv_deleteExtension.
Qed.

Lemma Inv_interleave others k m : Inv m → Inv (interleave others k m).
Proof.
  unfold interleave. generalize (others k). intros l. revert m.
  induction l as [|a l IH]; intros m HI; simpl; [done|].
  apply IH. by apply Inv_atomic.
Qed.

Lemma Inv_op m o : Inv m → Inv (apply_op m o).
Proof.
  intros HI. destruct o; simpl.
  - by apply Inv_atomic.
  - apply Inv_stop; [|done]. intros. by apply Inv_interleave.
  - apply Inv_deleteExtension; [|done]. intros. by apply Inv_interleave.
Qed.

Lemma Inv_new : Inv new_Manager.
Proof.
  split; [|split].
  - intros n1 n2 i1 i2 H1. simpl in H1. by rewrite lookup_empty in H1.
  - simpl. rewrite dom_singleton_L. by apply elem_of_singleton.
  - intros n i a H1. simpl in H1. by rewrite lookup_empty in H1.
Qed.

Lemma Inv_run ops : Inv (run ops).
Proof.
  unfold run. generalize Inv_new. generalize new_Manager.
  induction ops as [|o ops IH]; intros m HI; simpl; [done|].
  apply IH. by apply Inv_op.
Qed.

Lemma elem_of_pool_names g t pt :
  pt ∈ pool_names g t →
  match t with
  | INTERNAL => contains "internal-router-point" pt = true ∧
                pt ∈ udp_name <$> udp_configs g
  | TCP => pt ∈ tcp_name <$> tcp_configs g
  | UDP => pt ∈ udp_name <$> udp_configs g
  end.
Proof.
  unfold pool_names. destruct t; rewrite list_elem_of_filter; tauto.
Qed.

Lemma build_thread_config_ok g c pt rand :
  pt ∈ pool_names g (type c) →
  ∃ tc, build_thread_config g c pt rand = inr tc.
Proof.
  intros Hin%elem_of_pool_names. unfold build_thread_config.
  destruct (type c); [|by eexists..].
  destruct Hin as [-> Hin]. simpl.
  apply list_elem_of_fmap in Hin as (udp & -> & Hin).
  destruct (list_find_elem_of (λ u, udp_name u = udp_name udp)
              (udp_configs g) udp Hin eq_refl) as [[? ?] ->].
  by eexists.
Qed.

(** C6.  In every state the manager can reach, for a new extension name and
    with the primary router's configuration set: [createExtension] gives the
    same result whatever [assigned_extension_point] the client supplied; a
    record it creates carries the first name of the type's pool, in the
    order of the primary router's configuration, that no record claims; when
    every name of the pool is claimed it fails with "No available extension
    points" and changes nothing, and otherwise, the configuration being
    valid, it succeeds; afterwards no two records share an extension
    point. *)
Theorem C6_createExtension_auto_assigns
    (ops : list op) (rand : Z) (c : ExtensionConfig) (g : Configuration) :
  let m := run ops in
  globalConfig_ m = Some g →
  extensions_ m !! name c = None →
  let r := createExtension rand c m in
  let pool := pool_names g (type c) in
  (∀ pt tc, createExtension rand (with_thread_config c pt tc) m = r) ∧
  (∀ info, extensions_ r.2 !! name c = Some info →
           r.1 = "Success" ∧
           first_not_in (usedPoints m) pool
                        (assigned_extension_point (config info))) ∧
  (Forall (λ n, n ∈ usedPoints m) pool →
   r = ("No available extension points", m)) ∧
  (Exists (λ n, n ∉ usedPoints m) pool → validateExtensionConfig c = true →
   r.1 = "Success" ∧ is_Some (extensions_ r.2 !! name c)) ∧
  points_distinct r.2.
Proof.
  intros m Hg Hn r pool.
  pose proof (assign_spec m g (type c)) as Hspec. simpl in Hspec.
  pose proof (createExtension_cases rand c m g Hg Hn) as Hcases.
  simpl in Hcases. fold r in Hcases.
  assert (Hpt : assignAvailableExtensionPoint m g (type c) ≠ "" →
                first_not_in (usedPoints m) pool
                  (assignAvailableExtensionPoint m g (type c))).
  { intros Hne.
    by destruct (String.eqb_spec (assignAvailableExtensionPoint m g (type c)) ""). }
  split; [done|]. split; [|split; [|split]].
  - intros info Hinfo.
    destruct Hcases as [[_ Hr]|[(_ & Hr & _)|(Hne & _ & Hs & tc & id & m1
                                               & _ & _ & Hr)]].
    + rewrite Hr in Hinfo. simpl in Hinfo. congruence.
    + rewrite Hr in Hinfo. congruence.
    + split; [done|]. rewrite Hr in Hinfo.
      assert (extensions_ (saveExtensionConfig (name c)
                (set_extensions (<[name c := mkExtensionInfo (name c) id
                   (with_thread_config c
                      (assignAvailableExtensionPoint m g (type c)) tc)
                   true None]> (extensions_ m1)) m1)).2 !! name c
              = Some (mkExtensionInfo (name c) id
                   (with_thread_config c
                      (assignAvailableExtensionPoint m g (type c)) tc)
                   true None)) as Hl.
      { destruct (Inv_save (name c) (set_extensions (<[name c :=
                   mkExtensionInfo (name c) id
                   (with_thread_config c
                      (assignAvailableExtensionPoint m g (type c)) tc)
                   true None]> (extensions_ m1)) m1)) as [-> _].
        simpl. apply lookup_insert_eq. }
      rewrite Hl in Hinfo. injection Hinfo as <-. simpl. by apply Hpt.
  - intros Hall.
    destruct Hcases as [[_ Hr]|[(Hne & _)|(Hne & _)]]; [done|..];
      apply Hpt, first_not_in_elem in Hne as [Hin Hnin];
      rewrite Forall_forall in Hall; by apply Hall in Hin.
  - intros Hex Hval.
    destruct Hcases as [[Hemp _]|[(Hne & _ & _ & [Hv|[err Hb]])
                                  |(_ & _ & Hs & tc & id & m1 & _ & _ & Hr)]].
    + rewrite Hemp in Hspec. simpl in Hspec.
      apply Exists_exists in Hex as (n & Hin & Hnin).
      rewrite Forall_forall in Hspec. by apply Hspec in Hin.
    + congruence.
    + apply Hpt, first_not_in_elem in Hne as [Hin _].
      destruct (build_thread_config_ok g c _ rand Hin) as [tc Htc]. congruence.
    + split; [done|]. rewrite Hr.
      destruct (Inv_save (name c) (set_extensions (<[name c :=
                   mkExtensionInfo (name c) id
                   (with_thread_config c
                      (assignAvailableExtensionPoint m g (type c)) tc)
                   true None]> (extensions_ m1)) m1)) as [-> _].
      simpl. rewrite lookup_insert_eq. by eexists.
  - apply (Inv_create rand c m). apply Inv_run.
Qed.

(** ** Stopping an extension *)

Lemma wait_for_instance_spec env n left retries m res m1 k :
  wait_for_instance env n left retries m = (res, m1, k) →
  (retries ≤ k ≤ retries + left)%nat ∧
  match res with
  | Found p => mainloopInstance <$> extensions_ m1 !! n = Some (Some p)
  | Removed => extensions_ m1 !! n = None
  | NeverInitialized =>
      k = (retries + left)%nat ∧
      (is_Some (extensions_ m !! n) → is_Some (extensions_ m1 !! n))
  end.
Proof.
  revert retries m. induction left as [|left IH]; intros retries m; simpl.
  - intros [= <- <- <-]. split; [lia|]. split; [lia|done].
  - destruct (mainloopInstance <$> extensions_ m !! n) as [[a|]|] eqn:Hi.
    + intros [= <- <- <-]. split; [lia|done].
    + destruct (extensions_ (env retries (log (Sleep 50) m)) !! n) eqn:He.
      * intros Hw. apply IH in Hw as [? Hres]. split; [lia|].
        destruct res; [done|done|]. destruct Hres as [-> Hex].
        split; [lia|]. intros _. apply Hex. by rewrite He.
      * intros [= <- <- <-]. split; [lia|done].
    + destruct (extensions_ (env retries (log (Sleep 50) m)) !! n) eqn:He.
      * intros Hw. apply IH in Hw as [? Hres]. split; [lia|].
        destruct res; [done|done|]. destruct Hres as [-> Hex].
        split; [lia|]. intros _. apply Hex. by rewrite He.
      * intros [= <- <- <-]. split; [lia|done].
Qed.

Lemma mainloops_tm_try c op m : mainloops (tm_try c op m).2 = mainloops m.
Proof. unfold tm_try. by destruct (op _). Qed.

Lemma mainloops_joinThread terminates id ms m :
  mainloops (call_joinThread terminates id ms m).2 = mainloops m.
Proof.
  unfold call_joinThread. by destruct (ThreadMgr.joinThread _ _ _ _) as [[? ?]|].
Qed.

Lemma mainloops_force terminates id att m :
  mainloops (force_termination terminates id att m) = mainloops m.
Proof.
  unfold force_termination.
  pose proof (mainloops_tm_try (StopThread id) (ThreadMgr.stopThread id) m)
    as H1.
  destruct (tm_try _ _ m) as [[] m1]; simpl in H1; [|done].
  pose proof (mainloops_joinThread terminates id 2000 m1) as H2.
  destruct (call_joinThread _ _ _ m1) as [[b|] m2]; simpl in H2.
  - rewrite mainloops_tm_try. congruence.
  - congruence.
Qed.

Lemma mark_stopped_lookup n m info :
  extensions_ m !! n = Some info →
  extensions_ (mark_stopped n m) !! n
  = Some (mkExtensionInfo (info_name info) (threadId info) (config info)
                          false None).
Proof. intros Hi. simpl. by rewrite lookup_alter_eq, Hi. Qed.

(** X29.  What [stopExtension] does do.  In every state the manager can
    reach (calls of the interface, extension threads that publish their
    instance or end by themselves, changes of the file system), and whatever
    the other threads do during the sleeps, [stopExtension] of an existing
    record marked running sleeps at most 20 times (50 ms each) until the
    record shows a router-instance pointer ([wait_for_instance] is that
    wait, [res] its outcome and [m1] the manager after it).  When the wait
    finds a pointer [p] in the record, [p] is not the primary singleton's
    address.  If moreover an instance is live at [p] and the thread id read
    before the wait is still known to the thread manager, the answer is
    true, the calls made are [request_exit(0)] through [p], [joinThread]
    with a bound of 5000 ms and [unregisterThread], no instance other than
    the one at [p] changes (the primary singleton in particular), and the
    record is marked not running, with a null pointer.  Nothing says that
    the instance at [p] is the one this extension's thread created: after
    a thread ended by itself it need not be.  When no pointer is published
    during the 20 sleeps no [request_exit] is made, the answer is false and
    the record is marked not running; when the record is removed during the
    wait the answer is false and nothing else is done. *)
Theorem X29_stopExtension_wait_and_calls
    (ops : list op) (terminates : nat → Z → bool)
    (others : nat → list atomic_op) (n : string) (info : ExtensionInfo)
    (res : wait_result) (m1 : Manager) (sleeps : nat) :
  let m := run ops in
  extensions_ m !! n = Some info →
  isRunning info = true →
  wait_for_instance (interleave others) n maxRetries 0 m = (res, m1, sleeps) →
  let r := stopExtension terminates (interleave others) n m in
  (sleeps ≤ 20)%nat ∧
  match res with
  | Found p =>
      mainloopInstance <$> extensions_ m1 !! n = Some (Some p) ∧
      p ≠ instance_addr ∧
      (is_Some (mainloops m1 !! p) →
       is_Some (ThreadMgr.threads (threadManager_ m1) !! threadId info) →
       r.1 = true ∧
       calls r.2 = calls m1 ++ [RequestExit p 0;
                                JoinThread (threadId info) 5000;
                                UnregisterThread ("extension_" +:+ n)] ∧
       mainloops r.2 = request_exit_at p 0 (mainloops m1) ∧
       mainloops r.2 !! instance_addr = mainloops m1 !! instance_addr ∧
       isRunning <$> extensions_ r.2 !! n = Some false ∧
       mainloopInstance <$> extensions_ r.2 !! n = Some None)
  | NeverInitialized =>
      sleeps = 20%nat ∧ r.1 = false ∧
      mainloops r.2 = mainloops m1 ∧
      isRunning <$> extensions_ r.2 !! n = Some false
  | Removed => r = (false, m1)
  end.
Proof.
  intros m Hn Hrun Hw r. subst r. unfold stopExtension. rewrite Hn, Hrun, Hw. simpl.
  pose proof (wait_for_instance_spec _ _ _ _ _ _ _ _ Hw) as [Hk Hres].
  assert (Inv m1) as [_ [_ Hptr]].
  { pose proof (Inv_wait (interleave others)
                  (λ k m, Inv_interleave others k m) n maxRetries 0 m
                  (Inv_run ops)) as HI.
    by rewrite Hw in HI. }
  unfold maxRetries in Hk. split; [lia|].
  destruct res as [p| |].
  - destruct (extensions_ m1 !! n) as [info1|] eqn:Hn1; [|done].
    simpl in Hres. injection Hres as Hp.
    assert (p ≠ instance_addr) as Hne by by eapply Hptr.
    split; [simpl; by rewrite Hp|]. split; [done|]. intros _ [t Ht].
    unfold call_joinThread, ThreadMgr.joinThread. simpl. rewrite Ht.
    destruct (negb (ThreadMgr.th_alive t) || terminates (threadId info) 5000);
      simpl.
    + split; [done|]. rewrite !lookup_alter_eq.
      unfold tm_try. simpl.
      destruct (ThreadMgr.unregisterThread _ _); simpl;
        rewrite Hn1; simpl; rewrite <- !app_assoc; simpl;
        (split; [done|]); (split; [done|]);
        (split; [unfold request_exit_at; by rewrite lookup_alter_ne|]);
        by split.
    + split; [done|]. rewrite !lookup_alter_eq.
      unfold tm_try. simpl.
      destruct (ThreadMgr.unregisterThread _ _); simpl;
        rewrite Hn1; simpl; rewrite <- !app_assoc; simpl;
        (split; [done|]); (split; [done|]);
        (split; [unfold request_exit_at; by rewrite lookup_alter_ne|]);
        by split.
  - done.
  - destruct Hres as [-> Hex]. split; [done|]. split; [done|]. split.
    + simpl. apply mainloops_force.
    + simpl. rewrite lookup_alter_eq.
      destruct (same_shape_force terminates (threadId info)
                  ("extension_" +:+ n) m1) as [-> _].
      destruct Hex as [info1 ->]; [by rewrite Hn|]. done.
Qed.

(** C7, at the input where it fails.  The thread of extension "x" has
    published its instance, at address 1, and has ended by itself; the
    record of "x" still says running and still holds the pointer, where no
    instance lives any more.  Extension "y" is created and its instance is
    allocated at that address.  [stopExtension] of "x" finds the pointer at
    once, answers true, and its [request_exit(0)] reaches the instance of
    "y": the router of "y" is asked to exit with code 0, while the record of
    "y" says running. *)
Theorem C7_stopExtension_exits_another_instance :
  let m_pub := run published_ops in
  let m0 := run thread_ended_ops in
  let m := run address_reused_ops in
  let r := stopExtension (λ _ _, true) (λ _ m, m) "x" m in
  (mainloopInstance <$> extensions_ m_pub !! "x" = Some (Some 1%nat) ∧
   mainloops m_pub !! 1%nat = Some new_Mainloop) ∧
  (isRunning <$> extensions_ m0 !! "x" = Some true ∧
   mainloopInstance <$> extensions_ m0 !! "x" = Some (Some 1%nat) ∧
   mainloops m0 !! 1%nat = None) ∧
  (isRunning <$> extensions_ m !! "x" = Some true ∧
   mainloopInstance <$> extensions_ m !! "x" = Some (Some 1%nat) ∧
   mainloopInstance <$> extensions_ m !! "y" = Some (Some 1%nat) ∧
   _should_exit <$> mainloops m !! 1%nat = Some false) ∧
  r.1 = true ∧
  calls r.2 = calls m ++ [RequestExit 1%nat 0; JoinThread 1 5000;
                          UnregisterThread "extension_x"] ∧
  _should_exit <$> mainloops r.2 !! 1%nat = Some true ∧
  _retcode <$> mainloops r.2 !! 1%nat = Some 0 ∧
  isRunning <$> extensions_ r.2 !! "y" = Some true ∧
  mainloopInstance <$> extensions_ r.2 !! "y" = Some (Some 1%nat).
Proof. vm_compute. repeat split. Qed.

End ExtensionFacts.

(** Witness of C6: "x" holds udp-extension-point-1; "y" asks for that very
    point and is created on udp-extension-point-2. *)
Lemma C6_createExtension_auto_assigns_witness :
  let r := ExtensionModel.createExtension 3
             (ExtensionModel.sample_extension "y" "udp-extension-point-1")
             (ExtensionModel.run ExtensionModel.sample_ops) in
  r.1 = "Success" ∧
  (ExtensionModel.assigned_extension_point ∘ ExtensionModel.config) <$>
    (ExtensionModel.extensions_ r.2 !! "y") = Some "udp-extension-point-2".
Proof.
  intros r.
  destruct (C6_createExtension_auto_assigns ExtensionModel.sample_ops 3
              (ExtensionModel.sample_extension "y" "udp-extension-point-1")
              ExtensionModel.sample_global)
    as (_ & _ & _ & Hsuccess & _).
  - vm_compute. reflexivity.
  - vm_compute. reflexivity.
  - destruct Hsuccess as [Hs [info Hinfo]].
    + apply Exists_exists. exists "udp-extension-point-2". split.
      * replace (ExtensionModel.pool_names _ _)
          with ["udp-extension-point-1"; "udp-extension-point-2"]
          by (vm_compute; reflexivity).
        apply elem_of_cons. right. apply elem_of_cons. by left.
      * apply (bool_decide_unpack _). vm_compute. reflexivity.
    + reflexivity.
    + split; [exact Hs|]. subst r.
      change (ExtensionModel.name
                (ExtensionModel.sample_extension "y" "udp-extension-point-1"))
        with "y" in Hinfo.
      rewrite Hinfo. simpl. f_equal.
      revert Hinfo. vm_compute. by intros [= <-].
Defined.

(** Witness of X29: the instance of "x" is published during the third
    sleep of the wait. *)
Lemma X29_stopExtension_wait_and_calls_witness :
  (ExtensionModel.stopExtension (λ _ _, true)
     (ExtensionModel.interleave ExtensionModel.sample_others) "x"
     (ExtensionModel.run ExtensionModel.sample_ops)).1 = true.
Proof.
  edestruct (X29_stopExtension_wait_and_calls
               ExtensionModel.sample_ops (λ _ _, true)
               ExtensionModel.sample_others "x"
               ExtensionModel.sample_record) as [_ Hfound].
  - vm_compute. reflexivity.
  - vm_compute. reflexivity.
  - vm_compute. reflexivity.
  - destruct Hfound as (_ & _ & Hstop).
    destruct Hstop as [Hr _]; [| |exact Hr]; vm_compute; eauto.
Defined.

(* ===================================================================== *)
(** * Further properties of the de-duplication cache                       *)
(* ===================================================================== *)

Section DedupMore.
Import DedupModel.

Variable std_hash : payload → Z.

(** X1.  With a period of 0 the cache is bypassed: every check of every
    trace is answered New and the cache is left exactly as it was, whatever
    it held. *)
Theorem X1_dedup_period_zero_bypasses (i : option DedupImpl)
    (cs : list (Z * payload)) :
  run std_hash (mkDedup 0 i) cs
  = (replicate (length cs) NEW_PACKET_OR_TIMED_OUT, mkDedup 0 i).
Proof.
  induction cs as [|[t p] cs IH]; [done|].
  cbn [run length replicate]. unfold check_packet.
  cbn [_dedup_period_ms]. change (0 =? 0) with true. cbv iota.
  by rewrite IH.
Qed.

Lemma impl_check_queue_wf period (d : DedupImpl) now p r d' :
  queue_wf (_time_hash_queue d) (_packet_hash_set d) →
  impl_check_packet std_hash d now p period = (r, d') →
  queue_wf (_time_hash_queue d') (_packet_hash_set d') ∧
  (length (_time_hash_queue d') ≤
   length (_time_hash_queue d) + (if r then 1 else 0))%nat.
Proof.
  intros Hwf. unfold impl_check_packet.
  destruct (expire _ period _ _) as [q1 s1] eqn:Hex.
  apply expire_decomp in Hex as [Hwf1 (pre & Hq & _ & _)]; [|done].
  assert (length q1 ≤ length (_time_hash_queue d))%nat as Hlen.
  { rewrite Hq, length_app. lia. }
  destruct (decide (std_hash p ∈ s1)) as [Hin|Hnin]; intros [= <- <-]; simpl.
  - split; [done|lia].
  - split; [|rewrite length_app; simpl; lia].
    destruct Hwf1 as [-> Hnd]. split.
    + rewrite fmap_app, list_to_set_app_L. simpl.
      rewrite union_empty_r_L. apply union_comm_L.
    + rewrite fmap_app. apply NoDup_app. split; [done|]. split.
      * intros x Hx Hx'. apply list_elem_of_singleton in Hx'. subst x.
        apply Hnin. by apply elem_of_list_to_set.
      * apply NoDup_singleton.
Qed.

Lemma run_queue_wf period (i : DedupImpl) cs sts d :
  queue_wf (_time_hash_queue i) (_packet_hash_set i) →
  run std_hash (mkDedup period (Some i)) cs = (sts, d) →
  ∃ i', d = mkDedup period (Some i') ∧
        queue_wf (_time_hash_queue i') (_packet_hash_set i') ∧
        (length (_time_hash_queue i') ≤
         length (_time_hash_queue i) + length (inserted cs sts))%nat.
Proof.
  revert i sts d. induction cs as [|[t p] cs IH]; intros i sts d Hwf; simpl.
  - intros [= <- <-]. exists i. split; [done|]. split; [done|lia].
  - destruct (Z.eqb_spec period 0) as [->|Hne].
    + unfold check_packet. cbn [_dedup_period_ms].
      change (0 =? 0) with true. cbv iota.
      destruct (run _ _ cs) as [sts' d'] eqn:Hrun. intros [= <- <-].
      apply IH in Hrun as (i' & -> & Hwf' & Hlen); [|done].
      exists i'. split; [done|]. split; [done|]. simpl. lia.
    + rewrite check_packet_unfold by done.
      destruct (impl_check_packet _ _ _ _ _) as [r i1] eqn:Hchk.
      apply impl_check_queue_wf in Hchk as [Hwf1 Hlen1]; [|done].
      destruct (run _ _ cs) as [sts' d'] eqn:Hrun. intros [= <- <-].
      apply IH in Hrun as (i' & -> & Hwf' & Hlen); [|done].
      exists i'. split; [done|]. split; [done|].
      destruct r; simpl; lia.
Qed.

(** X2.  Whatever the period and whatever the clock does (going backwards
    and wrapping included), after any trace of checks on a fresh cache the
    hash set mirrors the queue: it holds exactly the queued hashes, no hash
    is queued twice, both have the same size, and that size is at most the
    number of checks answered New. *)
Theorem X2_dedup_set_mirrors_queue (period : Z) (cs : list (Z * payload)) :
  let r := run std_hash (new_Dedup period) cs in
  ∃ i, _impl r.2 = Some i ∧
       _packet_hash_set i = list_to_set (_time_hash_queue i).*2 ∧
       NoDup (_time_hash_queue i).*2 ∧
       size (_packet_hash_set i) = length (_time_hash_queue i) ∧
       (length (_time_hash_queue i) ≤ length (inserted cs r.1))%nat.
Proof.
  simpl. destruct (run _ _ cs) as [sts d] eqn:Hrun.
  apply (run_queue_wf period (mkImpl [] ∅)) in Hrun
    as (i & -> & [Hset Hnd] & Hlen); [|split; [done|constructor]].
  exists i. simpl in *. split; [done|]. split; [done|]. split; [done|].
  split; [|lia].
  rewrite Hset, size_list_to_set by done. by rewrite length_fmap.
Qed.

End DedupMore.

(* ===================================================================== *)
(** * Further properties of routing and of the event loop                  *)
(* ===================================================================== *)

Section RoutingMore.
Import MainloopModel LifecycleModel.

Variable accept_msg : Endpoint → buffer → AcceptState.
Variable endpoint_write_msg : Endpoint → buffer → Z.

Abbreviation route_loop' := (MainloopModel.route_loop accept_msg endpoint_write_msg).
Abbreviation route_msg' := (MainloopModel.route_msg accept_msg endpoint_write_msg).
Abbreviation handle_event' := (handle_event accept_msg endpoint_write_msg).
Abbreviation loop_while' := (loop_while accept_msg endpoint_write_msg).
Abbreviation loop' := (loop accept_msg endpoint_write_msg).

Lemma route_loop_hangups buf i eps st :
  rs_hangups (route_loop' buf i eps st) =
  rs_hangups st ||
  existsb (λ e, bool_decide (accept_msg e buf = Accepted) &&
                (endpoint_write_msg e buf =? - EPIPE)) eps.
Proof.
  revert i st. induction eps as [|e eps IH]; intros i st; simpl.
  - by rewrite orb_false_r.
  - rewrite IH. unfold route_one, write_msg.
    destruct (accept_msg e buf) eqn:Hacc; simpl; [|done..].
    destruct (endpoint_write_msg e buf =? - EPIPE); simpl; [|done].
    by rewrite orb_true_r.
Qed.

(** X3.  Routing a frame raises the hang-up flag exactly when an accepting
    endpoint's write returned -EPIPE (a flag already raised stays raised),
    and leaves the endpoints, the exit flag, the retcode, the descriptors,
    the timeouts and the de-duplication cache of the router untouched. *)
Theorem X3_route_msg_hangup_flag (m : Mainloop) (buf : buffer) :
  let m' := (route_msg' m buf).1 in
  should_process_tcp_hangups m' =
    should_process_tcp_hangups m ||
    existsb (λ e, bool_decide (accept_msg e buf = Accepted) &&
                  (endpoint_write_msg e buf =? - EPIPE)) (g_endpoints m) ∧
  g_endpoints m' = g_endpoints m ∧
  _should_exit m' = _should_exit m ∧
  _retcode m' = _retcode m ∧
  epollfd m' = epollfd m ∧
  g_tcp_fd m' = g_tcp_fd m ∧
  _timeouts m' = _timeouts m ∧
  _msg_dedup m' = _msg_dedup m ∧
  _tracked_fds m' = _tracked_fds m.
Proof.
  simpl. unfold MainloopModel.route_msg. cbn [fst].
  destruct (rs_unknown _); simpl; rewrite route_loop_hangups; simpl; done.
Qed.

Lemma polled_app a b : polled (a ++ b) = polled a ++ polled b.
Proof. unfold polled. apply omap_app. Qed.

Lemma route_loop_polled buf i eps st :
  polled (rs_log (route_loop' buf i eps st)) =
  polled (rs_log st) ++
  ((λ e, (ep_fd e, Z.lor EPOLLIN EPOLLOUT)) <$>
   filter (λ e, accept_msg e buf = Accepted ∧
                endpoint_write_msg e buf = - EAGAIN) eps).
Proof.
  revert i st. induction eps as [|e eps IH]; intros i st; simpl.
  - by rewrite app_nil_r.
  - rewrite IH. unfold route_one, write_msg.
    destruct (accept_msg e buf) eqn:Hacc; simpl.
    + rewrite polled_app. simpl.
      destruct (Z.eqb_spec (endpoint_write_msg e buf) (- EAGAIN)) as [Heq|Hne].
      * rewrite filter_cons_True by done. simpl. by rewrite <- app_assoc.
      * rewrite filter_cons_False by (by intros [_ ?]). simpl.
        by rewrite app_nil_r.
    + rewrite filter_cons_False by (intros [? _]; congruence). done.
    + rewrite filter_cons_False by (intros [? _]; congruence). done.
Qed.

(** X4.  While routing a frame the router asks for write-readiness
    notification (EPOLLIN | EPOLLOUT on the endpoint's descriptor) for exactly
    the accepting endpoints whose write returned -EAGAIN, in the order of the
    endpoint list, and changes the polled events of no other descriptor. *)
Theorem X4_route_msg_polls_blocked_writers (m : Mainloop) (buf : buffer) :
  polled (route_msg' m buf).2 =
  (λ e, (ep_fd e, Z.lor EPOLLIN EPOLLOUT)) <$>
  filter (λ e, accept_msg e buf = Accepted ∧
               endpoint_write_msg e buf = - EAGAIN) (g_endpoints m).
Proof.
  unfold MainloopModel.route_msg. cbn [snd]. by rewrite route_loop_polled.
Qed.

Lemma route_msg_exit_state m buf :
  exit_state (route_msg' m buf).1 = exit_state m.
Proof.
  unfold MainloopModel.route_msg, exit_state. cbn [fst].
  by destruct (rs_unknown _).
Qed.

Lemma route_frames_exit_state frames m :
  exit_state (foldl (λ acc buf, (route_msg' acc buf).1) m frames)
  = exit_state m.
Proof.
  revert m. induction frames as [|b frames IH]; intros m; [done|].
  cbn [foldl]. rewrite IH. apply route_msg_exit_state.
Qed.

Lemma untrack_fd_exit_state fd m : exit_state (untrack_fd fd m) = exit_state m.
Proof. unfold untrack_fd. by destruct (fd <? 0). Qed.

Lemma track_fd_exit_state fd d m : exit_state (track_fd fd d m) = exit_state m.
Proof. unfold track_fd. by destruct (fd <? 0). Qed.

Lemma exit_state_set_hangups b m : exit_state (set_hangups b m) = exit_state m.
Proof. done. Qed.

Lemma handle_event_calm m ev :
  critical_error ev = false →
  exit_state (handle_event' m ev) = exit_state m.
Proof.
  unfold critical_error, handle_event. intros Hcalm.
  destruct (ev_listener ev).
  { unfold handle_tcp_connection. by destruct (ev_accepted ev). }
  cbv zeta. simpl in Hcalm.
  assert (∀ x, exit_state (set_valid (ev_pollable ev) (ev_valid ev) x)
               = exit_state x) as Hsv.
  { intros x. unfold set_valid. by destruct (ev_pollable ev). }
  pose proof (route_frames_exit_state (ev_frames ev) m) as Hfr.
  destruct (ev_in ev), (ev_err ev), (ev_critical ev), (ev_uart ev),
    ((ev_rd ev <? 0) && negb (ev_valid ev));
    try discriminate Hcalm;
    rewrite ?exit_state_set_hangups, ?Hsv, ?Hfr; done.
Qed.

Lemma handle_event_critical m ev :
  critical_error ev = true →
  exit_state (handle_event' m ev) = (true, EXIT_FAILURE).
Proof.
  unfold critical_error, handle_event. intros Hcrit.
  destruct (ev_listener ev); [done|]. simpl in Hcrit.
  destruct (ev_err ev); [|done]. simpl in Hcrit. by rewrite Hcrit.
Qed.

Lemma handle_events_exited evs m :
  exit_state m = (true, EXIT_FAILURE) →
  exit_state (foldl handle_event' m evs) = (true, EXIT_FAILURE).
Proof.
  revert m. induction evs as [|ev evs IH]; intros m Hm; simpl; [done|].
  apply IH. destruct (critical_error ev) eqn:Hc.
  - by apply handle_event_critical.
  - by rewrite handle_event_calm.
Qed.

Lemma handle_events_critical evs m :
  existsb critical_error evs = true →
  exit_state (foldl handle_event' m evs) = (true, EXIT_FAILURE).
Proof.
  revert m. induction evs as [|ev evs IH]; intros m; simpl; [done|].
  destruct (critical_error ev) eqn:Hc; simpl.
  - intros _. apply handle_events_exited. by apply handle_event_critical.
  - apply IH.
Qed.

Lemma handle_events_calm evs m :
  forallb (λ ev, negb (critical_error ev)) evs = true →
  exit_state (foldl handle_event' m evs) = exit_state m.
Proof.
  revert m. induction evs as [|ev evs IH]; intros m; simpl; [done|].
  intros [Hc Hrest]%andb_true_iff. apply negb_true_iff in Hc.
  by rewrite IH, handle_event_calm.
Qed.

Lemma untrack_all_exit_state (gone : list Timeout) m :
  exit_state (foldl (λ acc t, untrack_fd (timeout_fd t) acc) m gone)
  = exit_state m.
Proof.
  revert m. induction gone as [|t gone IH]; intros m; [done|].
  cbn [foldl]. rewrite IH. apply untrack_fd_exit_state.
Qed.

Lemma end_of_iteration_exit_state m :
  exit_state (end_of_iteration m) = exit_state m.
Proof.
  unfold end_of_iteration, _del_timeouts.
  rewrite untrack_all_exit_state.
  by destruct (should_process_tcp_hangups m).
Qed.

Lemma exit_state_flag m b r : exit_state m = (b, r) → _should_exit m = b.
Proof. by intros [= ? ?]. Qed.

(** A prefix of readiness results without critical error is gone through
    without leaving, and without touching the exit flag or the retcode. *)
Lemma loop_while_calm_prefix pre m :
  _should_exit m = false →
  forallb calm pre = true →
  ∃ m1, exit_state m1 = exit_state m ∧
        ∀ rest, loop_while' (pre ++ rest) m = loop_while' rest m1.
Proof.
  revert m. induction pre as [|r pre IH]; intros m Hexit Hcalm.
  - by exists m.
  - simpl in Hcalm. apply andb_true_iff in Hcalm as [Hr Hpre].
    assert (∀ m0, exit_state m0 = exit_state m →
                  ∃ m1, exit_state m1 = exit_state m ∧
                        ∀ rest, loop_while' (pre ++ rest) m0
                                = loop_while' rest m1) as Hnext.
    { intros m0 Hm0. destruct (IH m0) as (m1 & Hm1 & Hrun); [|done|].
      - apply (exit_state_flag _ _ (_retcode m)). rewrite Hm0.
        unfold exit_state. by rewrite Hexit.
      - exists m1. split; [congruence|done]. }
    destruct r as [| | |evs].
    + destruct (Hnext m) as (m1 & Hm1 & Hrun); [done|].
      exists m1. split; [done|]. intros rest. simpl. by rewrite Hexit.
    + destruct (Hnext (end_of_iteration m)) as (m1 & Hm1 & Hrun).
      { apply end_of_iteration_exit_state. }
      exists m1. split; [done|]. intros rest. simpl. by rewrite Hexit.
    + destruct (Hnext m) as (m1 & Hm1 & Hrun); [done|].
      exists m1. split; [done|]. intros rest. simpl. by rewrite Hexit.
    + destruct (Hnext (end_of_iteration (foldl handle_event' m evs)))
        as (m1 & Hm1 & Hrun).
      { rewrite end_of_iteration_exit_state. by apply handle_events_calm. }
      exists m1. split; [done|]. intros rest. simpl. by rewrite Hexit.
Qed.

Lemma add_timeout_exit_state fd m :
  exit_state (add_timeout fd m) = exit_state m.
Proof.
  unfold add_timeout. destruct (fd <? 0); [done|].
  by rewrite track_fd_exit_state.
Qed.

(** X5.  An open router that was not asked to exit keeps looping as long as
    no critical descriptor reports an error: time-outs, interrupted and
    failed waits, reads, hang-ups and errors on non-critical descriptors
    never make [loop] return. *)
Theorem X5_loop_runs_until_asked (timer_fd : Z) (script : list epoll_result)
    (m : Mainloop) :
  0 ≤ epollfd m →
  _should_exit m = false →
  forallb calm script = true →
  loop' timer_fd script m = None.
Proof.
  intros Hopen Hexit Hcalm. unfold loop.
  replace (epollfd m <? 0) with false by (symmetry; by apply Z.ltb_ge).
  destruct (loop_while_calm_prefix script (add_timeout timer_fd m))
    as (m1 & Hm1 & Hrun); [|done|].
  { apply (exit_state_flag _ _ (_retcode m)).
    rewrite add_timeout_exit_state. unfold exit_state. by rewrite Hexit. }
  specialize (Hrun []). rewrite app_nil_r in Hrun. rewrite Hrun. simpl.
  rewrite add_timeout_exit_state in Hm1.
  assert (_should_exit m1 = false) as ->; [|done].
  apply (exit_state_flag _ _ (_retcode m)). rewrite Hm1.
  unfold exit_state. by rewrite Hexit.
Qed.

(** X6.  As soon as a batch of events holds an error on a critical
    descriptor, [loop] finishes that batch, leaves, and returns EXIT_FAILURE
    with the endpoints and the timeouts released, whatever the other events
    of the batch were and whatever would have come later. *)
Theorem X6_loop_critical_error_exits (timer_fd : Z)
    (pre : list epoll_result) (evs : list event) (rest : list epoll_result)
    (m : Mainloop) :
  0 ≤ epollfd m →
  _should_exit m = false →
  forallb calm pre = true →
  existsb critical_error evs = true →
  ∃ m', loop' timer_fd (pre ++ WaitEvents evs :: rest) m
        = Some (EXIT_FAILURE, m') ∧
        _should_exit m' = true ∧ g_endpoints m' = [] ∧ _timeouts m' = [].
Proof.
  intros Hopen Hexit Hcalm Hcrit. unfold loop.
  replace (epollfd m <? 0) with false by (symmetry; by apply Z.ltb_ge).
  assert (exit_state (add_timeout timer_fd m) = (false, _retcode m)) as Hst.
  { rewrite add_timeout_exit_state. unfold exit_state. by rewrite Hexit. }
  destruct (loop_while_calm_prefix pre (add_timeout timer_fd m))
    as (m1 & Hm1 & Hrun); [by eapply exit_state_flag|done|].
  rewrite Hrun. rewrite Hst in Hm1.
  cbn [loop_while]. rewrite (exit_state_flag _ _ _ Hm1).
  pose proof (handle_events_critical evs m1 Hcrit) as Hm2.
  rewrite <- end_of_iteration_exit_state in Hm2.
  rewrite loop_while_exit by (by eapply exit_state_flag).
  injection Hm2 as Hflag Hret.
  eexists. split; [by rewrite Hret|]. simpl. done.
Qed.

End RoutingMore.

(** Witness of X5: an open router with one UDP endpoint; a time-out, an
    interrupted wait and a read that routes one frame do not end the loop. *)
Lemma X5_loop_runs_until_asked_witness :
  let ep := MainloopModel.mkEndpoint MainloopModel.ENDPOINT_TYPE_UDP "A" 5 ""
              [] true false in
  let m := MainloopModel.mkMainloop 3 false false [ep] (-1) []
             (DedupModel.new_Dedup 0) 0 0 ∅ in
  let ev := MainloopModel.mkEvent false true false false None (Some 0%nat)
              [MainloopModel.mkBuffer [] 42 0 0 1 1] 1 true false false in
  MainloopModel.loop (λ _ _, MainloopModel.Accepted) (λ _ _, 0) 7
    [MainloopModel.WaitTimeout; MainloopModel.WaitEINTR;
     MainloopModel.WaitEvents [ev]] m = None.
Proof.
  intros ep m ev. apply X5_loop_runs_until_asked.
  - simpl. lia.
  - reflexivity.
  - reflexivity.
Defined.

(** Witness of X6: after a time-out, one batch with a read and with an error
    on a critical descriptor. *)
Lemma X6_loop_critical_error_exits_witness :
  let m := MainloopModel.mkMainloop 3 false false [] (-1) []
             (DedupModel.new_Dedup 0) 0 0 ∅ in
  let rd := MainloopModel.mkEvent false true false false None None
              [] 1 true false false in
  let err := MainloopModel.mkEvent false false false true None None
               [] 0 true true false in
  fst <$> MainloopModel.loop (λ _ _, MainloopModel.Rejected) (λ _ _, 0) 7
            ([MainloopModel.WaitTimeout] ++
             MainloopModel.WaitEvents [rd; err; rd] ::
             [MainloopModel.WaitTimeout]) m
  = Some MainloopModel.EXIT_FAILURE.
Proof.
  intros m rd err.
  destruct (X6_loop_critical_error_exits
              (λ _ _, MainloopModel.Rejected) (λ _ _, 0) 7
              [MainloopModel.WaitTimeout] [rd; err; rd]
              [MainloopModel.WaitTimeout] m) as (m' & Hloop & _).
  - simpl. lia.
  - reflexivity.
  - reflexivity.
  - reflexivity.
  - rewrite Hloop. reflexivity.
Defined.

(* ===================================================================== *)
(** * Properties of a router instance's life: opening, timeouts,
      descriptors, destruction                                             *)
(* ===================================================================== *)

Section LifecycleFacts.
Import MainloopModel LifecycleModel.

Variable accept_msg : Endpoint → buffer → AcceptState.
Variable endpoint_write_msg : Endpoint → buffer → Z.

Lemma loop_exited timer_fd script m :
  0 ≤ epollfd m → _should_exit m = true →
  fst <$> loop accept_msg endpoint_write_msg timer_fd script m
  = Some (_retcode m).
Proof.
  intros Hopen Hexit. unfold loop.
  replace (epollfd m <? 0) with false by (symmetry; by apply Z.ltb_ge).
  pose proof (add_timeout_exit timer_fd m) as [He Hr].
  rewrite loop_while_exit by (by rewrite He).
  simpl. by rewrite Hr.
Qed.

(** X7.  [open()] does not clear a pending exit request but overwrites its
    retcode.  On a closed router it succeeds, tracks the new epoll
    descriptor, and [loop()] then returns at once with 0; on a router that
    is already open it returns -EBUSY, keeps the descriptors, and [loop()]
    then returns at once with -1.  Either way the retcode passed to
    [request_exit] is lost. *)
Theorem X7_open_overwrites_requested_retcode (rc created timer_fd : Z)
    (script : list epoll_result) (m : Mainloop) :
  0 ≤ created →
  let r := open created (request_exit rc m) in
  (epollfd m = -1 →
     r.1 = 0 ∧ epollfd r.2 = created ∧
     _tracked_fds r.2 = <[created := "EPOLL"]> (_tracked_fds m) ∧
     fst <$> loop accept_msg endpoint_write_msg timer_fd script r.2 = Some 0) ∧
  (0 ≤ epollfd m →
     r.1 = - EBUSY ∧ epollfd r.2 = epollfd m ∧
     _tracked_fds r.2 = _tracked_fds m ∧
     fst <$> loop accept_msg endpoint_write_msg timer_fd script r.2
     = Some (-1)).
Proof.
  intros Hcreated r. subst r. unfold open. cbn [set_retcode request_exit epollfd].
  split.
  - intros ->. change (negb (-1 =? -1)) with false. cbv iota.
    cbn [set_epollfd epollfd].
    destruct (Z.eqb_spec created (-1)) as [?|_]; [lia|].
    unfold track_fd.
    replace (created <? 0) with false by (symmetry; by apply Z.ltb_ge).
    cbn. split; [done|]. split; [done|]. split; [done|].
    rewrite loop_exited; done.
  - intros Hopen.
    destruct (Z.eqb_spec (epollfd m) (-1)) as [?|_]; [lia|].
    cbn. split; [done|]. split; [done|]. split; [done|].
    rewrite loop_exited; done.
Qed.

Lemma untrack_track fd d m :
  _tracked_fds m !! fd = None → untrack_fd fd (track_fd fd d m) = m.
Proof.
  intros Hnone. unfold untrack_fd, track_fd.
  destruct (fd <? 0); [done|]. simpl.
  rewrite delete_insert_eq, delete_id by done. by destruct m.
Qed.

Lemma filter_kept_all (ts : list Timeout) :
  Forall (λ t, remove_me t = false) ts →
  filter (λ t, remove_me t = false) ts = ts ∧
  filter (λ t, remove_me t = true) ts = [].
Proof.
  induction 1 as [|t ts Ht _ [IH1 IH2]]; [done|].
  rewrite filter_cons_True, filter_cons_False by (by rewrite ?Ht).
  by rewrite IH1, IH2.
Qed.

(** X8.  A timeout that is added and then deleted leaves no trace once the
    loop has swept: [add_timeout], [del_timeout] on the timeout returned and
    [_del_timeouts] bring the router back to where it was, list of timeouts
    and tracked descriptors included. *)
Theorem X8_timeout_add_delete_round_trip (fd : Z) (m : Mainloop) :
  0 ≤ fd →
  _tracked_fds m !! fd = None →
  Forall (λ t, remove_me t = false) (_timeouts m) →
  _del_timeouts (del_timeout 0 (add_timeout fd m)) = m.
Proof.
  intros Hfd Hnone Hall.
  assert ((fd <? 0) = false) as Hlt by (by apply Z.ltb_ge).
  assert (filter (λ t, remove_me t = true)
                 (mkTimeout fd true :: _timeouts m) = [mkTimeout fd true])
    as Hgone.
  { rewrite filter_cons_True by done. f_equal.
    by apply filter_kept_all. }
  assert (filter (λ t, remove_me t = false)
                 (mkTimeout fd true :: _timeouts m) = _timeouts m) as Hkept.
  { rewrite filter_cons_False by done. by apply filter_kept_all. }
  assert (_timeouts (del_timeout 0 (add_timeout fd m))
          = mkTimeout fd true :: _timeouts m) as Hts.
  { unfold add_timeout, track_fd. rewrite Hlt. reflexivity. }
  unfold _del_timeouts. rewrite Hts, Hgone, Hkept. cbn [foldl timeout_fd].
  unfold untrack_fd, add_timeout, track_fd. rewrite Hlt. cbn.
  rewrite delete_insert_eq, delete_id by done. by destruct m.
Qed.

Lemma set_timeouts_untrack ts fd m :
  set_timeouts ts (untrack_fd fd m) = untrack_fd fd (set_timeouts ts m).
Proof. unfold untrack_fd. by destruct (fd <? 0). Qed.

Lemma set_timeouts_untrack_all ts (gone : list Timeout) m :
  set_timeouts ts (foldl (λ acc t, untrack_fd (timeout_fd t) acc) m gone)
  = foldl (λ acc t, untrack_fd (timeout_fd t) acc) (set_timeouts ts m) gone.
Proof.
  revert m. induction gone as [|t gone IH]; intros m; [done|].
  cbn [foldl]. by rewrite IH, set_timeouts_untrack.
Qed.

Lemma del_rest_spec rest m :
  del_rest rest m =
  (filter (λ t, remove_me t = false) rest,
   foldl (λ acc t, untrack_fd (timeout_fd t) acc) m
         (filter (λ t, remove_me t = true) rest)).
Proof.
  revert m. induction rest as [|t rest IH]; intros m; [done|].
  cbn [del_rest]. destruct (remove_me t) eqn:Ht.
  - rewrite IH, filter_cons_False, filter_cons_True by (by rewrite ?Ht). done.
  - rewrite IH, filter_cons_True, filter_cons_False by (by rewrite ?Ht). done.
Qed.

Lemma del_head_spec ts m :
  let r := del_head ts m in
  match r.1 with
  | [] => filter (λ t, remove_me t = false) ts = [] ∧
          r.2 = foldl (λ acc t, untrack_fd (timeout_fd t) acc) m
                      (filter (λ t, remove_me t = true) ts)
  | prev :: rest =>
      filter (λ t, remove_me t = false) ts
      = prev :: filter (λ t, remove_me t = false) rest ∧
      foldl (λ acc t, untrack_fd (timeout_fd t) acc) m
            (filter (λ t, remove_me t = true) ts)
      = foldl (λ acc t, untrack_fd (timeout_fd t) acc) r.2
              (filter (λ t, remove_me t = true) rest)
  end.
Proof.
  revert m. induction ts as [|t ts IH]; intros m; [done|].
  cbn [del_head]. destruct (remove_me t) eqn:Ht.
  - specialize (IH (untrack_fd (timeout_fd t) m)). cbv zeta in *.
    rewrite filter_cons_False, filter_cons_True by (by rewrite ?Ht).
    done.
  - cbn [fst snd].
    rewrite filter_cons_True, filter_cons_False by (by rewrite ?Ht).
    done.
Qed.

(** X9.  The two pointer-walking loops of [_del_timeouts] do what a filter
    does: the timeouts flagged by [del_timeout] are dropped and their
    descriptors untracked, every other timeout is kept, in order, wherever
    the flagged ones stand in the list. *)
Theorem X9_del_timeouts_walk_is_filter (m : Mainloop) :
  _del_timeouts_walk m = _del_timeouts m ∧
  _timeouts (_del_timeouts_walk m)
  = filter (λ t, remove_me t = false) (_timeouts m).
Proof.
  assert (_del_timeouts_walk m = _del_timeouts m) as Heq.
  { unfold _del_timeouts_walk, _del_timeouts.
    pose proof (del_head_spec (_timeouts m) m) as Hhead. cbv zeta in Hhead.
    destruct (del_head (_timeouts m) m) as [ts1 m1]. cbn [fst snd] in Hhead.
    destruct ts1 as [|prev rest].
    - destruct Hhead as [-> ->]. by rewrite set_timeouts_untrack_all.
    - destruct Hhead as [-> Hm].
      by rewrite <- set_timeouts_untrack_all, Hm, del_rest_spec. }
  split; [done|]. rewrite Heq. unfold _del_timeouts.
  generalize (filter (λ t, remove_me t = true) (_timeouts m)).
  generalize (filter (λ t, remove_me t = false) (_timeouts m)).
  intros kept gone. rewrite <- set_timeouts_untrack_all. done.
Qed.

End LifecycleFacts.

(** Witness of X7: a fresh instance is asked to exit with 7 and then
    opened; its loop returns 0. *)
Lemma X7_open_overwrites_requested_retcode_witness :
  fst <$> MainloopModel.loop (λ _ _, MainloopModel.Rejected) (λ _ _, 0) 8 []
            (LifecycleModel.open 3
               (MainloopModel.request_exit 7 MainloopModel.new_Mainloop)).2
  = Some 0.
Proof.
  destruct (X7_open_overwrites_requested_retcode
              (λ _ _, MainloopModel.Rejected) (λ _ _, 0) 7 3 8 []
              MainloopModel.new_Mainloop) as [Hclosed _].
  - lia.
  - apply Hclosed. reflexivity.
Defined.

(** Witness of X8: an open router with one timeout of its own. *)
Lemma X8_timeout_add_delete_round_trip_witness :
  let m := MainloopModel.mkMainloop 3 false false [] (-1)
             [MainloopModel.mkTimeout 4 false]
             (DedupModel.new_Dedup 0) 0 0 {[ 3 := "EPOLL"; 4 := "TIMEOUT" ]} in
  MainloopModel._del_timeouts
    (LifecycleModel.del_timeout 0 (MainloopModel.add_timeout 9 m)) = m.
Proof.
  intros m. apply X8_timeout_add_delete_round_trip.
  - lia.
  - reflexivity.
  - repeat constructor.
Defined.

#[local] Set Warnings "-clear-no-such-hyp".

Section DescriptorFacts.
Import MainloopModel LifecycleModel.

Lemma untracked_refl t : untracked ∅ t t.
Proof. intros k. by rewrite decide_False by set_solver. Qed.

Lemma untracked_delete U t t' fd :
  untracked U t t' → untracked (U ∪ {[fd]}) t (delete fd t').
Proof.
  intros H k. destruct (decide (k = fd)) as [->|Hne].
  - rewrite lookup_delete_eq. by rewrite decide_True by set_solver.
  - rewrite lookup_delete_ne by done. rewrite H.
    destruct (decide (k ∈ U)).
    + by rewrite decide_True by set_solver.
    + by rewrite decide_False by set_solver.
Qed.

Lemma untracked_trans U V t t' t'' :
  untracked U t t' → untracked V t' t'' → untracked (U ∪ V) t t''.
Proof.
  intros H1 H2 k. rewrite H2, H1.
  destruct (decide (k ∈ V)), (decide (k ∈ U)).
  - by rewrite decide_True by set_solver.
  - by rewrite decide_True by set_solver.
  - by rewrite decide_True by set_solver.
  - by rewrite decide_False by set_solver.
Qed.

Lemma untracked_dom U t t' : untracked U t t' → dom t' = dom t ∖ U.
Proof.
  intros H. apply set_eq. intros k.
  rewrite elem_of_difference, !elem_of_dom, H.
  destruct (decide (k ∈ U)).
  - split; [by intros [? ?]|by intros [_ ?]].
  - split; [done|by intros [? _]].
Qed.

Lemma untracked_untrack_fd fd m :
  0 ≤ fd → untracked {[fd]} (_tracked_fds m) (_tracked_fds (untrack_fd fd m)).
Proof.
  intros Hfd. unfold untrack_fd.
  replace (fd <? 0) with false by (symmetry; by apply Z.ltb_ge). simpl.
  rewrite <- (union_empty_l_L {[fd]}).
  apply untracked_delete, untracked_refl.
Qed.

Lemma untrack_fd_set_tracked fd m :
  untrack_fd fd m = set_tracked (_tracked_fds (untrack_fd fd m)) m.
Proof. unfold untrack_fd. destruct (fd <? 0); [|done]. by destruct m. Qed.

(** Releasing the descriptors of a list of pollables, as the loops of
    [teardown] and [destroy_extension_instance] do: the descriptors that are
    not negative are closed and untracked, nothing else changes. *)
Lemma release_fold {A} (fdof : A → Z) (l : list A) (st : Mainloop * gset Z) :
  let step := λ (st : Mainloop * gset Z) (x : A),
    if 0 <=? fdof x
    then (untrack_fd (fdof x) st.1, close (fdof x) st.2) else st in
  let C : gset Z := list_to_set (filter (λ fd, 0 ≤ fd) (fdof <$> l)) in
  let st' := foldl step st l in
  st'.2 = st.2 ∖ C ∧
  untracked C (_tracked_fds st.1) (_tracked_fds st'.1) ∧
  st'.1 = set_tracked (_tracked_fds st'.1) st.1.
Proof.
  cbv zeta. revert st. induction l as [|x l IH]; intros st.
  - cbn. split; [set_solver|]. split; [apply untracked_refl|].
    by destruct st as [[] ?].
  - cbn [foldl fmap list_fmap]. destruct (Z.leb_spec 0 (fdof x)) as [Hx|Hx].
    + rewrite filter_cons_True by done.
      destruct (IH (untrack_fd (fdof x) st.1, close (fdof x) st.2))
        as (Hos & Htr & Hm).
      cbn [fst snd] in *. split; [|split].
      * rewrite Hos. unfold close. set_solver.
      * rewrite list_to_set_cons.
        eapply untracked_trans; [by apply untracked_untrack_fd|done].
      * rewrite Hm at 1. rewrite untrack_fd_set_tracked. done.
    + rewrite filter_cons_False by lia. apply IH.
Qed.

Lemma close_fold {A} (fdof : A → Z) (l : list A) (os : gset Z) :
  foldl (λ os x, if 0 <=? fdof x then close (fdof x) os else os) os l
  = os ∖ list_to_set (filter (λ fd, 0 ≤ fd) (fdof <$> l)).
Proof.
  revert os. induction l as [|x l IH]; intros os.
  - cbn. set_solver.
  - cbn [foldl fmap list_fmap]. rewrite IH.
    destruct (Z.leb_spec 0 (fdof x)) as [Hx|Hx].
    + rewrite filter_cons_True by done. unfold close. set_solver.
    + by rewrite filter_cons_False by lia.
Qed.

Lemma force_close_fold (l : list (Z * string)) (os : gset Z) :
  foldl (λ os kv, if decide (kv.1 ∈ os) then close kv.1 os else os) os l
  = os ∖ list_to_set l.*1.
Proof.
  revert os. induction l as [|kv l IH]; intros os.
  - cbn. set_solver.
  - cbn [foldl fmap list_fmap]. rewrite IH, list_to_set_cons.
    destruct (decide (kv.1 ∈ os)); unfold close; set_solver.
Qed.

Lemma dom_map_to_list (t : gmap Z string) :
  list_to_set (map_to_list t).*1 = dom t.
Proof.
  apply set_eq. intros k.
  rewrite elem_of_list_to_set, list_elem_of_fmap, elem_of_dom. split.
  - intros ([k' v] & -> & Hin). apply elem_of_map_to_list in Hin. by exists v.
  - intros [v Hv]. exists (k, v). split; [done|].
    by apply elem_of_map_to_list.
Qed.

Lemma force_close_all_spec (m : Mainloop) (os : gset Z) :
  force_close_all_tracked_fds m os
  = (set_tracked ∅ m, os ∖ dom (_tracked_fds m)).
Proof.
  unfold force_close_all_tracked_fds.
  by rewrite force_close_fold, dom_map_to_list.
Qed.

(** X10.  [force_close_all_tracked_fds] closes every tracked descriptor and
    no other descriptor of the process, and leaves the table empty. *)
Theorem X10_force_close_closes_exactly_tracked (m : Mainloop) (os : gset Z) :
  force_close_all_tracked_fds m os
  = (set_tracked ∅ m, os ∖ dom (_tracked_fds m)).
Proof.
  unfold force_close_all_tracked_fds.
  by rewrite force_close_fold, dom_map_to_list.
Qed.

Local Ltac fields :=
  cbn [fst snd set_tracked set_endpoints set_timeouts set_tcp_fd set_epollfd
       set_should_exit set_retcode set_hangups set_msg_to_unknown
       epollfd should_process_tcp_hangups _should_exit g_endpoints g_tcp_fd
       _timeouts _msg_dedup msg_to_unknown _retcode _tracked_fds].

Local Ltac fields_in H :=
  cbn [fst snd set_tracked set_endpoints set_timeouts set_tcp_fd set_epollfd
       set_should_exit set_retcode set_hangups set_msg_to_unknown
       epollfd should_process_tcp_hangups _should_exit g_endpoints g_tcp_fd
       _timeouts _msg_dedup msg_to_unknown _retcode _tracked_fds] in H.

Lemma destroy_instance_steps_closed (m : Mainloop) (os : gset Z) :
  (destroy_instance_steps m os).2 = os ∖ instance_fds m.
Proof.
  unfold destroy_instance_steps, instance_fds, endpoint_fds, timeout_fds,
    server_fds.
  destruct m as [ep hu se eps tcp ts dd mu rc tr]. fields.
  pose proof (release_fold ep_fd eps
                (mkMainloop ep hu se eps tcp ts dd mu rc tr, os))
    as (Hos1 & Htr1 & Hm1).
  change (foldl _ (mkMainloop ep hu se eps tcp ts dd mu rc tr, os) eps)
    with (foldl destroy_endpoint
            (mkMainloop ep hu se eps tcp ts dd mu rc tr, os) eps) in *.
  destruct (foldl destroy_endpoint _ eps) as [m1 os1].
  fields_in Hos1. fields_in Htr1. fields_in Hm1.
  generalize dependent (_tracked_fds m1). intros t1 Htr1 ->.
  cbv zeta. fields.
  pose proof (release_fold timeout_fd ts
                (mkMainloop ep hu se [] tcp ts dd mu rc t1, os1))
    as (Hos3 & Htr3 & Hm3).
  change (foldl _ (mkMainloop ep hu se [] tcp ts dd mu rc t1, os1) ts)
    with (foldl destroy_timeout
            (mkMainloop ep hu se [] tcp ts dd mu rc t1, os1) ts) in *.
  destruct (foldl destroy_timeout _ ts) as [m3 os3].
  fields_in Hos3. fields_in Htr3. fields_in Hm3.
  generalize dependent (_tracked_fds m3). intros t3 Htr3 ->.
  pose proof (untracked_dom _ _ _ (untracked_trans _ _ _ _ _ Htr1 Htr3))
    as Hdom.
  set (E := list_to_set (filter (λ fd, 0 ≤ fd) (ep_fd <$> eps)) : gset Z) in *.
  set (T := list_to_set (filter (λ fd, 0 ≤ fd) (timeout_fd <$> ts)) : gset Z)
    in *.
  clearbody E T. clear Htr1 Htr3. subst os3 os1.
  unfold close_tcp_server, untrack_fd, close. fields.
  destruct (Z.leb_spec 0 tcp) as [Ht|Ht];
    [replace (tcp <? 0) with false by (symmetry; by apply Z.ltb_ge)|];
    fields;
    (destruct (Z.leb_spec 0 ep) as [He|He];
     [replace (ep <? 0) with false by (symmetry; by apply Z.ltb_ge)|]);
    rewrite force_close_all_spec; fields;
    rewrite ?dom_delete_L, Hdom;
    apply set_eq; intros k;
    destruct (decide (k ∈ dom tr)); set_solver.
Qed.


(** X11.  Destroying an extension's router instance removes it from the
    process and closes exactly the descriptors it holds: those of its
    endpoints, of its timeouts, of its TCP server and of its epoll instance,
    and every descriptor still in its tracking table.  No other descriptor
    of the process is closed and no other instance is touched. *)
Theorem X11_destroy_extension_instance_releases (h : gmap addr Mainloop)
    (a : addr) (m : Mainloop) (os : gset Z) :
  h !! a = Some m →
  let r := destroy_extension_instance (Some a) h os in
  r.1 = delete a h ∧
  r.2 = os ∖ instance_fds m ∧
  (∀ b, b ≠ a → r.1 !! b = h !! b) ∧
  (∀ fd, fd ∈ r.2 ↔ fd ∈ os ∧ fd ∉ instance_fds m).
Proof.
  intros Hm. cbv zeta. unfold destroy_extension_instance. rewrite Hm.
  cbn [fst snd]. rewrite destroy_instance_steps_closed.
  split; [done|]. split; [done|]. split.
  - intros b Hb. by rewrite lookup_delete_ne.
  - intros fd. by rewrite elem_of_difference.
Qed.

Lemma instance_fds_new : instance_fds new_Mainloop = ∅.
Proof.
  unfold instance_fds, endpoint_fds, timeout_fds, server_fds. cbn.
  rewrite dom_empty_L. set_solver.
Qed.

Lemma instance_fds_request_exit rc m :
  instance_fds (request_exit rc m) = instance_fds m.
Proof. done. Qed.

(** X12.  An extension's router instance is isolated from the instances
    that existed before it: it is created at an address none of them has, in
    the closed state; asking it to exit leaves every one of them, the
    primary router included, exactly as it was; and destroying it, asked to
    exit or not, gives back the process as it was before the creation, no
    descriptor closed. *)
Theorem X12_extension_instance_isolated (h : gmap addr Mainloop) (rc : Z)
    (os : gset Z) :
  let r := create_extension_instance h in
  h !! r.1 = None ∧
  r.2 !! r.1 = Some new_Mainloop ∧
  (∀ b m, h !! b = Some m →
          request_exit_at r.1 rc r.2 !! b = Some m) ∧
  destroy_extension_instance (Some r.1) r.2 os = (h, os) ∧
  destroy_extension_instance (Some r.1) (request_exit_at r.1 rc r.2) os
  = (h, os).
Proof.
  cbv zeta. unfold create_extension_instance. cbn [fst snd].
  set (a := fresh (dom h)).
  assert (h !! a = None) as Hfresh.
  { apply not_elem_of_dom. apply is_fresh. }
  split; [done|]. split; [by rewrite lookup_insert_eq|]. split; [|split].
  - intros b m Hb. unfold request_exit_at.
    assert (b ≠ a) by congruence.
    by rewrite lookup_alter_ne, lookup_insert_ne.
  - unfold destroy_extension_instance. rewrite lookup_insert_eq.
    rewrite destroy_instance_steps_closed, instance_fds_new.
    rewrite delete_insert_eq, delete_id by done.
    f_equal. set_solver.
  - unfold destroy_extension_instance, request_exit_at.
    rewrite lookup_alter_eq, lookup_insert_eq. cbn [fmap option_fmap option_map].
    rewrite destroy_instance_steps_closed, instance_fds_request_exit,
      instance_fds_new.
    rewrite delete_alter, delete_insert_eq, delete_id by done.
    rewrite decide_True by done. f_equal. set_solver.
Qed.

Lemma teardown_spec (m : Mainloop) (os : gset Z) :
  let r := teardown m os in
  r.2 = os ∖ (endpoint_fds m ∪ timeout_fds m ∪ server_fds m) ∧
  untracked (timeout_fds m ∪ server_fds m)
            (_tracked_fds m) (_tracked_fds r.1) ∧
  (∀ fd, fd ∈ endpoint_fds m → fd ∉ timeout_fds m ∪ server_fds m →
         (fd ∉ r.2) ∧ _tracked_fds r.1 !! fd = _tracked_fds m !! fd) ∧
  epollfd r.1 = -1 ∧ _should_exit r.1 = false ∧ _retcode r.1 = -1 ∧
  g_endpoints r.1 = [] ∧ _timeouts r.1 = [] ∧
  msg_to_unknown r.1 = 0 ∧ should_process_tcp_hangups r.1 = false ∧
  g_tcp_fd r.1 = (if 0 <=? g_tcp_fd m then -1 else g_tcp_fd m) ∧
  _msg_dedup r.1 = _msg_dedup m ∧
  (∀ created, created ≠ -1 → (open created r.1).1 = 0).
Proof.
  cbv zeta.
  assert ((teardown m os).2
          = os ∖ (endpoint_fds m ∪ timeout_fds m ∪ server_fds m) ∧
          untracked (timeout_fds m ∪ server_fds m)
            (_tracked_fds m) (_tracked_fds (teardown m os).1) ∧
          (teardown m os).1
          = mkMainloop (-1) false false [] 
              (if 0 <=? g_tcp_fd m then -1 else g_tcp_fd m) []
              (_msg_dedup m) 0 (-1) (_tracked_fds (teardown m os).1))
    as (Hos & Htr & Hm).
  { unfold teardown, endpoint_fds, timeout_fds, server_fds.
    destruct m as [ep hu se eps tcp ts dd mu rc tr]. cbv zeta. fields.
    rewrite (close_fold ep_fd).
    set (E := list_to_set (filter (λ fd, 0 ≤ fd) (ep_fd <$> eps)) : gset Z).
    unfold close_tcp_server, close, untrack_fd. fields.
    destruct (Z.leb_spec 0 tcp) as [Ht|Ht]; fields.
    - replace (tcp <? 0) with false by (symmetry; by apply Z.ltb_ge). fields.
      match goal with
      | |- context [foldl destroy_timeout ?st ts] =>
          pose proof (release_fold timeout_fd ts st) as (Hos3 & Htr3 & Hm3);
          change (foldl _ st ts) with (foldl destroy_timeout st ts) in *;
          destruct (foldl destroy_timeout st ts) as [m3 os3]
      end.
      fields_in Hos3. fields_in Htr3. fields_in Hm3.
      generalize dependent (_tracked_fds m3). intros t3 Htr3 ->.
      set (T := list_to_set (filter (λ fd, 0 ≤ fd) (timeout_fd <$> ts))
                : gset Z) in *.
      pose proof (untracked_delete ∅ tr tr tcp (untracked_refl tr)) as H2.
      pose proof (untracked_trans _ _ _ _ _ H2 Htr3) as H23.
      fields.
      destruct (Z.leb_spec 0 ep) as [He|He]; fields.
      + replace (ep <? 0) with false by (symmetry; by apply Z.ltb_ge).
        fields. split; [subst os3; set_solver|]. split; [|done].
        pose proof (untracked_delete _ _ _ ep H23) as H234.
        intros k. rewrite H234.
        destruct (decide (k ∈ ∅ ∪ {[tcp]} ∪ T ∪ {[ep]})).
        * by rewrite decide_True by set_solver.
        * by rewrite decide_False by set_solver.
      + split; [subst os3; set_solver|]. split; [|done].
        intros k. rewrite H23.
        destruct (decide (k ∈ ∅ ∪ {[tcp]} ∪ T)).
        * by rewrite decide_True by set_solver.
        * by rewrite decide_False by set_solver.
    - match goal with
      | |- context [foldl destroy_timeout ?st ts] =>
          pose proof (release_fold timeout_fd ts st) as (Hos3 & Htr3 & Hm3);
          change (foldl _ st ts) with (foldl destroy_timeout st ts) in *;
          destruct (foldl destroy_timeout st ts) as [m3 os3]
      end.
      fields_in Hos3. fields_in Htr3. fields_in Hm3.
      generalize dependent (_tracked_fds m3). intros t3 Htr3 ->.
      set (T := list_to_set (filter (λ fd, 0 ≤ fd) (timeout_fd <$> ts))
                : gset Z) in *.
      fields.
      destruct (Z.leb_spec 0 ep) as [He|He]; fields.
      + replace (ep <? 0) with false by (symmetry; by apply Z.ltb_ge).
        fields. split; [subst os3; set_solver|]. split; [|done].
        pose proof (untracked_delete _ _ _ ep Htr3) as H34.
        intros k. rewrite H34.
        destruct (decide (k ∈ T ∪ {[ep]})).
        * by rewrite decide_True by set_solver.
        * by rewrite decide_False by set_solver.
      + split; [subst os3; set_solver|]. split; [|done].
        intros k. rewrite Htr3.
        destruct (decide (k ∈ T)).
        * by rewrite decide_True by set_solver.
        * by rewrite decide_False by set_solver. }
  split; [done|]. split; [done|]. split.
  { intros fd Hin Hnot. split.
    - rewrite Hos. set_solver.
    - rewrite Htr. by rewrite decide_False. }
  rewrite Hm. fields. repeat (split; [done|]).
  intros created Hc. unfold open. fields.
  change (negb (-1 =? -1)) with false. cbv iota.
  by destruct (Z.eqb_spec created (-1)).
Qed.

(** X13.  [teardown] closes the descriptors of the endpoints, of the
    timeouts, of the TCP server and of the epoll instance, and resets the
    router so that [open()] succeeds again.  It untracks the timeouts, the
    server and the epoll descriptor but not the endpoints: an endpoint
    descriptor that was tracked is closed and still in the table afterwards.
    The de-duplication cache is not reset. *)
Theorem X13_teardown_resets_for_reopen (m : Mainloop) (os : gset Z) :
  let r := teardown m os in
  r.2 = os ∖ (endpoint_fds m ∪ timeout_fds m ∪ server_fds m) ∧
  untracked (timeout_fds m ∪ server_fds m)
            (_tracked_fds m) (_tracked_fds r.1) ∧
  (∀ fd, fd ∈ endpoint_fds m → fd ∉ timeout_fds m ∪ server_fds m →
         (fd ∉ r.2) ∧ _tracked_fds r.1 !! fd = _tracked_fds m !! fd) ∧
  epollfd r.1 = -1 ∧ _should_exit r.1 = false ∧ _retcode r.1 = -1 ∧
  g_endpoints r.1 = [] ∧ _timeouts r.1 = [] ∧
  msg_to_unknown r.1 = 0 ∧ should_process_tcp_hangups r.1 = false ∧
  g_tcp_fd r.1 = (if 0 <=? g_tcp_fd m then -1 else g_tcp_fd m) ∧
  _msg_dedup r.1 = _msg_dedup m ∧
  (∀ created, created ≠ -1 → (open created r.1).1 = 0).
Proof. apply teardown_spec. Qed.

End DescriptorFacts.

(** Witness of X11: the primary router and one extension instance that
    holds an endpoint on descriptor 5 and its epoll descriptor 4. *)
Lemma X11_destroy_extension_instance_releases_witness :
  let ep := MainloopModel.mkEndpoint MainloopModel.ENDPOINT_TYPE_UDP "A" 5 ""
              [] true false in
  let m := MainloopModel.mkMainloop 4 false false [ep] (-1) []
             (DedupModel.new_Dedup 0) 0 0 {[ 4 := "EPOLL"; 5 := "UDP:A" ]} in
  let h : gmap MainloopModel.addr MainloopModel.Mainloop :=
    <[1%nat := m]> {[ MainloopModel.instance_addr := MainloopModel.new_Mainloop ]} in
  (LifecycleModel.destroy_extension_instance (Some 1%nat) h {[ 3; 4; 5 ]}).2
  = {[ 3; 4; 5 ]} ∖ LifecycleModel.instance_fds m.
Proof.
  intros ep m h.
  destruct (X11_destroy_extension_instance_releases h 1%nat m {[ 3; 4; 5 ]})
    as (_ & Hos & _).
  - reflexivity.
  - exact Hos.
Defined.

(* ===================================================================== *)
(** * Further properties of [add_endpoints]                                *)
(* ===================================================================== *)

Section AddAllFacts.
Import Config MainloopModel LifecycleModel.

(** Every endpoint that has a descriptor has it in the tracking table. *)
Abbreviation endpoints_tracked m :=
  (Forall (λ e, 0 ≤ ep_fd e → ep_fd e ∈ dom (_tracked_fds m)) (g_endpoints m)).

Lemma track_fd_dom fd d m :
  dom (_tracked_fds m) ⊆ dom (_tracked_fds (track_fd fd d m)) ∧
  (0 ≤ fd → fd ∈ dom (_tracked_fds (track_fd fd d m))).
Proof.
  unfold track_fd. destruct (Z.ltb_spec fd 0) as [Hneg|Hpos].
  - split; [done|lia].
  - cbn. rewrite dom_insert_L. set_solver.
Qed.

Lemma add_all_spec {C : Type} (setup : C → option Z) (mk : C → Z → Endpoint)
    (description : C → string) (nm : C → string)
    (Hmk : ∀ c fd, ep_name (mk c fd) = nm c ∧ ep_fd (mk c fd) = fd)
    (confs : list C) (m : Mainloop) :
  let r := add_all setup mk description confs m in
  (r.1 = true ↔ Forall (λ c, is_Some (setup c)) confs) ∧
  (r.1 = true →
   ep_name <$> g_endpoints r.2 = (ep_name <$> g_endpoints m) ++ (nm <$> confs)) ∧
  (endpoints_tracked m → endpoints_tracked r.2) ∧
  _timeouts r.2 = _timeouts m ∧ epollfd r.2 = epollfd m ∧
  _should_exit r.2 = _should_exit m ∧ _retcode r.2 = _retcode m.
Proof.
  cbv zeta. revert m. induction confs as [|c confs IH]; intros m.
  - cbn. split; [|by rewrite app_nil_r]. split; [constructor|done].
  - cbn [add_all]. destruct (setup c) as [fd|] eqn:Hs.
    + match goal with
      | |- context [add_all _ _ _ confs ?m2] =>
          destruct (IH m2) as (Hok & Hnames & Htr & Hts & Hep & Hex & Hrc);
          set (m2' := m2) in *
      end.
      assert (g_endpoints m2' = g_endpoints m ++ [mk c fd]) as Heps.
      { subst m2'. destruct (0 <=? fd); [|done].
        unfold track_fd. by destruct (fd <? 0). }
      split; [|split; [|split]].
      * rewrite Hok, Forall_cons. split; [by intros ?; split; [eexists|]|].
        by intros [_ ?].
      * intros Hr. rewrite (Hnames Hr), Heps, fmap_app, <- app_assoc.
        cbn. by destruct (Hmk c fd) as [-> _].
      * intros Hm. apply Htr. rewrite Heps. subst m2'.
        apply Forall_app. split.
        -- eapply Forall_impl; [exact Hm|]. cbn. intros e He Hfd.
           destruct (0 <=? fd); [|by apply He].
           by apply track_fd_dom, He.
        -- apply Forall_singleton. destruct (Hmk c fd) as [_ ->]. intros Hfd.
           replace (0 <=? fd) with true by (symmetry; by apply Z.leb_le).
           by apply track_fd_dom.
      * rewrite Hts, Hep, Hex, Hrc. subst m2'.
        destruct (0 <=? fd); [|done]. unfold track_fd. by destruct (fd <? 0).
    + cbn. split; [|done]. split; [done|].
      intros [[? ?] _]%Forall_cons. congruence.
Qed.

Lemma link_one_fd_name n i e :
  ep_fd (link_one n i e) = ep_fd e ∧ ep_name (link_one n i e) = ep_name e.
Proof.
  unfold link_one. destruct (String.eqb _ _); [done|].
  generalize (seq 0 n). intros l. revert e.
  induction l as [|o l IH]; intros e; [done|].
  cbn [foldl]. destruct (_ && _); [|apply IH].
  destruct (IH (link_group_member e o)) as [-> ->]. done.
Qed.

Lemma link_groups_fd_name eps :
  ep_fd <$> link_groups eps = ep_fd <$> eps ∧
  ep_name <$> link_groups eps = ep_name <$> eps.
Proof.
  unfold link_groups. generalize (length eps). intros n.
  assert (∀ k, ep_fd <$> imap (λ i, link_one n (k + i)) eps = ep_fd <$> eps ∧
               ep_name <$> imap (λ i, link_one n (k + i)) eps
               = ep_name <$> eps) as H.
  { induction eps as [|e eps IH]; intros k; [done|].
    cbn [imap fmap list_fmap].
    destruct (link_one_fd_name n (k + 0) e) as [-> ->].
    rewrite (imap_ext _ (λ i, link_one n (S k + i))); last first.
    { intros i x _. cbn. f_equal. lia. }
    destruct (IH (S k)) as [-> ->]. done. }
  apply (H 0%nat).
Qed.

End AddAllFacts.

Section AddEndpointsFacts.
Import Config MainloopModel LifecycleModel.

Variable uart_setup : UartEndpointConfig → option Z.
Variable udp_setup : UdpEndpointConfig → option Z.
Variable tcp_setup : TcpEndpointConfig → option Z.
Variable tcp_open : Z → Z.

Abbreviation add_endpoints' :=
  (add_endpoints uart_setup udp_setup tcp_setup tcp_open).

Abbreviation endpoints_tracked' m :=
  (Forall (λ e, 0 ≤ ep_fd e → ep_fd e ∈ dom (_tracked_fds m)) (g_endpoints m)).

(** X14.  [add_endpoints] returns true exactly when the set-up of every
    configured UART, UDP and TCP endpoint succeeds, and the router then
    holds, after the endpoints it had, one endpoint per configuration entry:
    the UARTs first, then the UDP endpoints, then the TCP endpoints, each
    group in the order of the configuration. *)
Theorem X14_add_endpoints_all_or_false (m : Mainloop)
    (config : Configuration) :
  let r := add_endpoints' m config in
  (r.1 = true ↔
   Forall (λ c, is_Some (uart_setup c)) (uart_configs config) ∧
   Forall (λ c, is_Some (udp_setup c)) (udp_configs config) ∧
   Forall (λ c, is_Some (tcp_setup c)) (tcp_configs config)) ∧
  (r.1 = true →
   ep_name <$> g_endpoints r.2 =
   (ep_name <$> g_endpoints m) ++ (uart_name <$> uart_configs config) ++
   (udp_name <$> udp_configs config) ++ (tcp_name <$> tcp_configs config)).
Proof.
  cbv zeta. unfold add_endpoints.
  match goal with
  | |- context [add_all uart_setup ?mk ?d (uart_configs config) m] =>
      pose proof (add_all_spec uart_setup mk d uart_name
                    (λ c fd, conj eq_refl eq_refl) (uart_configs config) m)
        as (Hok1 & Hn1 & _);
      destruct (add_all uart_setup mk d (uart_configs config) m) as [ok1 m1]
  end.
  cbn [fst snd] in Hok1, Hn1. destruct ok1; cbn [negb]; last first.
  { cbn [fst]. split; [|done]. split; [done|]. intros (H & _).
    by apply Hok1 in H. }
  match goal with
  | |- context [add_all udp_setup ?mk ?d (udp_configs config) m1] =>
      pose proof (add_all_spec udp_setup mk d udp_name
                    (λ c fd, conj eq_refl eq_refl) (udp_configs config) m1)
        as (Hok2 & Hn2 & _);
      destruct (add_all udp_setup mk d (udp_configs config) m1) as [ok2 m2]
  end.
  cbn [fst snd] in Hok2, Hn2. destruct ok2; cbn [negb]; last first.
  { cbn [fst]. split; [|done]. split; [done|]. intros (_ & H & _).
    by apply Hok2 in H. }
  match goal with
  | |- context [add_all tcp_setup ?mk ?d (tcp_configs config) m2] =>
      pose proof (add_all_spec tcp_setup mk d tcp_name
                    (λ c fd, conj eq_refl eq_refl) (tcp_configs config) m2)
        as (Hok3 & Hn3 & _);
      destruct (add_all tcp_setup mk d (tcp_configs config) m2) as [ok3 m3]
  end.
  cbn [fst snd] in Hok3, Hn3. destruct ok3; cbn [negb]; last first.
  { cbn [fst]. split; [|done]. split; [done|]. intros (_ & _ & H).
    by apply Hok3 in H. }
  cbn [fst snd]. split.
  - split; [|done]. intros _. split; [by apply Hok1|].
    split; [by apply Hok2|by apply Hok3].
  - intros _.
    assert (∀ eps x, ep_name <$> g_endpoints x = eps →
       ep_name <$> g_endpoints
         (if 0 <? dedup_period_ms config
          then set_dedup (DedupModel.set_dedup_period (_msg_dedup x)
                            (dedup_period_ms config)) x
          else x) = eps) as Hdedup.
    { intros eps x Hx. destruct (0 <? _); exact Hx. }
    apply Hdedup.
    assert (∀ eps x, ep_name <$> g_endpoints x = eps →
       ep_name <$> g_endpoints
         (if tcp_port config =? 0 then x
          else track_fd (tcp_open (tcp_port config)) "TCP_SERVER"
                 (set_tcp_fd (tcp_open (tcp_port config)) x)) = eps) as Hsrv.
    { intros eps x Hx. destruct (_ =? _); [done|].
      unfold track_fd. destruct (tcp_open (tcp_port config) <? 0); exact Hx. }
    apply Hsrv. cbn [g_endpoints set_endpoints].
    destruct (link_groups_fd_name (g_endpoints m3)) as [_ ->].
    rewrite (Hn3 eq_refl), (Hn2 eq_refl), (Hn1 eq_refl).
    by rewrite <- !app_assoc.
Qed.

(** X15.  [add_endpoints] keeps the tracking table complete: if every
    endpoint of the router that has a descriptor was tracked before, then
    so is every endpoint afterwards, the new ones included, whether the call
    succeeds or stops at a failing set-up. *)
Theorem X15_add_endpoints_tracks_descriptors (m : Mainloop)
    (config : Configuration) :
  endpoints_tracked' m →
  endpoints_tracked' (add_endpoints' m config).2.
Proof.
  intros Hm. unfold add_endpoints.
  match goal with
  | |- context [add_all uart_setup ?mk ?d (uart_configs config) m] =>
      pose proof (add_all_spec uart_setup mk d uart_name
                    (λ c fd, conj eq_refl eq_refl) (uart_configs config) m)
        as (_ & _ & Ht1 & _);
      destruct (add_all uart_setup mk d (uart_configs config) m) as [ok1 m1]
  end.
  cbn [fst snd] in Ht1. specialize (Ht1 Hm).
  destruct ok1; cbn [negb]; [|done].
  match goal with
  | |- context [add_all udp_setup ?mk ?d (udp_configs config) m1] =>
      pose proof (add_all_spec udp_setup mk d udp_name
                    (λ c fd, conj eq_refl eq_refl) (udp_configs config) m1)
        as (_ & _ & Ht2 & _);
      destruct (add_all udp_setup mk d (udp_configs config) m1) as [ok2 m2]
  end.
  cbn [fst snd] in Ht2. specialize (Ht2 Ht1).
  destruct ok2; cbn [negb]; [|done].
  match goal with
  | |- context [add_all tcp_setup ?mk ?d (tcp_configs config) m2] =>
      pose proof (add_all_spec tcp_setup mk d tcp_name
                    (λ c fd, conj eq_refl eq_refl) (tcp_configs config) m2)
        as (_ & _ & Ht3 & _);
      destruct (add_all tcp_setup mk d (tcp_configs config) m2) as [ok3 m3]
  end.
  cbn [fst snd] in Ht3. specialize (Ht3 Ht2).
  destruct ok3; cbn [negb]; [|done]. cbn [snd].
  assert (endpoints_tracked' (set_endpoints (link_groups (g_endpoints m3)) m3))
    as H4.
  { cbn [g_endpoints _tracked_fds set_endpoints].
    destruct (link_groups_fd_name (g_endpoints m3)) as [Hfd _].
    apply Forall_forall. intros e He Hpos.
    assert (ep_fd e ∈ ep_fd <$> link_groups (g_endpoints m3)) as Hin
      by (apply list_elem_of_fmap; by exists e).
    rewrite Hfd in Hin. apply list_elem_of_fmap in Hin as (e0 & Heq & He0).
    rewrite Forall_forall in Ht3. rewrite Heq. apply Ht3; [done|].
    by rewrite <- Heq. }
  revert H4. generalize (set_endpoints (link_groups (g_endpoints m3)) m3).
  intros m4 H4.
  assert (endpoints_tracked'
            (if tcp_port config =? 0 then m4
             else track_fd (tcp_open (tcp_port config)) "TCP_SERVER"
                    (set_tcp_fd (tcp_open (tcp_port config)) m4))) as H5.
  { destruct (_ =? _); [done|].
    assert (g_endpoints
              (track_fd (tcp_open (tcp_port config)) "TCP_SERVER"
                 (set_tcp_fd (tcp_open (tcp_port config)) m4))
            = g_endpoints m4) as ->.
    { unfold track_fd. by destruct (tcp_open (tcp_port config) <? 0). }
    eapply Forall_impl; [exact H4|]. cbn. intros e He Hpos.
    by apply track_fd_dom, He. }
  revert H5. generalize (if tcp_port config =? 0 then m4
             else track_fd (tcp_open (tcp_port config)) "TCP_SERVER"
                    (set_tcp_fd (tcp_open (tcp_port config)) m4)).
  intros m5 H5. by destruct (0 <? _).
Qed.

End AddEndpointsFacts.

(** Witness of X15: a fresh router, one UDP endpoint that gets descriptor
    5 and one TCP endpoint kept for reconnection without a descriptor. *)
Lemma X15_add_endpoints_tracks_descriptors_witness :
  let config :=
    Config.mkConfiguration 0 false []
      [Config.mkUdpConfig "A" "127.0.0.1" 14550 Config.Client ""]
      [Config.mkTcpConfig "T" "127.0.0.1" 5760 5 ""] 0 0 in
  let r := MainloopModel.add_endpoints (λ _, None) (λ _, Some 5)
             (λ _, Some (-1)) (λ _, -1) MainloopModel.new_Mainloop config in
  Forall (λ e, 0 ≤ MainloopModel.ep_fd e →
               MainloopModel.ep_fd e ∈ dom (MainloopModel._tracked_fds r.2))
         (MainloopModel.g_endpoints r.2).
Proof.
  intros config r. apply X15_add_endpoints_tracks_descriptors.
  simpl. constructor.
Defined.

(* ===================================================================== *)
(** * Further properties of the controller                                 *)
(* ===================================================================== *)

Section ControllerMore.
Import MainloopModel RpcModel RpcQueries.

Variable terminates : nat → Z → bool.
Variable thread_local_instance : option addr.

Abbreviation executeOperationOnThread' :=
  (RpcModel.executeOperationOnThread terminates thread_local_instance).
Abbreviation execute_each' :=
  (RpcModel.execute_each terminates thread_local_instance).
Abbreviation executeRequest' :=
  (RpcModel.executeRequest terminates thread_local_instance).
Abbreviation this_instance := (RpcModel.instance thread_local_instance).

Lemma map_items_elem {V} (m : gmap string V) k v :
  (k, v) ∈ map_items m ↔ m !! k = Some v.
Proof.
  unfold map_items. rewrite merge_sort_Permutation.
  apply elem_of_map_to_list.
Qed.

Lemma map_items_keys {V} (m : gmap string V) k :
  k ∈ (map_items m).*1 ↔ is_Some (m !! k).
Proof.
  rewrite list_elem_of_fmap. split.
  - intros ([k' v] & -> & Hin). apply map_items_elem in Hin. by exists v.
  - intros [v Hv]. exists (k, v). split; [done|]. by apply map_items_elem.
Qed.

Lemma status_on_thread name w :
  executeOperationOnThread' name STATUS w = (getThreadStatus name w, w).
Proof.
  unfold RpcModel.executeOperationOnThread, getThreadStatus.
  by destruct (threadRegistry_ w !! name).
Qed.

Lemma status_each names allSuccess states w :
  let r := execute_each' names STATUS allSuccess states w in
  r.2 = w ∧
  r.1.1 = allSuccess &&
          forallb (λ n, bool_decide (is_Some (threadRegistry_ w !! n))) names ∧
  ∀ n, r.1.2 !! n =
       if bool_decide (n ∈ names ∧ is_Some (threadRegistry_ w !! n))
       then Some (getThreadStateInfo n w) else states !! n.
Proof.
  cbv zeta. revert allSuccess states.
  induction names as [|name names IH]; intros allSuccess states.
  - cbn. split; [done|]. split; [by rewrite andb_true_r|].
    intros n. rewrite bool_decide_eq_false_2; [done|].
    intros [Hin _]. by apply elem_of_nil in Hin.
  - cbn [RpcModel.execute_each]. rewrite status_on_thread.
    match goal with
    | |- context [RpcModel.execute_each _ _ names STATUS ?a ?s w] =>
        destruct (IH a s) as (Hw & Hok & Hst)
    end.
    split; [done|]. split.
    + rewrite Hok. cbn [forallb]. unfold getThreadStatus.
      destruct (threadRegistry_ w !! name); destruct allSuccess; reflexivity.
    + intros n. rewrite Hst. clear IH Hw Hok Hst. unfold getThreadStatus.
      destruct (decide (n = name)) as [->|Hne].
      * destruct (threadRegistry_ w !! name) as [id|] eqn:Hreg;
          cbn [threadStates].
        -- rewrite (bool_decide_eq_true_2 (name ∈ name :: names ∧ _))
             by (split; [by left|by eexists]).
           case_bool_decide; [done|].
           apply lookup_union_Some_l, lookup_singleton_eq.
        -- rewrite !bool_decide_eq_false_2 by (intros [_ [? ?]]; done).
           by rewrite (left_id_L ∅ (∪)).
      * rewrite (bool_decide_ext (n ∈ name :: names ∧ _)
                   (n ∈ names ∧ is_Some (threadRegistry_ w !! n)))
          by (rewrite elem_of_cons; naive_solver).
        case_bool_decide; [done|].
        destruct (threadRegistry_ w !! name); cbn [threadStates].
        -- rewrite lookup_union_r; [done|]. by rewrite lookup_singleton_ne.
        -- by rewrite (left_id_L ∅ (∪)).
Qed.

Lemma status_request_spec (target : ThreadTarget) (w : World) :
  let r := executeRequest' STATUS target w in
  let names := getThreadNamesForTarget target w in
  r.2 = w ∧
  status r.1 =
    (if bool_decide (names = []) then THREAD_NOT_FOUND
     else if forallb (λ n, bool_decide (is_Some (threadRegistry_ w !! n))) names
          then SUCCESS else FAILED) ∧
  ∀ n, threadStates r.1 !! n =
       if bool_decide (n ∈ names ∧ is_Some (threadRegistry_ w !! n))
       then Some (getThreadStateInfo n w) else None.
Proof.
  cbv zeta. unfold RpcModel.executeRequest.
  destruct (getThreadNamesForTarget target w) as [|name names] eqn:Hnames.
  - cbn. split; [done|]. split; [done|]. intros n.
    rewrite bool_decide_eq_false_2; [done|]. intros [Hin _]. by apply elem_of_nil in Hin.
  - pose proof (status_each (name :: names) true ∅ w) as (Hw & Hok & Hst).
    cbv zeta in Hw, Hok, Hst.
    destruct (RpcModel.execute_each _ _ (name :: names) STATUS true ∅ w)
      as [[ok states] w1].
    cbn [fst snd] in *. split; [done|]. split.
    + rewrite bool_decide_eq_false_2 by done. cbn [status]. rewrite Hok.
      done.
    + intros n. cbn [threadStates]. rewrite Hst.
      by destruct (bool_decide _).
Qed.

(** X16.  A STATUS request is read-only: it leaves the controller, the
    thread manager and the router instances as they were and makes no call.
    Its status is THREAD_NOT_FOUND when the target names no thread, SUCCESS
    when every thread of the target is registered, and FAILED as soon as one
    of them is known only by a restart callback; the states returned are
    those of the registered threads of the target. *)
Theorem X16_status_request_is_read_only (target : ThreadTarget) (w : World) :
  let r := executeRequest' STATUS target w in
  let names := getThreadNamesForTarget target w in
  r.2 = w ∧
  status r.1 =
    (if bool_decide (names = []) then THREAD_NOT_FOUND
     else if forallb (λ n, bool_decide (is_Some (threadRegistry_ w !! n))) names
          then SUCCESS else FAILED) ∧
  ∀ n, threadStates r.1 !! n =
       if bool_decide (n ∈ names ∧ is_Some (threadRegistry_ w !! n))
       then Some (getThreadStateInfo n w) else None.
Proof. apply status_request_spec. Qed.

Lemma insert_fold_lookup {V} (f : string → V) (l : list (string * nat))
    (init : gmap string V) n :
  foldl (λ states pair, <[pair.1 := f pair.1]> states) init l !! n
  = if bool_decide (n ∈ l.*1) then Some (f n) else init !! n.
Proof.
  revert init. induction l as [|[k v] l IH]; intros init.
  - cbn. rewrite bool_decide_eq_false_2; [done|]. by intros ?%elem_of_nil.
  - cbn [foldl fmap list_fmap fst]. rewrite IH.
    destruct (decide (n ∈ l.*1)) as [Hin|Hnin].
    + rewrite !bool_decide_eq_true_2; [done|by right|done].
    + rewrite (bool_decide_eq_false_2 _ Hnin).
      destruct (decide (n = k)) as [->|Hne].
      * rewrite bool_decide_eq_true_2 by (by left).
        by rewrite lookup_insert_eq.
      * rewrite bool_decide_eq_false_2.
        -- by rewrite lookup_insert_ne.
        -- intros [?|?]%elem_of_cons; done.
Qed.

(** X17.  [getAllThreadStatus] reports exactly the registered threads, each
    with the state [getThreadStatus] reports for it, and these are the
    states a STATUS request for ALL returns; but it answers SUCCESS even when
    no thread is registered, where the request answers THREAD_NOT_FOUND. *)
Theorem X17_getAllThreadStatus_agrees (w : World) :
  status (getAllThreadStatus w) = SUCCESS ∧
  (∀ n, threadStates (getAllThreadStatus w) !! n
        = threadStates (getThreadStatus n w) !! n) ∧
  threadStates (executeRequest' STATUS ALL w).1
  = threadStates (getAllThreadStatus w) ∧
  (threadRegistry_ w = ∅ → restartCallbacks_ w = ∅ →
   status (executeRequest' STATUS ALL w).1 = THREAD_NOT_FOUND).
Proof.
  assert (∀ n, threadStates (getAllThreadStatus w) !! n
               = threadStates (getThreadStatus n w) !! n) as Hall.
  { intros n. unfold getAllThreadStatus, getThreadStatus. cbn [threadStates].
    rewrite (insert_fold_lookup (λ n, getThreadStateInfo n w)).
    destruct (threadRegistry_ w !! n) as [id|] eqn:Hreg; cbn [threadStates].
    - rewrite bool_decide_eq_true_2, lookup_singleton_eq; [done|].
      apply map_items_keys. by rewrite Hreg.
    - rewrite bool_decide_eq_false_2; [done|].
      rewrite map_items_keys, Hreg. by intros [? ?]. }
  split; [done|]. split; [done|]. split.
  - apply map_eq. intros n. rewrite Hall.
    destruct (status_request_spec ALL w) as (_ & _ & Hst).
    cbv zeta in Hst. rewrite Hst. clear Hst.
    unfold getThreadStatus.
    destruct (threadRegistry_ w !! n) as [id|] eqn:Hreg; cbn [threadStates].
    + rewrite bool_decide_eq_true_2, lookup_singleton_eq; [done|].
      split; [|done]. cbn. apply elem_of_app. left.
      apply map_items_keys. by rewrite Hreg.
    + rewrite bool_decide_eq_false_2; [done|]. by intros [_ [? ?]].
  - intros Hreg Hcb.
    destruct (status_request_spec ALL w) as (_ & Hs & _).
    cbv zeta in Hs. rewrite Hs. cbn [getThreadNamesForTarget].
    rewrite Hreg, Hcb. done.
Qed.

End ControllerMore.

Section ControllerQuiet.
Import MainloopModel RpcModel RpcQueries.

Variable terminates : nat → Z → bool.
Variable thread_local_instance : option addr.

Lemma quiet_refl w : quiet w w.
Proof.
  split; [done|]. split; [done|]. split; [done|].
  exists []. by rewrite app_nil_r.
Qed.

Lemma quiet_trans w1 w2 w3 : quiet w1 w2 → quiet w2 w3 → quiet w1 w3.
Proof.
  intros (Hr1 & Ha1 & Hc1 & n1 & Hn1 & Hq1) (Hr2 & Ha2 & Hc2 & n2 & Hn2 & Hq2).
  split; [congruence|]. split; [congruence|]. split; [congruence|].
  exists (n1 ++ n2). split; [by rewrite Hn2, Hn1, app_assoc|].
  by apply Forall_app.
Qed.

Lemma quiet_log c w : creates c = false → quiet w (log c w).
Proof.
  intros Hc. split; [done|]. split; [done|]. split; [done|].
  exists [c]. split; [done|]. by constructor.
Qed.

Lemma quiet_tm_try c op w : creates c = false → quiet w (tm_try c op w).2.
Proof.
  intros Hc. unfold tm_try.
  destruct (op _); by apply (quiet_log c w).
Qed.

Lemma quiet_request_exit rc w :
  quiet w (call_request_exit thread_local_instance rc w).
Proof. by apply (quiet_log (RequestExit _ _) w). Qed.

Lemma quiet_joinThread id ms w :
  quiet w (call_joinThread terminates id ms w).2.
Proof.
  unfold call_joinThread.
  destruct (ThreadMgr.joinThread _ _ _ _) as [[? ?]|];
    by apply (quiet_log (JoinThread id ms) w).
Qed.

Lemma quiet_stop_registered reg w :
  quiet w (stop_registered thread_local_instance reg w).2.
Proof.
  revert w. induction reg as [|[name id] reg IH]; intros w.
  - apply quiet_refl.
  - cbn [stop_registered]. destruct (String.eqb name "mainloop").
    + eapply quiet_trans; [apply quiet_request_exit|apply IH].
    + destruct (negb _); [|apply IH].
      pose proof (quiet_tm_try (StopThread id) (ThreadMgr.stopThread id) w
                    eq_refl) as H1.
      destruct (tm_try _ _ w) as [[] w1]; cbn [snd] in *; [|done].
      eapply quiet_trans; [done|apply IH].
Qed.

Lemma quiet_operation name op w :
  op ≠ START →
  quiet w (executeOperationOnThread terminates thread_local_instance
             name op w).2.
Proof.
  intros Hop. unfold executeOperationOnThread.
  destruct (threadRegistry_ w !! name) as [id|].
  2:{ destruct op; try apply quiet_refl. done. }
  destruct op; [done| | | | |apply quiet_refl].
  - destruct (String.eqb name "mainloop"); [apply quiet_request_exit|].
    destruct (String.eqb name "ALL").
    + pose proof (quiet_stop_registered (map_items (threadRegistry_ w)) w).
      by destruct (stop_registered _ _ w) as [[] ?].
    + pose proof (quiet_tm_try (StopThread id) (ThreadMgr.stopThread id) w
                    eq_refl).
      by destruct (tm_try _ _ w) as [[] ?].
  - pose proof (quiet_tm_try (PauseThread id) (ThreadMgr.pauseThread id) w
                  eq_refl).
    by destruct (tm_try _ _ w) as [[] ?].
  - pose proof (quiet_tm_try (ResumeThread id) (ThreadMgr.resumeThread id) w
                  eq_refl).
    by destruct (tm_try _ _ w) as [[] ?].
  - pose proof (quiet_tm_try (StopThread id) (ThreadMgr.stopThread id) w
                  eq_refl) as H1.
    destruct (tm_try _ _ w) as [[] w1]; cbn [snd] in *; [|done].
    pose proof (quiet_joinThread id 5000 w1) as H2.
    destruct (call_joinThread _ _ _ w1) as [[[]|] w2]; cbn [snd] in *;
      by eapply quiet_trans.
Qed.

Lemma quiet_each names op allSuccess states w :
  op ≠ START →
  quiet w (execute_each terminates thread_local_instance
             names op allSuccess states w).2.
Proof.
  intros Hop. revert allSuccess states w.
  induction names as [|name names IH]; intros allSuccess states w.
  - apply quiet_refl.
  - cbn [execute_each].
    pose proof (quiet_operation name op w Hop) as H1.
    destruct (executeOperationOnThread _ _ name op w) as [resp w1].
    eapply quiet_trans; [exact H1|apply IH].
Qed.

(** X18.  Only START ever creates a thread.  A STOP, PAUSE, RESUME, RESTART
    or STATUS request, whatever its target, leaves the controller's
    registry, attachments and restart callbacks as they were, and makes no
    call that creates, registers or unregisters a thread or runs a restart
    callback.  In particular RESTART stops the thread and waits for it, and
    does not start it again. *)
Theorem X18_only_start_creates_threads (operation : ThreadOperation)
    (target : ThreadTarget) (w : World) :
  operation ≠ START →
  quiet w (executeRequest terminates thread_local_instance
             operation target w).2.
Proof.
  intros Hop. unfold executeRequest.
  destruct (getThreadNamesForTarget target w) as [|name names];
    [apply quiet_refl|].
  pose proof (quiet_each (name :: names) operation true ∅ w Hop) as H.
  by destruct (execute_each _ _ (name :: names) operation true ∅ w)
    as [[? ?] ?].
Qed.

(** X19.  A stop request for the registered primary router thread asks the
    calling thread's router instance to exit with 0 and does nothing else:
    the thread manager is not called and not changed, no other instance is
    touched, and the answer is SUCCESS whatever state the thread is in.  The
    [loop()] of that instance, if the instance is open, then returns 0. *)
Theorem X19_stop_mainloop_ends_router_loop
    (accept_msg : Endpoint → buffer → AcceptState)
    (endpoint_write_msg : Endpoint → buffer → Z)
    (w : World) (id : nat) (m : Mainloop) :
  threadRegistry_ w !! "mainloop" = Some id →
  mainloops w !! instance thread_local_instance = Some m →
  let r := stopThread terminates thread_local_instance MAINLOOP w in
  status r.1 = SUCCESS ∧
  threadManager_ r.2 = threadManager_ w ∧
  calls r.2 = calls w ++ [RequestExit (instance thread_local_instance) 0] ∧
  (∀ other, other ≠ instance thread_local_instance →
            mainloops r.2 !! other = mainloops w !! other) ∧
  mainloops r.2 !! instance thread_local_instance = Some (request_exit 0 m) ∧
  (0 ≤ epollfd m →
   ∀ timer_fd script,
     fst <$> loop accept_msg endpoint_write_msg timer_fd script
               (request_exit 0 m) = Some 0).
Proof.
  intros Hreg Hm. cbv zeta.
  unfold stopThread, executeRequest. cbn [getThreadNamesForTarget].
  unfold names_for. rewrite bool_decide_eq_true_2 by (by rewrite Hreg).
  cbn [execute_each]. unfold executeOperationOnThread. rewrite Hreg.
  change (String.eqb "mainloop" "mainloop") with true. cbv iota.
  unfold with_state. cbv beta iota zeta. cbn [fst snd status threadStates].
  rewrite (bool_decide_eq_true_2 (SUCCESS = SUCCESS)) by done.
  cbn [andb status fst snd].
  unfold call_request_exit. cbn [threadManager_ calls mainloops log].
  split; [done|]. split; [done|]. split; [done|]. split; [|split].
  - intros other Hne. unfold request_exit_at. by rewrite lookup_alter_ne.
  - unfold request_exit_at. by rewrite lookup_alter_eq, Hm.
  - intros Hopen timer_fd script. by apply loop_after_request_exit.
Qed.

(** X20.  The names of the targets and of the operations parse back to
    themselves, in any capitalisation; every other string is read as the
    target ALL, respectively as the operation STATUS. *)
Theorem X20_rpc_names_parse_back :
  (∀ t, stringToThreadTarget (threadTargetToString t) = t) ∧
  (∀ o, stringToThreadOperation (threadOperationToString o) = o) ∧
  (∀ s t, lower s = threadTargetToString t → stringToThreadTarget s = t) ∧
  (∀ s o, lower s = threadOperationToString o →
          stringToThreadOperation s = o) ∧
  (∀ s, (∀ t, lower s ≠ threadTargetToString t) →
        stringToThreadTarget s = ALL) ∧
  (∀ s, (∀ o, lower s ≠ threadOperationToString o) →
        stringToThreadOperation s = STATUS).
Proof.
  split; [by intros []|]. split; [by intros []|].
  split; [|split; [|split]].
  - intros s t Hs. unfold stringToThreadTarget. cbv zeta. rewrite Hs.
    by destruct t.
  - intros s o Hs. unfold stringToThreadOperation. cbv zeta. rewrite Hs.
    by destruct o.
  - intros s Hs. unfold stringToThreadTarget. cbv zeta.
    destruct (String.eqb_spec (lower s) "mainloop") as [Heq|_];
      [by destruct (Hs MAINLOOP)|].
    destruct (String.eqb_spec (lower s) "http_server") as [Heq|_];
      [by destruct (Hs HTTP_SERVER)|].
    destruct (String.eqb_spec (lower s) "statistics") as [Heq|_];
      [by destruct (Hs STATISTICS)|].
    by destruct (String.eqb _ _).
  - intros s Hs. unfold stringToThreadOperation. cbv zeta.
    destruct (String.eqb_spec (lower s) "start") as [Heq|_];
      [by destruct (Hs START)|].
    destruct (String.eqb_spec (lower s) "stop") as [Heq|_];
      [by destruct (Hs STOP)|].
    destruct (String.eqb_spec (lower s) "pause") as [Heq|_];
      [by destruct (Hs PAUSE)|].
    destruct (String.eqb_spec (lower s) "resume") as [Heq|_];
      [by destruct (Hs RESUME)|].
    destruct (String.eqb_spec (lower s) "restart") as [Heq|_];
      [by destruct (Hs RESTART)|].
    by destruct (String.eqb _ _).
Qed.

End ControllerQuiet.

(** Witness of X18: the primary router thread is running and registered;
    RESTART leaves it registered under the id it had. *)
Lemma X18_only_start_creates_threads_witness :
  RpcModel.threadRegistry_
    (RpcModel.executeRequest (λ _ _, true) None RpcModel.RESTART
       RpcModel.MAINLOOP RpcModel.world_running).2
  = RpcModel.threadRegistry_ RpcModel.world_running.
Proof.
  destruct (X18_only_start_creates_threads (λ _ _, true) None
              RpcModel.RESTART RpcModel.MAINLOOP RpcModel.world_running)
    as [Hreg _].
  - discriminate.
  - exact Hreg.
Defined.

(** Witness of X19: the running program, the request coming from the HTTP
    server's thread. *)
Lemma X19_stop_mainloop_ends_router_loop_witness :
  RpcModel.status
    (RpcModel.stopThread (λ _ _, true) None RpcModel.MAINLOOP
       RpcModel.world_running).1 = RpcModel.SUCCESS.
Proof.
  destruct (X19_stop_mainloop_ends_router_loop (λ _ _, true) None
              (λ _ _, MainloopModel.Rejected) (λ _ _, 0)
              RpcModel.world_running 2%nat MainloopModel._instance)
    as [Hs _].
  - reflexivity.
  - reflexivity.
  - exact Hs.
Defined.

(* ===================================================================== *)
(** * Further properties of the extension manager                          *)
(* ===================================================================== *)

Section ExtensionMore.
Import Config MainloopModel ExtensionModel ExtensionQueries.

(** X21.  The names of the extension types parse back to themselves, in any
    capitalisation; every other string is read as UDP. *)
Theorem X21_extension_type_names_parse_back :
  (∀ t, stringToExtensionType (extensionTypeToString t) = t) ∧
  (∀ s t, RpcQueries.lower s = extensionTypeToString t →
          stringToExtensionType s = t) ∧
  (∀ s, (∀ t, RpcQueries.lower s ≠ extensionTypeToString t) →
        stringToExtensionType s = UDP).
Proof.
  split; [by intros []|]. split.
  - intros s t Hs. unfold stringToExtensionType. cbv zeta. rewrite Hs.
    by destruct t.
  - intros s Hs. unfold stringToExtensionType. cbv zeta.
    destruct (String.eqb_spec (RpcQueries.lower s) "internal") as [Heq|_];
      [by destruct (Hs INTERNAL)|].
    destruct (String.eqb_spec (RpcQueries.lower s) "tcp") as [Heq|_];
      [by destruct (Hs TCP)|].
    by destruct (String.eqb _ _).
Qed.

Lemma same_records_refl m : same_records m m.
Proof. done. Qed.

Lemma same_records_trans m1 m2 m3 :
  same_records m1 m2 → same_records m2 m3 → same_records m1 m3.
Proof. intros (?&?&?&?) (?&?&?&?). repeat split; congruence. Qed.

Lemma same_records_tm_try c op m : same_records m (tm_try c op m).2.
Proof. unfold tm_try. by destruct (op _). Qed.

Lemma same_records_joinThread terminates id ms m :
  same_records m (call_joinThread terminates id ms m).2.
Proof.
  unfold call_joinThread. by destruct (ThreadMgr.joinThread _ _ _ _) as [[? ?]|].
Qed.

Lemma same_records_force terminates id att m :
  same_records m (force_termination terminates id att m).
Proof.
  unfold force_termination.
  pose proof (same_records_tm_try (StopThread id) (ThreadMgr.stopThread id) m)
    as H1.
  destruct (tm_try _ _ m) as [[] m1]; cbn [snd] in H1; [|done].
  pose proof (same_records_joinThread terminates id 2000 m1) as H2.
  destruct (call_joinThread _ _ _ m1) as [[b|] m2]; cbn [snd] in H2.
  - eapply same_records_trans; [done|].
    eapply same_records_trans; [done|]. apply same_records_tm_try.
  - by eapply same_records_trans.
Qed.

Lemma same_records_launch c m :
  same_records m (launchExtensionThread c m).2.
Proof.
  unfold launchExtensionThread. by destruct (ThreadMgr.createThread _).
Qed.

Lemma build_thread_config_port g c pt rand tc :
  build_thread_config g c pt rand = inr tc →
  tcp_port tc = 50000 + rand mod 10000.
Proof.
  unfold build_thread_config. destruct (type c).
  - destruct (negb _); [done|].
    destruct (list_find _ _) as [[? ?]|]; [|done]. by intros [= <-].
  - by intros [= <-].
  - by intros [= <-].
Qed.

Lemma assigned_in_pool (m : Manager) g t :
  assignAvailableExtensionPoint m g t ≠ "" →
  assignAvailableExtensionPoint m g t ∈ pool_names g t.
Proof.
  intros Hne. pose proof (assign_spec m g t) as Hspec. cbv zeta in Hspec.
  destruct (String.eqb_spec (assignAvailableExtensionPoint m g t) "");
    [done|].
  destruct Hspec as (l1 & l2 & -> & _). apply elem_of_app. right. by left.
Qed.

Lemma unwritable_launch c (m : Manager) :
  unwritable (launchExtensionThread c m).2 = unwritable m.
Proof.
  unfold launchExtensionThread.
  by destruct (ThreadMgr.createThread _) as [id tm].
Qed.

Lemma createExtension_outcomes (rand : Z) (c : ExtensionConfig)
    (m : Manager) :
  let r := createExtension rand c m in
  (r.1 ∈ rejections ∧ r.2 = m) ∨
  (r.1 = "Success" ∧ extensions_ m !! name c = None ∧
   ∃ info,
     extensions_ r.2 = <[name c := info]> (extensions_ m) ∧
     isRunning info = true ∧ mainloopInstance info = None ∧
     name (config info) = name c ∧ type (config info) = type c ∧
     address (config info) = address c ∧ port (config info) = port c ∧
     50000 ≤ tcp_port (extension_thread_config (config info)) < 60000 ∧
     saved r.2
     = (if decide (getConfigFilePath m (name c) ∈ unwritable m)
        then saved m
        else <[getConfigFilePath m (name c) := config info]> (saved m)) ∧
     unwritable r.2 = unwritable m).
Proof.
  cbv zeta. unfold createExtension, rejections.
  destruct (extensions_ m !! name c) as [old|] eqn:Hold.
  { rewrite bool_decide_eq_true_2 by (by eexists). left.
    split; [|done]. cbn [fst]. set_solver. }
  rewrite bool_decide_eq_false_2 by (by intros [? ?]).
  destruct (globalConfig_ m) as [g|] eqn:Hg; last first.
  { left. split; [|done]. cbn [fst]. set_solver. }
  destruct (String.eqb_spec (assignAvailableExtensionPoint m g (type c)) "")
    as [Hpt|Hpt].
  { left. split; [|done]. cbn [fst]. set_solver. }
  destruct (validateExtensionConfig c); cbn [negb]; last first.
  { left. split; [|done]. cbn [fst]. set_solver. }
  destruct (build_thread_config_ok g c _ rand (assigned_in_pool m g _ Hpt))
    as [tc Htc].
  rewrite Htc. apply build_thread_config_port in Htc.
  set (cfg := with_thread_config c _ tc).
  pose proof (same_records_launch cfg m) as (He & Hs & Hd & _).
  pose proof (unwritable_launch cfg m) as Hu.
  destruct (launchExtensionThread cfg m) as [id m1].
  cbn [snd] in He, Hs, Hd, Hu.
  right. cbn [fst snd]. split; [done|]. split; [done|].
  exists (mkExtensionInfo (name c) id cfg true None).
  unfold saveExtensionConfig, getConfigFilePath.
  cbn [extensions_ set_extensions extensionConfDir_ saved].
  rewrite lookup_insert_eq. cbv zeta.
  cbn [unwritable log set_extensions extensionConfDir_].
  rewrite Hu, Hd.
  destruct (decide (_ ∈ unwritable m)); cbn; rewrite He, Hs, ?Hd, ?Hu, Htc;
    (repeat (split; [done|])); (split; [|done]);
    pose proof (Z.mod_pos_bound rand 10000); lia.
Qed.

(** X22.  [createExtension] either succeeds or turns the request down
    before anything happened.  Turned down, with one of four messages, it
    leaves the manager, the thread manager and the files untouched; the two
    messages about the internal router point are never returned, because the
    point assigned to an INTERNAL extension always is one.  On success the
    record is new and running, carries the name, type, address and port asked
    for, has no router instance yet, got a TCP server port in
    [50000, 60000), and no other record changed.  The record is saved in the
    extension's configuration file if that file can be opened for writing;
    if it cannot, no file is written or changed, and the answer is "Success"
    all the same: what [saveExtensionConfig] returns is not looked at. *)
Theorem X22_createExtension_all_or_nothing (rand : Z) (c : ExtensionConfig)
    (m : Manager) :
  let r := createExtension rand c m in
  (r.1 ∈ rejections ∧ r.2 = m) ∨
  (r.1 = "Success" ∧ extensions_ m !! name c = None ∧
   ∃ info,
     extensions_ r.2 = <[name c := info]> (extensions_ m) ∧
     isRunning info = true ∧ mainloopInstance info = None ∧
     name (config info) = name c ∧ type (config info) = type c ∧
     address (config info) = address c ∧ port (config info) = port c ∧
     50000 ≤ tcp_port (extension_thread_config (config info)) < 60000 ∧
     saved r.2
     = (if decide (getConfigFilePath m (name c) ∈ unwritable m)
        then saved m
        else <[getConfigFilePath m (name c) := config info]> (saved m)) ∧
     unwritable r.2 = unwritable m).
Proof. apply createExtension_outcomes. Qed.

Lemma wait_unpublished n left retries m info :
  extensions_ m !! n = Some info →
  mainloopInstance info = None →
  ∃ m1, wait_for_instance (λ _ m, m) n left retries m
        = (NeverInitialized, m1, (retries + left)%nat) ∧
        same_records m m1 ∧ mainloops m1 = mainloops m ∧
        calls m1 = calls m ++ replicate left (Sleep 50).
Proof.
  intros Hn Hi. revert retries m Hn.
  induction left as [|left IH]; intros retries m Hn.
  - exists m. cbn [wait_for_instance replicate].
    by rewrite Nat.add_0_r, app_nil_r.
  - cbn [wait_for_instance]. rewrite Hn. cbn [fmap option_fmap option_map].
    rewrite Hi.
    change (extensions_ (log (Sleep 50) m)) with (extensions_ m). rewrite Hn.
    destruct (IH (S retries) (log (Sleep 50) m) Hn)
      as (m1 & Hw & Hrec & Hml & Hcalls).
    exists m1. rewrite Hw. split; [f_equal; lia|].
    split; [done|]. split; [done|].
    rewrite Hcalls. cbn [calls log replicate]. by rewrite <- app_assoc.
Qed.

(** X23.  Stopping is idempotent: once [stopExtension] has answered true,
    the extension is recorded as stopped, and stopping it again answers true
    at once, without a wait, without a call, and without changing
    anything. *)
Theorem X23_stopExtension_idempotent
    (terminates terminates' : nat → Z → bool)
    (env env' : nat → Manager → Manager) (n : string) (m m' : Manager) :
  stopExtension terminates env n m = (true, m') →
  (∃ info, extensions_ m' !! n = Some info ∧ isRunning info = false) ∧
  stopExtension terminates' env' n m' = (true, m').
Proof.
  intros Hstop.
  assert (∃ info, extensions_ m' !! n = Some info ∧ isRunning info = false)
    as (info' & Hn' & Hr').
  { revert Hstop. unfold stopExtension.
    destruct (extensions_ m !! n) as [info|] eqn:Hn; [|done].
    destruct (isRunning info) eqn:Hrun; cbn [negb].
    2:{ intros [= <-]. by exists info. }
    destruct (wait_for_instance env n maxRetries 0 m) as [[res m1] k] eqn:Hw.
    apply wait_for_instance_spec in Hw as [_ Hres].
    destruct res as [p| |]; [|done..].
    destruct (extensions_ m1 !! n) as [info1|] eqn:Hn1; [|done].
    pose proof (same_shape_request_exit p 0 m1) as [He2 _].
    pose proof (same_shape_joinThread terminates (threadId info) 5000
                  (call_request_exit p 0 m1)) as [He3 _].
    destruct (call_joinThread _ _ _ (call_request_exit p 0 m1))
      as [[b|] m3]; [|done].
    cbn [snd] in He3.
    match goal with
    | |- context [tm_try ?c ?op m3] =>
        pose proof (same_shape_tm_try c op m3) as [He4 _]
    end.
    intros [= <-].
    erewrite mark_stopped_lookup by (by rewrite He4, He3, He2).
    by eexists. }
  split; [by exists info'|].
  unfold stopExtension. by rewrite Hn', Hr'.
Qed.


Lemma force_termination_calls terminates id att m :
  ∃ rest, calls (force_termination terminates id att m)
          = calls m ++ StopThread id :: rest.
Proof.
  unfold force_termination, tm_try.
  destruct (ThreadMgr.stopThread id _) as [tm|]; cbn [fst snd];
    [|by exists []].
  unfold call_joinThread.
  destruct (ThreadMgr.joinThread _ _ _ _) as [[b tm']|]; cbn [fst snd].
  - destruct (ThreadMgr.unregisterThread _ _); cbn [snd calls set_tm log];
      rewrite <- !app_assoc; by eexists.
  - cbn [calls set_tm log]. rewrite <- !app_assoc. by eexists.
Qed.

Lemma usedPoints_same_config n info info' (m m' : Manager) :
  extensions_ m !! n = Some info →
  config info' = config info →
  extensions_ m' = <[n := info']> (extensions_ m) →
  usedPoints m' = usedPoints m.
Proof.
  intros Hn Hc He. apply set_eq. intros pt.
  rewrite !elem_of_usedPoints, He. split.
  - intros [Hne (k & i & Hk & Hpt)]. split; [done|].
    apply lookup_insert_Some in Hk as [[<- <-]|[Hkn Hk]].
    + exists n, info. by rewrite <- Hc.
    + by exists k, i.
  - intros [Hne (k & i & Hk & Hpt)]. split; [done|].
    destruct (decide (k = n)) as [->|Hkn].
    + exists n, info'. rewrite lookup_insert_eq. split; [done|].
      rewrite Hc. congruence.
    + exists k, i. by rewrite lookup_insert_ne.
Qed.

(** X27.  [startExtension] answers true for every extension it knows.  A
    running one is left alone.  A stopped one is launched again on a new
    thread with the configuration of its record: the extension point is not
    assigned anew, the router instance pointer of the record is kept as it
    is, no other record and no configuration file changes, and the points in
    use are the same as before. *)
Theorem X27_startExtension_relaunches_same_config (n : string) (m : Manager)
    (info : ExtensionInfo) :
  extensions_ m !! n = Some info →
  let r := startExtension n m in
  r.1 = true ∧
  (isRunning info = true → r.2 = m) ∧
  (isRunning info = false →
   ∃ id, extensions_ r.2
         = <[n := mkExtensionInfo (info_name info) id (config info) true
                    (mainloopInstance info)]> (extensions_ m) ∧
         saved r.2 = saved m ∧
         usedPoints r.2 = usedPoints m ∧
         ∃ old, calls r.2
                = calls m ++ old ++
                  [CreateThread id;
                   RegisterThread id ("extension_" +:+ name (config info))]).
Proof.
  intros Hn. cbv zeta. unfold startExtension. rewrite Hn.
  destruct (isRunning info) eqn:Hrun; [done|].
  match goal with
  | |- context [launchExtensionThread (config info) ?x] => set (m1 := x)
  end.
  assert (same_records m m1 ∧ ∃ old, calls m1 = calls m ++ old)
    as [(He1 & Hs1 & _) [old Hold]].
  { subst m1. destruct (threadId info =? 0)%nat.
    - split; [done|]. exists []. by rewrite app_nil_r.
    - split.
      + eapply same_records_trans; [apply same_records_tm_try|].
        eapply same_records_trans; [apply same_records_tm_try|]. done.
      + unfold tm_try.
        destruct (ThreadMgr.stopThread _ _);
          cbn [snd log calls set_tm threadManager_];
          destruct (ThreadMgr.unregisterThread _ _);
          cbn [snd log calls set_tm]; rewrite <- !app_assoc; by eexists. }
  clearbody m1.
  unfold launchExtensionThread.
  destruct (ThreadMgr.createThread (threadManager_ m1)) as [id tm].
  cbn [fst snd extensions_ saved calls set_extensions log set_tm].
  split; [done|]. split; [done|]. intros _. exists id.
  assert (alter (λ i, mkExtensionInfo (info_name i) id (config i) true
                        (mainloopInstance i)) n (extensions_ m1)
          = <[n := mkExtensionInfo (info_name info) id (config info) true
                     (mainloopInstance info)]> (extensions_ m)) as Hexts.
  { rewrite He1. apply map_eq. intros k.
    destruct (decide (k = n)) as [->|Hne].
    - by rewrite lookup_alter_eq, lookup_insert_eq, Hn.
    - by rewrite lookup_alter_ne, lookup_insert_ne. }
  split; [done|]. split; [done|]. split.
  - eapply (usedPoints_same_config n info); [done| |exact Hexts]. done.
  - exists old. rewrite Hold, <- !app_assoc. done.
Qed.

(** X28.  A stop that comes before the extension thread has published its
    router instance, no other thread touching the manager meanwhile, sleeps
    the full 20 times 50 ms, forces the thread's termination through the
    thread manager, marks the extension stopped with its configuration
    kept, and still answers false; stopping again then answers true without
    doing anything. *)
Theorem X28_stop_unpublished_fails_but_stops
    (terminates terminates' : nat → Z → bool)
    (env' : nat → Manager → Manager) (n : string) (m : Manager)
    (info : ExtensionInfo) :
  extensions_ m !! n = Some info →
  isRunning info = true →
  mainloopInstance info = None →
  let r := stopExtension terminates (λ _ m, m) n m in
  r.1 = false ∧
  extensions_ r.2 !! n
  = Some (mkExtensionInfo (info_name info) (threadId info) (config info)
                          false None) ∧
  (∃ rest, calls r.2 = calls m ++ replicate maxRetries (Sleep 50)
                       ++ StopThread (threadId info) :: rest) ∧
  mainloops r.2 = mainloops m ∧
  stopExtension terminates' env' n r.2 = (true, r.2).
Proof.
  intros Hn Hrun Hinst. cbv zeta.
  destruct (wait_unpublished n maxRetries 0 m info Hn Hinst)
    as (m1 & Hw & (He1 & _) & Hml1 & Hc1).
  assert (stopExtension terminates (λ _ m, m) n m
          = (false, mark_stopped n
                      (force_termination terminates (threadId info)
                         ("extension_" +:+ n) m1))) as ->.
  { unfold stopExtension. rewrite Hn, Hrun. cbn [negb]. by rewrite Hw. }
  pose proof (same_records_force terminates (threadId info)
                ("extension_" +:+ n) m1) as (He2 & _).
  pose proof (mainloops_force terminates (threadId info)
                ("extension_" +:+ n) m1) as Hml2.
  destruct (force_termination_calls terminates (threadId info)
              ("extension_" +:+ n) m1) as [rest Hc2].
  generalize dependent (force_termination terminates (threadId info)
                          ("extension_" +:+ n) m1).
  intros m2 He2 Hml2 Hc2. cbn [fst snd].
  assert (extensions_ (mark_stopped n m2) !! n
          = Some (mkExtensionInfo (info_name info) (threadId info)
                    (config info) false None)) as Hrec.
  { apply mark_stopped_lookup. by rewrite He2, He1. }
  split; [done|]. split; [done|]. split; [|split].
  - exists rest. cbn [calls mark_stopped set_extensions].
    by rewrite Hc2, Hc1, <- app_assoc.
  - cbn [mainloops mark_stopped set_extensions]. by rewrite Hml2, Hml1.
  - unfold stopExtension. by rewrite Hrec.
Qed.

End ExtensionMore.

(** Witness of X23: extension "x" is created, its thread publishes its
    router instance during the third sleep of the stop, and the thread
    terminates in time. *)
Lemma X23_stopExtension_idempotent_witness :
  let m := ExtensionModel.run ExtensionModel.sample_ops in
  let r := ExtensionModel.stopExtension (λ _ _, true)
             (ExtensionModel.interleave ExtensionModel.sample_others) "x" m in
  ExtensionModel.stopExtension (λ _ _, false) (λ _ m, m) "x" r.2
  = (true, r.2).
Proof.
  intros m r.
  edestruct (X23_stopExtension_idempotent (λ _ _, true) (λ _ _, false)
               (ExtensionModel.interleave ExtensionModel.sample_others)
               (λ _ m, m) "x" m r.2) as [_ Hagain].
  - vm_compute. reflexivity.
  - exact Hagain.
Defined.


(** Witness of X27: extension "x" is created, stopped after its thread
    published its router instance, and started again. *)
Lemma X27_startExtension_relaunches_same_config_witness :
  let m := (ExtensionModel.stopExtension (λ _ _, true)
              (ExtensionModel.interleave ExtensionModel.sample_others) "x"
              (ExtensionModel.run ExtensionModel.sample_ops)).2 in
  (ExtensionModel.startExtension "x" m).1 = true.
Proof.
  intros m.
  edestruct (X27_startExtension_relaunches_same_config "x" m) as [Htrue _].
  - vm_compute. reflexivity.
  - exact Htrue.
Defined.

(** Witness of X28: extension "x" is created and stopped at once. *)
Lemma X28_stop_unpublished_fails_but_stops_witness :
  let m := ExtensionModel.run ExtensionModel.sample_ops in
  (ExtensionModel.stopExtension (λ _ _, true) (λ _ m, m) "x" m).1 = false.
Proof.
  intros m.
  edestruct (X28_stop_unpublished_fails_but_stops (λ _ _, true) (λ _ _, true)
               (λ _ m, m) "x" m) as [Hfalse _].
  - vm_compute. reflexivity.
  - vm_compute. reflexivity.
  - vm_compute. reflexivity.
  - exact Hfalse.
Defined.

(* ===================================================================== *)
(** * Properties of the command line's port choice                         *)
(* ===================================================================== *)

Section MainFacts.
Import Config MainModel.

Lemma find_next_udp_port_loop_spec ip port cs :
  find_next_udp_port_loop ip port cs =
  if existsb (λ c, String.eqb ip (udp_address c) && (port =? udp_port c)) cs
  then u32 (port + 1) else port.
Proof.
  induction cs as [|c cs IH]; [done|]. cbn [find_next_udp_port_loop existsb].
  destruct (_ && _); [done|]. by rewrite IH.
Qed.

(** X25.  [find_next_udp_port] returns 14550 when no configured UDP
    endpoint is at that port on the address, and 14551 otherwise.  It never
    looks further: when both ports are taken on the address it returns
    14551, a port that is in use. *)
Theorem X25_find_next_udp_port_two_candidates (ip : string)
    (config : Configuration) :
  let p := find_next_udp_port ip config in
  (taken ip 14550 config → p = 14551) ∧
  (¬ taken ip 14550 config → p = 14550) ∧
  (taken ip 14550 config → taken ip 14551 config → taken ip p config).
Proof.
  cbv zeta. unfold find_next_udp_port.
  rewrite find_next_udp_port_loop_spec.
  assert (existsb (λ c, String.eqb ip (udp_address c) && (14550 =? udp_port c))
                  (udp_configs config) = true ↔ taken ip 14550 config) as Hex.
  { rewrite existsb_exists. unfold taken. split.
    - intros (c & Hin & [Hip Hport]%andb_true_iff).
      apply String.eqb_eq in Hip. apply Z.eqb_eq in Hport.
      exists c. split; [by apply list_elem_of_In|done].
    - intros (c & Hin & Hip & Hport). exists c.
      split; [by apply list_elem_of_In|].
      apply andb_true_iff. split; [by apply String.eqb_eq|by apply Z.eqb_eq]. }
  destruct (existsb _ _).
  - split; [done|]. split; [|done]. intros Hnot. destruct Hnot. by apply Hex.
  - split; [|done]. intros Htaken. by apply Hex in Htaken.
Qed.

End MainFacts.

(* ===================================================================== *)
(** * Properties of the primary router's thread function                   *)
(* ===================================================================== *)

Section MainloopThreadFacts.
Import Config MainloopModel LifecycleModel MainModel.

Variable accept_msg : Endpoint → buffer → AcceptState.
Variable endpoint_write_msg : Endpoint → buffer → Z.
Variable uart_setup : UartEndpointConfig → option Z.
Variable udp_setup : UdpEndpointConfig → option Z.
Variable tcp_setup : TcpEndpointConfig → option Z.
Variable tcp_open : Z → Z.

Abbreviation mainloopFunc' :=
  (mainloopFunc accept_msg endpoint_write_msg uart_setup udp_setup tcp_setup
     tcp_open).

Lemma add_endpoints_keeps_exit m config :
  let r := add_endpoints uart_setup udp_setup tcp_setup tcp_open m config in
  epollfd r.2 = epollfd m ∧ _should_exit r.2 = _should_exit m ∧
  _retcode r.2 = _retcode m.
Proof.
  cbv zeta. unfold add_endpoints.
  match goal with
  | |- context [add_all uart_setup ?mk ?d (uart_configs config) m] =>
      pose proof (add_all_spec uart_setup mk d uart_name
                    (λ c fd, conj eq_refl eq_refl) (uart_configs config) m)
        as (_ & _ & _ & _ & Hep1 & Hex1 & Hrc1);
      destruct (add_all uart_setup mk d (uart_configs config) m) as [ok1 m1]
  end.
  cbn [fst snd] in Hep1, Hex1, Hrc1. destruct ok1; cbn [negb]; [|done].
  match goal with
  | |- context [add_all udp_setup ?mk ?d (udp_configs config) m1] =>
      pose proof (add_all_spec udp_setup mk d udp_name
                    (λ c fd, conj eq_refl eq_refl) (udp_configs config) m1)
        as (_ & _ & _ & _ & Hep2 & Hex2 & Hrc2);
      destruct (add_all udp_setup mk d (udp_configs config) m1) as [ok2 m2]
  end.
  cbn [fst snd] in Hep2, Hex2, Hrc2. destruct ok2; cbn [negb];
    [|cbn [snd]; split; [|split]; congruence].
  match goal with
  | |- context [add_all tcp_setup ?mk ?d (tcp_configs config) m2] =>
      pose proof (add_all_spec tcp_setup mk d tcp_name
                    (λ c fd, conj eq_refl eq_refl) (tcp_configs config) m2)
        as (_ & _ & _ & _ & Hep3 & Hex3 & Hrc3);
      destruct (add_all tcp_setup mk d (tcp_configs config) m2) as [ok3 m3]
  end.
  cbn [fst snd] in Hep3, Hex3, Hrc3. destruct ok3; cbn [negb];
    [|cbn [snd]; split; [|split]; congruence].
  cbn [snd]. rewrite <- Hep1, <- Hex1, <- Hrc1, <- Hep2, <- Hex2, <- Hrc2,
    <- Hep3, <- Hex3, <- Hrc3.
  destruct (0 <? dedup_period_ms config), (tcp_port config =? 0);
    unfold track_fd; try destruct (tcp_open (tcp_port config) <? 0); done.
Qed.

(** X26.  A router thread always starts afresh and always ends reset.
    Whatever state the previous run left the primary router in (asked to
    exit, still open, endpoints and timeouts in place), a new run of the
    thread function in which [epoll_create1] and every endpoint set-up
    succeed enters the loop and stays in it as long as no critical
    descriptor fails.  And however a run ends -- [open] failed, an endpoint
    could not be set up, or the loop returned -- it leaves the router
    closed, with no endpoint and no timeout, and not asked to exit. *)
Theorem X26_mainloop_thread_restarts_clean (created timer_fd : Z)
    (script : list epoll_result) (config : Configuration) (os : gset Z)
    (m : Mainloop) :
  (0 ≤ created →
   (add_endpoints uart_setup udp_setup tcp_setup tcp_open
      (open created (teardown m os).1).2 config).1 = true →
   forallb calm script = true →
   mainloopFunc' created timer_fd script config os m = None) ∧
  (∀ e, mainloopFunc' created timer_fd script config os m = Some e →
        epollfd (final_instance e) = -1 ∧
        _should_exit (final_instance e) = false ∧
        g_endpoints (final_instance e) = [] ∧
        _timeouts (final_instance e) = []).
Proof.
  assert (∀ x, epollfd (teardown x os).1 = -1 ∧
               _should_exit (teardown x os).1 = false ∧
               g_endpoints (teardown x os).1 = [] ∧
               _timeouts (teardown x os).1 = []) as Hreset.
  { intros x. pose proof (teardown_spec x os) as H. cbv zeta in H.
    destruct H as (_ & _ & _ & ? & ? & _ & ? & ? & _). done. }
  split; last first.
  { intros e. unfold mainloopFunc. cbv zeta.
    destruct (open created (teardown m os).1) as [open_result m1].
    destruct (open_result <? 0).
    { intros [= <-]. apply Hreset. }
    destruct (add_endpoints uart_setup udp_setup tcp_setup tcp_open m1 config)
      as [ok m2].
    destruct ok; cbn [negb].
    - destruct (loop accept_msg endpoint_write_msg timer_fd script m2)
        as [[ret m3]|]; [|done].
      intros [= <-]. apply Hreset.
    - intros [= <-]. apply Hreset. }
  intros Hcreated Hok Hcalm.
  unfold mainloopFunc. revert Hok.
  destruct (Hreset m) as (Hep0 & Hex0 & _).
  generalize dependent ((teardown m os).1). intros m0 Hep0 Hex0.
  unfold open. cbn [epollfd set_retcode]. rewrite Hep0.
  change (negb (-1 =? -1)) with false. cbv iota. cbn [epollfd set_epollfd].
  destruct (Z.eqb_spec created (-1)) as [?|_]; [lia|].
  cbn [fst snd]. change (0 <? 0) with false. cbv iota.
  match goal with
  | |- context [add_endpoints _ _ _ _ ?m1 config] =>
      pose proof (add_endpoints_keeps_exit m1 config) as (Hep2 & Hex2 & _);
      destruct (add_endpoints uart_setup udp_setup tcp_setup tcp_open m1 config)
        as [ok m2]
  end.
  cbn [fst snd] in Hep2, Hex2. intros Hok. cbn [fst] in Hok. subst ok.
  cbn [negb].
  assert (epollfd m2 = created ∧ _should_exit m2 = false) as [Hep Hex].
  { rewrite Hep2, Hex2. unfold track_fd.
    replace (created <? 0) with false by (symmetry; by apply Z.ltb_ge).
    cbn [epollfd _should_exit set_retcode set_epollfd]. by split. }
  pose proof (loop_while_calm_prefix accept_msg endpoint_write_msg script
                (add_timeout timer_fd m2)) as Hrun.
  unfold loop. rewrite Hep.
  replace (created <? 0) with false by (symmetry; by apply Z.ltb_ge).
  destruct Hrun as (m3 & Hm3 & Hrun); [|done|].
  { pose proof (add_timeout_exit timer_fd m2) as [-> _]. done. }
  specialize (Hrun []). rewrite app_nil_r in Hrun. rewrite Hrun.
  cbn [loop_while].
  assert (_should_exit m3 = false) as ->; [|done].
  apply (exit_state_flag _ _ (_retcode m2)). rewrite Hm3.
  rewrite add_timeout_exit_state. unfold exit_state. by rewrite Hex.
Qed.

End MainloopThreadFacts.

(** Witness of X26: the previous run was asked to exit and left open; the
    new run gets descriptor 3 for its epoll instance and sets up one UDP
    endpoint; two time-outs pass. *)
Lemma X26_mainloop_thread_restarts_clean_witness :
  let m := MainloopModel.request_exit 0
             (MainloopModel.mkMainloop 3 false false [] (-1) []
                (DedupModel.new_Dedup 0) 0 0 {[ 3 := "EPOLL" ]}) in
  let config :=
    Config.mkConfiguration 0 false []
      [Config.mkUdpConfig "A" "127.0.0.1" 14550 Config.Client ""] [] 0 0 in
  MainModel.mainloopFunc (λ _ _, MainloopModel.Rejected) (λ _ _, 0)
    (λ _, None) (λ _, Some 5) (λ _, None) (λ _, -1) 3 7
    [MainloopModel.WaitTimeout; MainloopModel.WaitTimeout] config {[ 3 ]} m
  = None.
Proof.
  intros m config.
  destruct (X26_mainloop_thread_restarts_clean
              (λ _ _, MainloopModel.Rejected) (λ _ _, 0)
              (λ _, None) (λ _, Some 5) (λ _, None) (λ _, -1) 3 7
              [MainloopModel.WaitTimeout; MainloopModel.WaitTimeout]
              config {[ 3 ]} m) as [Hruns _].
  apply Hruns.
  - lia.
  - vm_compute. reflexivity.
  - reflexivity.
Defined.
